(** * mne_pipeline_hd: the run scheduler, argument resolution and the loading layer

    A shallow embedding of
      - [pipeline_functions/function_utils.py]: [get_arguments] and the
        [RunDialog] scheduler,
      - [pipeline_functions/loading.py]: [BaseLoading], [MEEG], [FSMRI], [Group],
    together with the properties of the specification that concern them. *)

From Stdlib Require Import ZArith Lia Ascii.
From stdpp Require Import base option list strings gmap pretty.

Local Open Scope string_scope.
Local Open Scope list_scope.

(** ** Decimal rendering of counters inside f-strings *)

Module Fmt.

Definition is_digit (a : ascii) : bool :=
  bool_decide (a ∈ String.list_ascii_of_string "0123456789").

Fixpoint all_digits (s : string) : bool :=
  match s with
  | EmptyString => true
  | String a s' => is_digit a && all_digits s'
  end.

End Fmt.

(** ** The run scheduler: [RunDialog] of function_utils.py *)

Module RunDialog.

(** The target classes of loading.py an object of a run is built from. *)
Inductive obj_type := FSMRI | MEEG | Group | Other.

#[global] Instance obj_type_eq_dec : EqDecision obj_type.
Proof. solve_decision. Defined.

(** The double quote of the anchors written to the console, and the blank
    object name the functions without an object run under. *)
Definition dq : string := String (ascii_of_nat 34) EmptyString.
Definition blank_name : string := EmptyString.

(** A step is the tuple [(object_name, func_name)] appended to [all_steps]. *)
Definition step : Type := string * string.

(** The dict stored under an object name in [all_objects]:
    [{'type': ..., 'functions': {func: status}, 'status': ...}].
    The status codes are the integers the code writes: 1 on creation,
    2 when a step starts, 0 when it ends. *)
Record run_object := RunObject {
  type : obj_type;
  functions : gmap string Z;
  status : Z }.

(** What the scheduler reads of [self.mw.ct]: the indices of the function
    tables per target, the plot flags of [pd_funcs], the setting
    'show_plots', and the selections and assignments of the project. *)
Record controller := Controller {
  fsmri_funcs : list string;
  meeg_funcs : list string;
  group_funcs : list string;
  other_funcs : list string;
  mayavi : string → bool;
  matplotlib : string → bool;
  show_plots : bool;
  sel_functions : list string;
  sel_fsmri : list string;
  sel_meeg : list string;
  sel_groups : list string;
  meeg_to_fsmri : gmap string string }.

(** The loading object held in [current_object]: its name, its class, and
    for a MEEG the name of its FSMRI. *)
Record loaded := Loaded {
  name : string;
  cls : obj_type;
  fsmri : option string }.

(** How a call of [func_from_def] ends. *)
Inductive outcome := Returned | Raised (exc : string).

(** The calls of [func_from_def] and their ends, in the order they happen:
    [Call s true] is a call on the GUI thread, [Call s false] a worker
    handed to the thread pool, [Ret s o] the end of the call (for a worker:
    the moment its signal reaches the dialog). *)
Inductive io := Call (s : step) (on_gui_thread : bool) | Ret (s : step) (o : outcome).

(** The attributes of the dialog ([init_attributes]), the widgets the
    scheduler drives (enabled flags of the four buttons, the console, the
    progress bar and the error list), the workers the thread pool holds, the
    call log, and an exception that escaped a slot.  The attributes
    [thread_idx_count], [is_prog_text] and [current_all_funcs] are only
    written or only displayed and are left out. *)
#[projections(primitive)]
Record state := State {
  all_steps : list step;
  all_objects : gmap string run_object;
  current_step : option step;
  current_object : option loaded;
  loaded_fsmri : option string;
  current_func : option string;
  errors : gmap string (string * nat);
  error_count : nat;
  prog_count : nat;
  paused : bool;
  continue_bt : bool;
  pause_bt : bool;
  restart_bt : bool;
  close_bt : bool;
  console : list string;
  pgbar : nat;
  pool : list step;
  log : list io;
  crash : option string }.

Definition set_all_steps (v : list step) (st : state) : state :=
  State v (all_objects st) (current_step st) (current_object st) (loaded_fsmri st)
    (current_func st) (errors st) (error_count st) (prog_count st) (paused st)
    (continue_bt st) (pause_bt st) (restart_bt st) (close_bt st) (console st)
    (pgbar st) (pool st) (log st) (crash st).

Definition set_all_objects (v : gmap string run_object) (st : state) : state :=
  State (all_steps st) v (current_step st) (current_object st) (loaded_fsmri st)
    (current_func st) (errors st) (error_count st) (prog_count st) (paused st)
    (continue_bt st) (pause_bt st) (restart_bt st) (close_bt st) (console st)
    (pgbar st) (pool st) (log st) (crash st).

Definition set_current_step (v : option step) (st : state) : state :=
  State (all_steps st) (all_objects st) v (current_object st) (loaded_fsmri st)
    (current_func st) (errors st) (error_count st) (prog_count st) (paused st)
    (continue_bt st) (pause_bt st) (restart_bt st) (close_bt st) (console st)
    (pgbar st) (pool st) (log st) (crash st).

Definition set_current_object (v : option loaded) (st : state) : state :=
  State (all_steps st) (all_objects st) (current_step st) v (loaded_fsmri st)
    (current_func st) (errors st) (error_count st) (prog_count st) (paused st)
    (continue_bt st) (pause_bt st) (restart_bt st) (close_bt st) (console st)
    (pgbar st) (pool st) (log st) (crash st).

Definition set_loaded_fsmri (v : option string) (st : state) : state :=
  State (all_steps st) (all_objects st) (current_step st) (current_object st) v
    (current_func st) (errors st) (error_count st) (prog_count st) (paused st)
    (continue_bt st) (pause_bt st) (restart_bt st) (close_bt st) (console st)
    (pgbar st) (pool st) (log st) (crash st).

Definition set_current_func (v : option string) (st : state) : state :=
  State (all_steps st) (all_objects st) (current_step st) (current_object st)
    (loaded_fsmri st) v (errors st) (error_count st) (prog_count st) (paused st)
    (continue_bt st) (pause_bt st) (restart_bt st) (close_bt st) (console st)
    (pgbar st) (pool st) (log st) (crash st).

Definition set_errors (v : gmap string (string * nat)) (st : state) : state :=
  State (all_steps st) (all_objects st) (current_step st) (current_object st)
    (loaded_fsmri st) (current_func st) v (error_count st) (prog_count st) (paused st)
    (continue_bt st) (pause_bt st) (restart_bt st) (close_bt st) (console st)
    (pgbar st) (pool st) (log st) (crash st).

Definition set_error_count (v : nat) (st : state) : state :=
  State (all_steps st) (all_objects st) (current_step st) (current_object st)
    (loaded_fsmri st) (current_func st) (errors st) v (prog_count st) (paused st)
    (continue_bt st) (pause_bt st) (restart_bt st) (close_bt st) (console st)
    (pgbar st) (pool st) (log st) (crash st).

Definition set_prog_count (v : nat) (st : state) : state :=
  State (all_steps st) (all_objects st) (current_step st) (current_object st)
    (loaded_fsmri st) (current_func st) (errors st) (error_count st) v (paused st)
    (continue_bt st) (pause_bt st) (restart_bt st) (close_bt st) (console st)
    (pgbar st) (pool st) (log st) (crash st).

Definition set_paused (v : bool) (st : state) : state :=
  State (all_steps st) (all_objects st) (current_step st) (current_object st)
    (loaded_fsmri st) (current_func st) (errors st) (error_count st) (prog_count st) v
    (continue_bt st) (pause_bt st) (restart_bt st) (close_bt st) (console st)
    (pgbar st) (pool st) (log st) (crash st).

(** [setEnabled] on the four buttons, in the order continue, pause,
    restart, close. *)
Definition set_buttons (c p r cl : bool) (st : state) : state :=
  State (all_steps st) (all_objects st) (current_step st) (current_object st)
    (loaded_fsmri st) (current_func st) (errors st) (error_count st) (prog_count st)
    (paused st) c p r cl (console st) (pgbar st) (pool st) (log st) (crash st).

Definition set_console (v : list string) (st : state) : state :=
  State (all_steps st) (all_objects st) (current_step st) (current_object st)
    (loaded_fsmri st) (current_func st) (errors st) (error_count st) (prog_count st)
    (paused st) (continue_bt st) (pause_bt st) (restart_bt st) (close_bt st) v
    (pgbar st) (pool st) (log st) (crash st).

Definition set_pgbar (v : nat) (st : state) : state :=
  State (all_steps st) (all_objects st) (current_step st) (current_object st)
    (loaded_fsmri st) (current_func st) (errors st) (error_count st) (prog_count st)
    (paused st) (continue_bt st) (pause_bt st) (restart_bt st) (close_bt st)
    (console st) v (pool st) (log st) (crash st).

Definition set_pool (v : list step) (st : state) : state :=
  State (all_steps st) (all_objects st) (current_step st) (current_object st)
    (loaded_fsmri st) (current_func st) (errors st) (error_count st) (prog_count st)
    (paused st) (continue_bt st) (pause_bt st) (restart_bt st) (close_bt st)
    (console st) (pgbar st) v (log st) (crash st).

Definition set_log (v : list io) (st : state) : state :=
  State (all_steps st) (all_objects st) (current_step st) (current_object st)
    (loaded_fsmri st) (current_func st) (errors st) (error_count st) (prog_count st)
    (paused st) (continue_bt st) (pause_bt st) (restart_bt st) (close_bt st)
    (console st) (pgbar st) (pool st) v (crash st).

Definition set_crash (v : option string) (st : state) : state :=
  State (all_steps st) (all_objects st) (current_step st) (current_object st)
    (loaded_fsmri st) (current_func st) (errors st) (error_count st) (prog_count st)
    (paused st) (continue_bt st) (pause_bt st) (restart_bt st) (close_bt st)
    (console st) (pgbar st) (pool st) (log st) v.

Definition add_html (h : string) (st : state) : state :=
  set_console (console st ++ [h]) st.

Definition add_log (e : io) (st : state) : state :=
  set_log (log st ++ [e]) st.

(** An exception leaves the running slot: the rest of the slot is skipped. *)
Definition and_then (st : state) (k : state → state) : state :=
  match crash st with
  | Some _ => st
  | None => k st
  end.

Notation "st >>> k" := (and_then st k) (at level 60, right associativity).

Section Run.

Variable ct : controller.

(** The end of a call of [func_from_def] on the GUI thread, given the
    number of steps finished so far, the function and the object. *)
Variable func_from_def : nat → string → loaded → outcome.

(** *** init_attributes and init_lists *)

(** [init_attributes] resets the attributes and leaves the widgets, the
    thread pool and the log as they are. *)
Definition init_attributes (st : state) : state :=
  State [] ∅ None None None None ∅ 0 0 false
    (continue_bt st) (pause_bt st) (restart_bt st) (close_bt st)
    (console st) (pgbar st) (pool st) (log st) (crash st).

(** [[f for f in index if f in sel_functions]] *)
Definition selected (index : list string) : list string :=
  filter (λ f, f ∈ sel_functions ct) index.

Definition sel_fsmri_funcs : list string := selected (fsmri_funcs ct).
Definition sel_meeg_funcs : list string := selected (meeg_funcs ct).
Definition sel_group_funcs : list string := selected (group_funcs ct).
Definition sel_other_funcs : list string := selected (other_funcs ct).

(** [{x: 1 for x in funcs}] *)
Definition pending (funcs : list string) : gmap string Z :=
  foldl (λ m x, <[x := 1%Z]> m) ∅ funcs.

(** The body of one [for obj in ...] loop: the entry of the object, then
    one step per function. *)
Definition add_object (ty : obj_type) (funcs : list string)
    (st : state) (obj : string) : state :=
  let st := set_all_objects
    (<[obj := RunObject ty (pending funcs) 1]> (all_objects st)) st in
  foldl (λ st f, set_all_steps (all_steps st ++ [(obj, f)]) st) st funcs.

(** One [if len(objs) * len(funcs) != 0: for obj in objs: ...] block. *)
Definition add_objects (ty : obj_type) (objs funcs : list string)
    (st : state) : state :=
  if decide (length objs * length funcs ≠ 0)
  then foldl (add_object ty funcs) st objs
  else st.

Definition init_lists (st : state) : state :=
  let st := add_objects FSMRI (sel_fsmri ct) sel_fsmri_funcs st in
  let st := add_objects MEEG (sel_meeg ct) sel_meeg_funcs st in
  let st := add_objects Group (sel_groups ct) sel_group_funcs st in
  if decide (length sel_other_funcs ≠ 0)
  then add_object Other sel_other_funcs st blank_name
  else st.

(** *** mark_current_items, start_thread, thread_finished, thread_error *)

(** [self.current_object.name] fails on [None], [self.all_objects[name]]
    on a missing name; the assignment to ['functions'][current_func]
    creates the key when it is missing. *)
Definition mark_current_items (v : Z) (st : state) : state :=
  match current_object st, current_func st with
  | Some o, Some f =>
      match all_objects st !! name o with
      | Some ro =>
          set_all_objects
            (<[name o := RunObject (type ro) (<[f := v]> (functions ro)) v]>
               (all_objects st)) st
      | None => set_crash (Some "KeyError") st
      end
  | _, _ => set_crash (Some "AttributeError") st
  end.

(** [mayavi or matplotlib and show_plots]: such a function runs on the GUI
    thread. *)
Definition blocking (f : string) : bool :=
  mayavi ct f || (matplotlib ct f && show_plots ct).

(** [MEEG(name, ct, fsmri=given)] as far as the scheduler looks at it: the
    FSMRI of the object is the given one when its name is the assigned one,
    a new one of the assigned name otherwise, and one named 'None' when
    nothing is assigned. *)
Definition MEEG_init (n : string) (given : option string) : loaded :=
  match meeg_to_fsmri ct !! n with
  | Some m =>
      match given with
      | Some g => if decide (g = m) then Loaded n MEEG (Some g)
                  else Loaded n MEEG (Some m)
      | None => Loaded n MEEG (Some m)
      end
  | None => Loaded n MEEG (Some "None")
  end.

(** The [if not self.current_object or self.current_object.name != object_name]
    block of [start_thread]. *)
Definition load_object (object_name : string) (ty : obj_type) (st : state) : state :=
  let reload := match current_object st with
                | None => true
                | Some o => bool_decide (name o ≠ object_name)
                end in
  if reload then
    let st := add_html ("<br><h1>" +:+ object_name +:+ "</h1><br>") st in
    match ty with
    | FSMRI =>
        set_loaded_fsmri (Some object_name)
          (set_current_object (Some (Loaded object_name FSMRI None)) st)
    | MEEG =>
        let o :=
          match meeg_to_fsmri ct !! object_name, loaded_fsmri st with
          | Some m, Some l =>
              if decide (l = m) then MEEG_init object_name (Some l)
              else MEEG_init object_name None
          | _, _ => MEEG_init object_name None
          end in
        set_loaded_fsmri (fsmri o) (set_current_object (Some o) st)
    | Group => set_current_object (Some (Loaded object_name Group None)) st
    | Other => set_current_object (Some (Loaded object_name Other None)) st
    end
  else st.

(** [thread_finished], with the call of [self.start_thread()] as [k]. *)
Definition thread_finished_with (k : state → state) (st : state) : state :=
  let st := set_prog_count (S (prog_count st)) st in
  let st := set_pgbar (prog_count st) st in
  mark_current_items 0 st >>> λ st,
  if negb (paused st) then k st
  else
    let st := add_html "<b><big>Paused</big></b><br>" st in
    set_buttons true false true true st.

(** [f'{self.error_count}: {self.current_object.name} <- {self.current_func}'] *)
Definition error_cause (i : nat) (o f : string) : string :=
  pretty i +:+ ": " +:+ o +:+ " <- " +:+ f.

(** [thread_error], with the call of [self.start_thread()] as [k]. *)
Definition thread_error_with (k : state → state) (err : string) (st : state) : state :=
  match current_object st, current_func st with
  | Some o, Some f =>
      let st := set_errors
        (<[error_cause (error_count st) (name o) f := (err, error_count st)]> (errors st)) st in
      let st := add_html ("<a name=" +:+ dq +:+ pretty (error_count st)
                          +:+ dq +:+ " href=" +:+ pretty (error_count st)
                          +:+ "><i>Error No." +:+ pretty (error_count st)
                          +:+ "</i><br></a>") st in
      let st := set_error_count (S (error_count st)) st in
      thread_finished_with k st
  | _, _ => set_crash (Some "AttributeError") st
  end.

(** [start_thread] on the queue [q] of the dialog.  The calls of
    [thread_finished] and [thread_error] after a function that ran on the
    GUI thread call [start_thread] again, on the rest of the queue. *)
Fixpoint run_queue (q : list step) (st : state) : state :=
  let st := set_paused false st in
  let st := set_buttons false true false false st in
  match q with
  | s :: q' =>
      let st := set_current_step (Some s) (set_all_steps q' st) in
      let object_name := s.1 in
      match all_objects st !! object_name with
      | None => set_crash (Some "KeyError") st
      | Some ro =>
          let st := load_object object_name (type ro) st in
          let st := set_current_func (Some s.2) st in
          mark_current_items 2 st >>> λ st,
          let st := add_html ("<h2>" +:+ s.2 +:+ "</h2><br>") st in
          if blocking s.2 then
            let st := add_log (Call s true) st in
            match current_object st with
            | Some o =>
                match func_from_def (prog_count st) s.2 o with
                | Raised e =>
                    thread_error_with (run_queue q') e (add_log (Ret s (Raised e)) st)
                | Returned =>
                    thread_finished_with (run_queue q') (add_log (Ret s Returned) st)
                end
            | None => set_crash (Some "AttributeError") st
            end
          else
            set_pool (pool st ++ [s]) (add_log (Call s false) st)
      end
  | [] =>
      let st := add_html "<b><big>Finished</big></b><br>" st in
      set_buttons false false true true st
  end.

Definition start_thread (st : state) : state := run_queue (all_steps st) st.

Definition thread_finished (st : state) : state :=
  thread_finished_with start_thread st.

Definition thread_error (err : string) (st : state) : state :=
  thread_error_with start_thread err st.

Definition pause_funcs (st : state) : state :=
  add_html "<br><b>Finishing last function...</b><br>" (set_paused true st).

Definition restart (st : state) : state :=
  let st := init_lists (init_attributes st) in
  let st := set_console [] st in
  let st := set_pgbar 0 st in
  start_thread st.

(** The dialog before [__init__] runs: buttons are enabled when created,
    the console and the thread pool are empty. *)
Definition blank : state :=
  State [] ∅ None None None None ∅ 0 0 false true true true true [] 0 [] [] None.

(** [RunDialog.__init__] *)
Definition init : state :=
  start_thread (init_lists (init_attributes blank)).

(** *** The events of the GUI event loop *)

(** A worker of the pool ends and its signal calls the connected slot
    ([finished] on return, [error] on an exception); a click reaches its
    slot only while the button is enabled. *)
Inductive event :=
  | WorkerDone (i : nat) (o : outcome)
  | ClickPause
  | ClickContinue
  | ClickRestart.

Definition handle (e : event) (st : state) : option state :=
  match e with
  | WorkerDone i o =>
      match pool st !! i with
      | Some s =>
          let st := add_log (Ret s o) (set_pool (delete i (pool st)) st) in
          match o with
          | Returned => Some (thread_finished st)
          | Raised err => Some (thread_error err st)
          end
      | None => None
      end
  | ClickPause => if pause_bt st then Some (pause_funcs st) else None
  | ClickContinue => if continue_bt st then Some (start_thread st) else None
  | ClickRestart => if restart_bt st then Some (restart st) else None
  end.

Fixpoint handle_all (es : list event) (st : state) : option state :=
  match es with
  | [] => Some st
  | e :: es' =>
      match handle e st with
      | Some st' => handle_all es' st'
      | None => None
      end
  end.

(** *** The queue and the status table built by init_lists *)

(** The steps of a list of objects and a list of functions: object by
    object, and function by function within an object. *)
Definition steps_of (objs funcs : list string) : list step :=
  flat_map (λ o, map (pair o) funcs) objs.

(** Every entry of the table, and every function of every entry, has
    status 1. *)
Definition all_pending (m : gmap string run_object) : Prop :=
  ∀ o ro, m !! o = Some ro →
    status ro = 1%Z ∧ ∀ f v, functions ro !! f = Some v → v = 1%Z.

(** The two facts about the table that every block of [init_lists] keeps:
    the entries are pending, and every queued step names an entry. *)
Definition table_ok (st : state) : Prop :=
  all_pending (all_objects st) ∧
  ∀ s, s ∈ all_steps st → is_Some (all_objects st !! s.1).

(** No object name is selected under two target classes, and none is the
    blank name of the functions without an object. *)
Definition distinct_names : Prop :=
  (∀ o, o ∈ sel_fsmri ct →
     (o ∉ sel_meeg ct) ∧ (o ∉ sel_groups ct) ∧ o ≠ blank_name) ∧
  (∀ o, o ∈ sel_meeg ct → (o ∉ sel_groups ct) ∧ o ≠ blank_name) ∧
  (∀ o, o ∈ sel_groups ct → o ≠ blank_name).

(** The step has a pending object and a pending function in the table. *)
Definition step_pending (st : state) (s : step) : Prop :=
  ∃ ro, all_objects st !! s.1 = Some ro ∧ status ro = 1%Z ∧
        functions ro !! s.2 = Some 1%Z.

(** *** What holds along a run *)

(** The values the code writes into the status fields. *)
Definition status_ok (v : Z) : Prop := v = 0%Z ∨ v = 1%Z ∨ v = 2%Z.

Definition statuses_ok (m : gmap string run_object) : Prop :=
  ∀ o ro, m !! o = Some ro →
    status_ok (status ro) ∧ ∀ f v, functions ro !! f = Some v → status_ok v.

(** Every queued step names an entry of the table. *)
Definition keys_ok (q : list step) (m : gmap string run_object) : Prop :=
  ∀ s, s ∈ q → is_Some (m !! s.1).

(** Every key of [errors] was built from the index stored under it, and
    that index is below the counter. *)
Definition errors_ok (st : state) : Prop :=
  ∀ k e i, errors st !! k = Some (e, i) →
    (i < error_count st)%nat ∧ ∃ o f, k = error_cause i o f.

(** The steps [func_from_def] was called for, in the order of the calls. *)
Definition calls (l : list io) : list step :=
  omap (λ e, match e with Call s _ => Some s | Ret _ _ => None end) l.

(** A log is sequential when every call ends before the next one starts.
    [sequential_from r l] reads [l] with the call [r] under way and gives
    the call under way at the end, if [l] is sequential. *)
Fixpoint sequential_from (r : option step) (l : list io) : option (option step) :=
  match l with
  | [] => Some r
  | Call s _ :: l' =>
      match r with
      | None => sequential_from (Some s) l'
      | Some _ => None
      end
  | Ret s _ :: l' =>
      match r with
      | Some s' => if decide (s = s') then sequential_from None l' else None
      | None => None
      end
  end.

Definition sequential (l : list io) : Prop := is_Some (sequential_from None l).

(** The queue every start and restart of the dialog begins with. *)
Definition queue0 : list step := all_steps (init_lists (init_attributes blank)).

(** The state while a worker is in the pool for step [s]. *)
Definition running (s : step) (st : state) : Prop :=
  (∃ o, current_object st = Some o ∧ name o = s.1) ∧
  current_func st = Some s.2 ∧
  continue_bt st = false ∧ restart_bt st = false ∧ pause_bt st = true.

(** The state while no worker is in the pool: the run is paused and can be
    continued, or the queue is empty. *)
Definition resting (st : state) : Prop :=
  pause_bt st = false ∧
  if paused st then continue_bt st = true else all_steps st = [].

Record inv (st : state) : Prop := Inv {
  inv_crash : crash st = None;
  inv_keys : keys_ok (all_steps st) (all_objects st);
  inv_current : ∀ o, current_object st = Some o → is_Some (all_objects st !! name o);
  inv_stat : statuses_ok (all_objects st);
  inv_err : errors_ok st;
  inv_log : sequential_from None (log st) = Some (head (pool st));
  inv_pool : (length (pool st) ≤ 1)%nat;
  inv_run : ∀ s, pool st = [s] → running s st;
  inv_rest : pool st = [] → resting st;
  inv_fifo : ∃ pre done,
    calls (log st) = pre ++ done ∧ done ++ all_steps st = queue0 }.

(** What [start_thread] needs of the state it is called in. *)
Record ready (st : state) : Prop := Ready {
  ready_crash : crash st = None;
  ready_pool : pool st = [];
  ready_keys : keys_ok (all_steps st) (all_objects st);
  ready_current : ∀ o, current_object st = Some o → is_Some (all_objects st !! name o);
  ready_stat : statuses_ok (all_objects st);
  ready_err : errors_ok st;
  ready_log : sequential_from None (log st) = Some None;
  ready_fifo : ∃ pre done,
    calls (log st) = pre ++ done ∧ done ++ all_steps st = queue0 }.

(** The states a run passes through: what the events make of the state
    [__init__] leaves. *)
Definition reachable (st : state) : Prop :=
  ∃ es, handle_all es init = Some st.

(** The state of [start_thread] after the step [s] was taken from the
    queue, its object loaded and both marked as running (2). *)
Definition entered (s : step) (q' : list step) (ro : run_object) (st : state) : state :=
  let st := set_buttons false true false false (set_paused false st) in
  let st := set_current_step (Some s) (set_all_steps q' st) in
  let st := set_current_func (Some s.2) (load_object s.1 (type ro) st) in
  let st := set_all_objects
    (<[s.1 := RunObject (type ro) (<[s.2 := 2%Z]> (functions ro)) 2]> (all_objects st)) st in
  add_html ("<h2>" +:+ s.2 +:+ "</h2><br>") st.

(** The state of [thread_finished] after the current object and function
    were marked as finished (0). *)
Definition finished (o : loaded) (f : string) (ro : run_object) (st : state) : state :=
  let st := set_prog_count (S (prog_count st)) st in
  let st := set_pgbar (prog_count st) st in
  set_all_objects
    (<[name o := RunObject (type ro) (<[f := 0%Z]> (functions ro)) 0]> (all_objects st)) st.

(** The state of [thread_error] after the error was recorded. *)
Definition recorded (o : loaded) (f : string) (err : string) (st : state) : state :=
  let st := set_errors
    (<[error_cause (error_count st) (name o) f := (err, error_count st)]> (errors st)) st in
  let st := add_html ("<a name=" +:+ dq +:+ pretty (error_count st)
                      +:+ dq +:+ " href=" +:+ pretty (error_count st)
                      +:+ "><i>Error No." +:+ pretty (error_count st)
                      +:+ "</i><br></a>") st in
  set_error_count (S (error_count st)) st.

(** The status of a function of an object, and of the object, as the
    table has them. *)
Definition func_status (st : state) (o f : string) : option Z :=
  all_objects st !! o ≫= λ ro, functions ro !! f.

Definition object_status (st : state) (o : string) : option Z :=
  status <$> all_objects st !! o.

(** The state in which [thread_finished] rests when a pause was requested. *)
Definition rest (st : state) : state :=
  set_buttons true false true true (add_html "<b><big>Paused</big></b><br>" st).

End Run.

(** *** Two small projects to run the scheduler on *)

(** One FSMRI, two MEEG, no group; of the selected functions [plot_raw]
    is a matplotlib plot and plots are shown. *)
Definition demo_ct : controller :=
  Controller ["prepare_bem"] ["filter_raw"; "plot_raw"; "epoch_raw"]
    ["grand_avg"] ["print_info"]
    (λ _, false) (λ f, bool_decide (f = "plot_raw")) true
    ["filter_raw"; "plot_raw"; "prepare_bem"]
    ["fs1"] ["sub1"; "sub2"] [] (<["sub1" := "fs1"]> ∅).

(** Every function called on the GUI thread raises. *)
Definition demo_run (n : nat) (f : string) (o : loaded) : outcome :=
  Raised "ValueError".

(** A FSMRI and a MEEG of the same name. *)
Definition shared_ct : controller :=
  Controller ["prepare_bem"] ["filter_raw"] [] []
    (λ _, false) (λ _, false) false
    ["filter_raw"; "prepare_bem"]
    ["sub1"] ["sub1"] [] ∅.

End RunDialog.


(** ** Argument resolution: [get_arguments] of function_utils.py *)

Module Args.

(** The exceptions [get_arguments] can end with. *)
Inductive exc :=
  | RuntimeError (msg : string)
  | AttributeError (attr : string)
  | KeyError (key : string).

Inductive result (A : Type) :=
  | Ok (a : A)
  | Raise (e : exc).
Arguments Ok {A} a.
Arguments Raise {A} e.

Section GetArguments.

(** The values of attributes, parameters and settings. *)
Context {V : Type}.

(** What a keyword argument is bound to: the controller of the object, its
    project, the object itself, or a value. *)
Inductive arg :=
  | TheController
  | TheProject
  | TheObject
  | Value (v : V).

(** [obj.pr]: [vars] is [vars(obj.pr)], the attributes of the project by
    name. *)
Record project := Project {
  vars : gmap string V;
  parameters : gmap string (gmap string V);
  p_preset : string;
  add_kwargs : gmap string (gmap string V) }.

Record controller := Controller { settings : gmap string V }.

(** The object a function is called for. The objects of loading.py set
    [pr] but no attribute [ct]; [ct] is [None] for an object without it. *)
Record object := Object {
  ct : option controller;
  pr : project }.

(** A module: the names of the parameters in the signature of each of its
    functions, in their order. *)
Definition py_module := gmap string (list string).

(** [list.remove(x)]: the first occurrence is removed. *)
Fixpoint remove (x : string) (l : list string) : list string :=
  match l with
  | [] => []
  | y :: l' => if decide (y = x) then l' else y :: remove x l'
  end.

(** [QS()]: the keys and values of the QSettings of the application. *)
Variable QS : gmap string V.

Definition not_found (arg_name : string) : exc :=
  RuntimeError (arg_name +:+ " could not be found in Subject, Project or Parameters").

(** The body of the loop over the parameter names: the chain of
    [if]/[elif] for one name. *)
Definition lookup_arg (obj : object) (arg_name : string) : result arg :=
  if decide (arg_name = "ct") then
    match ct obj with Some _ => Ok TheController | None => Raise (AttributeError "ct") end
  else if decide (arg_name = "controller") then
    match ct obj with Some _ => Ok TheController | None => Raise (AttributeError "ct") end
  else if decide (arg_name = "pr") then Ok TheProject
  else if decide (arg_name = "project") then Ok TheProject
  else if decide (arg_name = "meeg") then Ok TheObject
  else if decide (arg_name = "fsmri") then Ok TheObject
  else if decide (arg_name = "group") then Ok TheObject
  else
    match vars (pr obj) !! arg_name with
    | Some v => Ok (Value v)
    | None =>
        match parameters (pr obj) !! p_preset (pr obj) with
        | None => Raise (KeyError (p_preset (pr obj)))
        | Some preset =>
            match preset !! arg_name with
            | Some v => Ok (Value v)
            | None =>
                match ct obj with
                | None => Raise (AttributeError "ct")
                | Some c =>
                    match settings c !! arg_name with
                    | Some v => Ok (Value v)
                    | None =>
                        match QS !! arg_name with
                        | Some v => Ok (Value v)
                        | None => Raise (not_found arg_name)
                        end
                    end
                end
            end
        end
    end.

(** The loop over the parameter names; it ends at the first exception. *)
Fixpoint bind_args (obj : object) (arg_names : list string)
    (keyword_arguments : gmap string arg) : result (gmap string arg) :=
  match arg_names with
  | [] => Ok keyword_arguments
  | arg_name :: rest =>
      match lookup_arg obj arg_name with
      | Ok a => bind_args obj rest (<[arg_name := a]> keyword_arguments)
      | Raise e => Raise e
      end
  end.

(** The names the loop runs over. *)
Definition arg_names_of (params : list string) : list string :=
  let arg_names := params in
  let arg_names := if decide ("args" ∈ arg_names) then remove "args" arg_names
                   else arg_names in
  if decide ("kwargs" ∈ arg_names) then remove "kwargs" arg_names else arg_names.

Definition get_arguments (func_name : string) (module : py_module) (obj : object)
    : result (gmap string arg) :=
  match module !! func_name with
  | None => Raise (AttributeError func_name)
  | Some params =>
      match bind_args obj (arg_names_of params) ∅ with
      | Raise e => Raise e
      | Ok keyword_arguments =>
          match add_kwargs (pr obj) !! func_name with
          | Some extra => Ok ((Value <$> extra) ∪ keyword_arguments)
          | None => Ok keyword_arguments
          end
      end
  end.

(** *** The order of the sources as the specification words it *)

(** The object aliases. *)
Definition spec_aliases : gmap string arg :=
  list_to_map [("ct", TheController); ("controller", TheController);
               ("pr", TheProject); ("project", TheProject);
               ("meeg", TheObject); ("fsmri", TheObject); ("group", TheObject)].

(** The sources in the order of the specification: object aliases, project
    attributes, parameters of the current preset, controller settings,
    QSettings. *)
Definition spec_sources (c : controller) (preset : gmap string V) (obj : object)
    : list (gmap string arg) :=
  [spec_aliases; Value <$> vars (pr obj); Value <$> preset;
   Value <$> settings c; Value <$> QS].

(** The first source that has the name binds it. *)
Fixpoint spec_first (sources : list (gmap string arg)) (arg_name : string)
    : option arg :=
  match sources with
  | [] => None
  | m :: rest =>
      match m !! arg_name with
      | Some a => Some a
      | None => spec_first rest arg_name
      end
  end.

(** The parameter names without 'args' and 'kwargs'. *)
Definition spec_names (params : list string) : list string :=
  filter (λ a, a ≠ "args" ∧ a ≠ "kwargs") params.

End GetArguments.

Arguments arg : clear implicits.
Arguments project : clear implicits.
Arguments controller : clear implicits.
Arguments object : clear implicits.

(** A function [filter_raw(meeg, highpass, lowpass, n_jobs, **kwargs)] and
    an object to call it for. *)
Definition demo_module : py_module :=
  {["filter_raw" := ["meeg"; "highpass"; "lowpass"; "n_jobs"; "kwargs"] ]}.

Definition demo_QS : gmap string string := <["n_jobs" := "-1"]> ∅.

Definition demo_obj : object string :=
  Object (Some (Controller (<["show_plots" := "True"]> ∅)))
    (Project (<["name" := "study"]> ∅)
       (<["Default" := <["highpass" := "1"]> (<["lowpass" := "100"]> ∅)]> ∅)
       "Default"
       (<["filter_raw" := <["lowpass" := "40"]> ∅]> ∅)).

End Args.

(** ** The loading classes of loading.py *)

Module Loading.

Inductive exc :=
  | KeyError (key : string)
  | AttributeError (attr : string)
  | IndexError
  | TypeError
  | RuntimeError (msg : string)
  | FileNotFoundError (path : string)
  | PermissionError (path : string)
  | FileExistsError (path : string).

(** The subclasses of [OSError]. *)
Definition is_OSError (e : exc) : bool :=
  match e with
  | FileNotFoundError _ | PermissionError _ | FileExistsError _ => true
  | _ => false
  end.

Definition is_KeyError (e : exc) : bool :=
  match e with KeyError _ => true | _ => false end.

Definition is_RuntimeError (e : exc) : bool :=
  match e with RuntimeError _ => true | _ => false end.

Definition is_FileNotFoundError (e : exc) : bool :=
  match e with FileNotFoundError _ => true | _ => false end.

Inductive result (A : Type) :=
  | Ok (a : A)
  | Raise (e : exc).
Arguments Ok {A} a.
Arguments Raise {A} e.

(** The values of Python the classes handle. [VData] is an object of the
    MNE library (raw data, epochs, a source space, ...): what was read or
    computed, the channel types it has, and the two fields of its info
    that the classes write. [VDict] keeps the order of insertion; [VObj]
    is an object by its attributes. *)
#[local] Set Warnings "-register-all".
Inductive value :=
  | VNone
  | VBool (b : bool)
  | VInt (z : Z)
  | VStr (s : string)
  | VTime (t : Z)
  | VData (content : string) (ch_types : list string) (bads description : value)
  | VList (l : list value)
  | VDict (d : list (string * value))
  | VObj (d : list (string * value)).

Definition is_none (v : value) : bool :=
  match v with VNone => true | _ => false end.

(** Truth value testing. *)
Definition truthy (v : value) : bool :=
  match v with
  | VNone => false
  | VBool b => b
  | VInt z => negb (z =? 0)%Z
  | VStr s => negb (bool_decide (s = EmptyString))
  | VList l => negb (bool_decide (length l = 0%nat))
  | VDict d => negb (bool_decide (length d = 0%nat))
  | _ => true
  end.

(** [v == s] for a string [s]. *)
Definition str_eq (v : value) (s : string) : bool :=
  match v with VStr s' => bool_decide (s' = s) | _ => false end.

Definition is_False (v : value) : bool :=
  match v with VBool false => true | _ => false end.

(** [d[k]] and [d[k] = v] on a dict. *)
Fixpoint dict_get (k : string) (d : list (string * value)) : option value :=
  match d with
  | [] => None
  | (k', v) :: d' => if String.eqb k' k then Some v else dict_get k d'
  end.

Fixpoint dict_set (k : string) (v : value) (d : list (string * value))
    : list (string * value) :=
  match d with
  | [] => [(k, v)]
  | (k', v') :: d' =>
      if String.eqb k' k then (k, v) :: d' else (k', v') :: dict_set k v d'
  end.

(** *** Paths *)

Definition slash : ascii := ascii_of_nat 47.

(** The double quote, as a string. *)
Definition dq : string := String (ascii_of_nat 34) EmptyString.

Fixpoint last_char (s : string) : option ascii :=
  match s with
  | EmptyString => None
  | String c EmptyString => Some c
  | String _ s' => last_char s'
  end.

(** [os.path.join] of two parts. *)
Definition join2 (a b : string) : string :=
  match b with
  | String c _ =>
      if decide (c = slash) then b
      else match last_char a with
           | None => b
           | Some c' => if decide (c' = slash) then a +:+ b
                        else a +:+ String slash b
           end
  | EmptyString =>
      match last_char a with
      | None => a
      | Some c' => if decide (c' = slash) then a else a +:+ String slash EmptyString
      end
  end.

Definition join (a : string) (parts : list string) : string :=
  foldl join2 a parts.

(** The components of a path between the slashes. *)
Fixpoint components (cur : string) (s : string) : list string :=
  match s with
  | EmptyString => [String.rev cur]
  | String c s' =>
      if decide (c = slash) then String.rev cur :: components EmptyString s'
      else components (String c cur) s'
  end.

(** [Path(path).name]: the last component that is neither empty nor a
    dot, and the empty string if there is none. *)
Definition path_name (path : string) : string :=
  default EmptyString
    (last (filter (λ c, c ≠ EmptyString ∧ c ≠ ".")
             (components EmptyString path))).

(** *** The project, the main window and the world *)

(** The attributes of the project the classes use. *)
#[projections(primitive)]
Record project := Project {
  p_preset : string;
  parameters : gmap string (gmap string value);
  data_path : string;
  erm_data_path : string;
  figures_path : string;
  save_dir_averages : string;
  meeg_to_erm : gmap string string;
  meeg_to_fsmri : gmap string string;
  meeg_bad_channels : gmap string (list string);
  meeg_event_id : gmap string (list (string * Z));
  sel_event_id : gmap string (list string);
  all_groups : gmap string (list string);
  file_parameters : gmap string (gmap string value) }.

(** The object passed as [main_win], by what the classes use of it.
    [qsettings] is [None] for an object without this attribute, as the
    [Controller] of controller.py is. *)
Record main_win := MainWin {
  subjects_dir : string;
  settings : gmap string value;
  default_settings : gmap string value;
  qsettings : option (gmap string value) }.

(** What the methods share and act on: the project and the main window
    (every object holds references to them in [self.pr] and [self.mw]),
    the files, the paths that cannot be written, the directories, the
    clock, and what was read, printed and shown in message boxes. *)
#[projections(primitive)]
Record world := World {
  pr : project;
  mw : main_win;
  fs : gmap string value;
  locked : list string;
  dirs : list string;
  now : Z;
  reads : list string;
  printed : list string;
  boxes : list (string * string) }.

(** The state of a method call: the attributes of [self] in the order they
    were first set, the call stack (the innermost frame first), and the
    world. *)
#[projections(primitive)]
Record state := State {
  self : list (string * value);
  stack : list string;
  wd : world }.

Definition set_self (v : list (string * value)) (st : state) : state :=
  State v (stack st) (wd st).
Definition set_stack (v : list string) (st : state) : state :=
  State (self st) v (wd st).
Definition set_wd (v : world) (st : state) : state :=
  State (self st) (stack st) v.

Definition set_pr (v : project) (w : world) : world :=
  World v (mw w) (fs w) (locked w) (dirs w) (now w) (reads w) (printed w) (boxes w).
Definition set_fs (v : gmap string value) (w : world) : world :=
  World (pr w) (mw w) v (locked w) (dirs w) (now w) (reads w) (printed w) (boxes w).
Definition set_dirs (v : list string) (w : world) : world :=
  World (pr w) (mw w) (fs w) (locked w) v (now w) (reads w) (printed w) (boxes w).
Definition set_reads (v : list string) (w : world) : world :=
  World (pr w) (mw w) (fs w) (locked w) (dirs w) (now w) v (printed w) (boxes w).
Definition set_printed (v : list string) (w : world) : world :=
  World (pr w) (mw w) (fs w) (locked w) (dirs w) (now w) (reads w) v (boxes w).
Definition set_boxes (v : list (string * string)) (w : world) : world :=
  World (pr w) (mw w) (fs w) (locked w) (dirs w) (now w) (reads w) (printed w) v.
Definition set_file_parameters (v : gmap string (gmap string value)) (p : project)
    : project :=
  Project (p_preset p) (parameters p) (data_path p) (erm_data_path p)
    (figures_path p) (save_dir_averages p) (meeg_to_erm p) (meeg_to_fsmri p)
    (meeg_bad_channels p) (meeg_event_id p) (sel_event_id p) (all_groups p) v.

(** *** Method bodies *)

(** A method body runs on a state and returns or raises; what it did to
    the state before it raised stays done. *)
Definition M (A : Type) : Type := state → result A * state.

Definition ret {A} (a : A) : M A := λ st, (Ok a, st).

Definition raise {A} (e : exc) : M A := λ st, (Raise e, st).

Definition bind {A B} (m : M A) (k : A → M B) : M B :=
  λ st, match m st with
        | (Ok a, st') => k a st'
        | (Raise e, st') => (Raise e, st')
        end.

#[export] Instance M_ret : MRet M := @ret.
#[export] Instance M_bind : MBind M := λ A B k m, bind m k.

(** [try: m except <catches> as e: h e] *)
Definition try_except {A} (m : M A) (catches : exc → bool) (h : exc → M A) : M A :=
  λ st, match m st with
        | (Raise e, st') => if catches e then h e st' else (Raise e, st')
        | r => r
        end.

(** [for x in l: body x] *)
Fixpoint for_each {A} (l : list A) (body : A → M unit) : M unit :=
  match l with
  | [] => ret tt
  | x :: l' => body x ;; for_each l' body
  end.

Definition get_world : M world := λ st, (Ok (wd st), st).

Definition modify_world (f : world → world) : M unit :=
  λ st, (Ok tt, set_wd (f (wd st)) st).

(** [self.attr] *)
Definition get_attr (attr : string) : M value :=
  λ st, match dict_get attr (self st) with
        | Some v => (Ok v, st)
        | None => (Raise (AttributeError attr), st)
        end.

(** [self.attr = v] *)
Definition set_attr (attr : string) (v : value) : M unit :=
  λ st, (Ok tt, set_self (dict_set attr v (self st)) st).

(** A method call: its frame is on the stack while its body runs. *)
Definition in_frame {A} (name : string) (body : M A) : M A :=
  λ st, let '(r, st') := body (set_stack (name :: stack st) st) in
        (r, set_stack (stack st) st').

(** The object a constructor builds, as a value: the body runs on a new
    [self]. *)
Definition new_object (init : M unit) : M value :=
  λ st, match init (set_self [] st) with
        | (Ok _, st') => (Ok (VObj (self st')), set_self (self st) st')
        | (Raise e, st') => (Raise e, set_self (self st) st')
        end.

(** The state after a line was printed. *)
Definition say (line : string) (st : state) : state :=
  set_wd (set_printed (printed (wd st) ++ [line]) (wd st)) st.

(** The state after lines were printed, one after the other. *)
Definition says (lines : list string) (st : state) : state :=
  foldl (λ st line, say line st) st lines.

Definition print (line : string) : M unit :=
  modify_world (λ w, set_printed (printed w ++ [line]) w).

(** [QMessageBox.warning(self.mw, title, text)] *)
Definition warning_box (title text : string) : M unit :=
  modify_world (λ w, set_boxes (boxes w ++ [(title, text)]) w).

(** The world after lines were printed and message boxes shown. *)
Definition add_output (lines : list string) (shown : list (string * string))
    (w : world) : world :=
  set_boxes (boxes w ++ shown) (set_printed (printed w ++ lines) w).

(** The world after a warning, if there was one: it is printed, and shown
    in a message box unless message boxes are suppressed. *)
Definition warned (missing suppress_msgbx : bool) (title warning : string)
    (w : world) : world :=
  add_output (if missing then [warning] else [])
    (if missing && negb suppress_msgbx then [(title, warning)] else []) w.

(** [m[k]] on a mapping of the project. *)
Definition lookup_key {A} (m : gmap string A) (k : string) : M A :=
  match m !! k with
  | Some a => ret a
  | None => raise (KeyError k)
  end.

Definition as_str (v : value) : M string :=
  match v with VStr s => ret s | _ => raise TypeError end.

Definition as_list (v : value) : M (list value) :=
  match v with VList l => ret l | _ => raise TypeError end.

Definition as_dict (v : value) : M (list (string * value)) :=
  match v with VDict d => ret d | _ => raise TypeError end.

(** The string a value is formatted to in an f-string, for the values that
    name files. *)
Definition fmt (v : value) : string :=
  match v with
  | VStr s => s
  | VNone => "None"
  | VBool true => "True"
  | VBool false => "False"
  | VInt z => pretty z
  | _ => "<object>"
  end.

(** Reading a file with a function of a library: the file is opened and
    what it holds is returned. *)
Definition read_file (path : string) : M value :=
  modify_world (λ w, set_reads (reads w ++ [path]) w) ;;
  w ← get_world;
  match fs w !! path with
  | Some v => ret v
  | None => raise (FileNotFoundError path)
  end.

(** The state after a file was written. *)
Definition wrote (path : string) (v : value) (st : state) : state :=
  set_wd (set_fs (<[path := v]> (fs (wd st))) (wd st)) st.

(** Writing a file with a function of a library. *)
Definition write_file (path : string) (v : value) : M unit :=
  w ← get_world;
  if bool_decide (path ∈ locked w) then raise (PermissionError path)
  else modify_world (set_fs (<[path := v]> (fs w))).

Definition isfile (path : string) : M bool :=
  w ← get_world; ret (bool_decide (is_Some (fs w !! path))).

(** [Controller.get_setting] of controller.py *)
Definition get_setting (setting : string) : M value :=
  w ← get_world;
  try_except (lookup_key (settings (mw w)) setting) is_KeyError
    (λ _, lookup_key (default_settings (mw w)) setting).

(** The value [get_setting] returns, if it returns. *)
Definition setting_of (m : main_win) (setting : string) : option value :=
  match settings m !! setting with
  | Some v => Some v
  | None => default_settings m !! setting
  end.

(** [self.p[key]]: [self.p] is the dict of the project for the preset of
    the object. *)
Definition self_p (key : string) : M value :=
  preset ← get_attr "p_preset" ≫= as_str;
  w ← get_world;
  p ← lookup_key (parameters (pr w)) preset;
  lookup_key p key.

Definition get_str (attr : string) : M string := get_attr attr ≫= as_str.

(** *** BaseLoading *)

Definition BaseLoading_init (name : string) : M unit :=
  set_attr "name" (VStr name) ;;
  w ← get_world;
  set_attr "p_preset" (VStr (p_preset (pr w))) ;;
  lookup_key (parameters (pr w)) (p_preset (pr w)) ;;
  set_attr "subjects_dir" (VStr (subjects_dir (mw w))) ;;
  v ← get_setting "save_plots"; set_attr "save_plots" v ;;
  set_attr "figures_path" (VStr (figures_path (pr w))) ;;
  v ← get_setting "img_format"; set_attr "img_format" v ;;
  v ← get_setting "dpi"; set_attr "dpi" v ;;
  set_attr "save_dir" VNone ;;
  set_attr "paths_dict" (VDict []) ;;
  set_attr "methods_dict" (VDict []) ;;
  set_attr "existing_paths" (VDict []).

(** *** FSMRI *)

Definition FSMRI_load_attributes : M unit :=
  for_each ["_source_space"; "_bem_model"; "_bem_solution"; "_vol_source_space";
            "_source_morph"; "_labels"]
    (λ attr, set_attr attr VNone).

Definition FSMRI_load_paths : M unit :=
  save_dir ← get_str "save_dir";
  name ← get_str "name";
  spacing ← self_p "source_space_spacing";
  set_attr "source_space_path"
    (VStr (join save_dir ["bem"; name +:+ "_" +:+ fmt spacing +:+ "-src.fif"])) ;;
  set_attr "bem_model_path" (VStr (join save_dir ["bem"; name +:+ "-bem.fif"])) ;;
  set_attr "bem_solution_path" (VStr (join save_dir ["bem"; name +:+ "-bem-sol.fif"])) ;;
  set_attr "vol_source_space_path"
    (VStr (join save_dir ["bem"; name +:+ "-vol-src.fif"])) ;;
  morph_to ← self_p "morph_to";
  spacing ← self_p "source_space_spacing";
  set_attr "source_morph_path"
    (VStr (join save_dir [name +:+ "--to--" +:+ fmt morph_to +:+ "_"
                          +:+ fmt spacing +:+ "-morph.h5"])) ;;
  morph_to ← self_p "morph_to";
  spacing ← self_p "source_space_spacing";
  set_attr "old_source_morph_path"
    (VStr (join save_dir [name +:+ "--to--" +:+ fmt morph_to +:+ "-"
                          +:+ fmt spacing +:+ "-morph.h5"])) ;;
  p1 ← get_attr "source_space_path";
  p2 ← get_attr "bem_model_path";
  p3 ← get_attr "bem_solution_path";
  p4 ← get_attr "vol_source_space_path";
  p5 ← get_attr "source_morph_path";
  set_attr "paths_dict"
    (VDict [("Source-Space", p1); ("BEM-Model", p2); ("BEM-Solution", p3);
            ("Volume-Source-Space", p4); ("Source-Morph", p5)]) ;;
  set_attr "methods_dict"
    (VDict [("load_source_space", VStr "Source-Space");
            ("load_bem_model", VStr "BEM-Model");
            ("load_bem_solution", VStr "BEM-Solution");
            ("load_vol_source_space", VStr "Volume-Source-Space");
            ("load_source_morph", VStr "Source-Morph")]).

Definition FSMRI_init (name : string) : M unit :=
  BaseLoading_init name ;;
  w ← get_world;
  name' ← get_str "name";
  set_attr "save_dir" (VStr (join (subjects_dir (mw w)) [name'])) ;;
  match qsettings (mw w) with
  | None => raise (AttributeError "qsettings")
  | Some qs =>
      set_attr "fs_path" (default VNone (qs !! "fs_path")) ;;
      set_attr "mne_path" (default VNone (qs !! "mne_path")) ;;
      FSMRI_load_attributes ;;
      FSMRI_load_paths
  end.

(** [FSMRI(name, main_win)] *)
Definition FSMRI (name : string) : M value := new_object (FSMRI_init name).

(** The attributes of the object [FSMRI(name, main_win)] returns in a
    world, if it returns. *)
Definition FSMRI_object (name : string) (w : world) : list (string * value) :=
  match FSMRI name (State [] [] w) with
  | (Ok (VObj d), _) => d
  | _ => []
  end.

(** *** MEEG *)

Definition MEEG_load_attributes : M unit :=
  for_each ["_info"; "_raw"; "_raw_filtered"; "_erm_filtered"; "_events";
            "_epochs"; "_reject_log"; "_ica"; "_ica_epochs"; "_evokeds";
            "_power_tfr"; "_itc_tfr"; "_trans"; "_forward"; "_noise_cov";
            "_inverse"; "_stcs"; "_ltc"; "_connectivity"; "_mixn_stcs";
            "_mixn_dips"; "_ecd_dips"]
    (λ attr, set_attr attr VNone).

(** [self.attr = join(self.save_dir, f'{self.name}_{self.p_preset}<suffix>')] *)
Definition set_preset_path (attr suffix : string) : M unit :=
  save_dir ← get_str "save_dir";
  name ← get_str "name";
  preset ← get_attr "p_preset";
  set_attr attr (VStr (join save_dir [name +:+ "_" +:+ fmt preset +:+ suffix])).

(** [{trial: join(self.save_dir, f'{self.name}_{trial}_{self.p_preset}<suffix>')
      for trial in self.sel_trials}] *)
Definition trial_paths (suffix : string) : M value :=
  save_dir ← get_str "save_dir";
  name ← get_str "name";
  preset ← get_attr "p_preset";
  trials ← get_attr "sel_trials" ≫= as_list;
  ret (VDict (foldl (λ d trial,
                 dict_set (fmt trial)
                   (VStr (join save_dir
                            [name +:+ "_" +:+ fmt trial +:+ "_" +:+ fmt preset +:+ suffix]))
                   d) [] trials)).

Definition MEEG_paths_keys : list (string * string) :=
  [("Raw", "raw_path"); ("Raw (Filtered)", "raw_filtered_path");
   ("EmptyRoom", "erm_path"); ("EmptyRoom (Filtered)", "erm_filtered_path");
   ("Events", "events_path"); ("Epochs", "epochs_path");
   ("RejectLog", "reject_log_path"); ("ICA", "ica_path");
   ("Epochs (ICA)", "ica_epochs_path"); ("Evokeds", "evokeds_path");
   ("TF Power", "power_tfr_path"); ("TF ITC", "itc_tfr_path");
   ("Transformation", "trans_path"); ("Forward Solution", "forward_path");
   ("Noise-Covariance (Calm)", "calm_cov_path");
   ("Noise-Covariance (ERM)", "erm_cov_path");
   ("Noise-Covariance", "cov_path"); ("Inverse Operator", "inverse_path");
   ("Source Estimate", "stc_paths");
   ("Source Estimate (Morphed)", "morphed_stc_paths")].

Definition MEEG_methods_dict : list (string * value) :=
  [("load_info", VStr "Raw"); ("load_raw", VStr "Raw");
   ("load_filtered", VStr "Raw (Filtered)"); ("load_erm", VStr "EmptyRoom");
   ("load_erm_filtered", VStr "EmptyRoom (Filtered)");
   ("load_events", VStr "Events"); ("load_epochs", VStr "Epochs");
   ("load_reject_log", VStr "RejectLog"); ("load_ica", VStr "ICA");
   ("load_ica_epohcs", VStr "Epochs (ICA)"); ("load_evokeds", VStr "Evokeds");
   ("load_power_tfr", VStr "TF Power"); ("load_itc_tfr", VStr "TF ITC");
   ("load_transformation", VStr "Transformation");
   ("load_forward", VStr "Forward Solution");
   ("load_noise_covariance", VStr "Noise Covariance");
   ("load_inverse_operator", VStr "Inverse Operator");
   ("load_source_estimates", VStr "Source Estimate");
   ("load_morphed_source_estimates", VStr "Source Estimate (Morphed)")].

(** [self.fsmri.name] *)
Definition fsmri_name : M value :=
  f ← get_attr "fsmri";
  match f with
  | VObj d =>
      match dict_get "name" d with
      | Some n => ret n
      | None => raise (AttributeError "name")
      end
  | _ => raise (AttributeError "name")
  end.

Definition MEEG_load_paths : M unit :=
  save_dir ← get_str "save_dir";
  name ← get_str "name";
  set_attr "raw_path" (VStr (join save_dir [name +:+ "-raw.fif"])) ;;
  set_preset_path "raw_filtered_path" "-filtered-raw.fif" ;;
  w ← get_world;
  erm ← get_attr "erm";
  set_attr "erm_path"
    (VStr (join (erm_data_path (pr w)) [fmt erm; fmt erm +:+ "-raw.fif"])) ;;
  preset ← get_attr "p_preset";
  set_attr "erm_filtered_path"
    (VStr (join (erm_data_path (pr w))
             [fmt erm; fmt erm +:+ "_" +:+ fmt preset +:+ "-raw.fif"])) ;;
  set_preset_path "events_path" "-eve.fif" ;;
  set_preset_path "epochs_path" "-epo.fif" ;;
  set_preset_path "reject_log_path" "-arlog.py" ;;
  set_preset_path "ica_path" "-ica.fif" ;;
  set_preset_path "ica_epochs_path" "-ica-epo.fif" ;;
  set_preset_path "evokeds_path" "-ave.fif" ;;
  tfr_method ← self_p "tfr_method";
  set_preset_path "power_tfr_path" ("_" +:+ fmt tfr_method +:+ "-pw-tfr.h5") ;;
  tfr_method ← self_p "tfr_method";
  set_preset_path "itc_tfr_path" ("_" +:+ fmt tfr_method +:+ "-itc-tfr.h5") ;;
  fname ← fsmri_name;
  set_attr "trans_path" (VStr (join save_dir [fmt fname +:+ "-trans.fif"])) ;;
  set_preset_path "forward_path" "-fwd.fif" ;;
  set_preset_path "calm_cov_path" "-calm-cov.fif" ;;
  set_preset_path "erm_cov_path" "-erm-cov.fif" ;;
  set_preset_path "cov_path" "-cov.fif" ;;
  set_preset_path "inverse_path" "-inv.fif" ;;
  d ← trial_paths EmptyString; set_attr "stc_paths" d ;;
  d ← trial_paths "-morphed"; set_attr "morphed_stc_paths" d ;;
  set_attr "paths_dict" (VDict []) ;;
  for_each MEEG_paths_keys
    (λ kv, p ← get_attr kv.2;
           d ← get_attr "paths_dict" ≫= as_dict;
           set_attr "paths_dict" (VDict (dict_set kv.1 p d))) ;;
  set_attr "methods_dict" (VDict MEEG_methods_dict).

(** The warning of a missing assignment: printed, and shown in a message
    box unless message boxes are suppressed. *)
Definition warn (suppress_msgbx : bool) (title warning : string) : M unit :=
  print warning ;;
  if suppress_msgbx then ret tt else warning_box title warning.

(** The warnings of [MEEG.__init__]. *)
Definition no_erm_warning (name : value) : string :=
  "No Empty-Room-Measurement assigned for " +:+ fmt name
  +:+ ", defaulting to " +:+ dq +:+ "None" +:+ dq.

Definition no_fsmri_warning (name : value) : string :=
  "No MRI-Subject assigned for " +:+ fmt name
  +:+ ", defaulting to " +:+ dq +:+ "None" +:+ dq.

Definition no_bad_channels_warning (name : value) : string :=
  "No bad channels assigned for " +:+ fmt name +:+ ", defaulting to empty list".

Definition no_event_id_warning (name : value) : string :=
  "No EventID assigned for " +:+ fmt name +:+ ", defaulting to empty dictionary".

Definition no_trials_warning (name : value) : string :=
  "No Trials selected for " +:+ fmt name +:+ ", defaulting to empty list".

(** The blocks of [MEEG.__init__] that read the assignments of the
    project, one [try] statement each. *)
Definition assign_erm (name : string) (suppress_msgbx : bool) : M unit :=
  w ← get_world;
  try_except
    (erm ← lookup_key (meeg_to_erm (pr w)) name; set_attr "erm" (VStr erm))
    is_KeyError
    (λ _, set_attr "erm" (VStr "None") ;;
          name' ← get_attr "name";
          warn suppress_msgbx "No ERM" (no_erm_warning name')).

Definition assign_fsmri (name : string) (fsmri : option (list (string * value)))
    (suppress_msgbx : bool) : M unit :=
  w ← get_world;
  try_except
    (match fsmri with
     | Some f =>
         match dict_get "name" f with
         | None => raise (AttributeError "name")
         | Some fname =>
             assigned ← lookup_key (meeg_to_fsmri (pr w)) name;
             if str_eq fname assigned then set_attr "fsmri" (VObj f)
             else
               assigned ← lookup_key (meeg_to_fsmri (pr w)) name;
               f' ← FSMRI assigned; set_attr "fsmri" f'
         end
     | None =>
         assigned ← lookup_key (meeg_to_fsmri (pr w)) name;
         f' ← FSMRI assigned; set_attr "fsmri" f'
     end)
    is_KeyError
    (λ _, f' ← FSMRI "None"; set_attr "fsmri" f' ;;
          name' ← get_attr "name";
          warn suppress_msgbx "No MRI" (no_fsmri_warning name')).

Definition assign_bad_channels (name : string) (suppress_msgbx : bool) : M unit :=
  w ← get_world;
  try_except
    (bads ← lookup_key (meeg_bad_channels (pr w)) name;
     set_attr "bad_channels" (VList (VStr <$> bads)))
    is_KeyError
    (λ _, set_attr "bad_channels" (VList []) ;;
          name' ← get_attr "name";
          warn suppress_msgbx "No Bad Channels" (no_bad_channels_warning name')).

Definition assign_event_id (name : string) (suppress_msgbx : bool) : M unit :=
  w ← get_world;
  try_except
    (event_id ← lookup_key (meeg_event_id (pr w)) name;
     set_attr "event_id" (VDict (prod_map id VInt <$> event_id)) ;;
     event_id ← get_attr "event_id" ≫= as_dict;
     if bool_decide (length event_id = 0%nat) then raise (RuntimeError name)
     else ret tt)
    (λ e, is_KeyError e || is_RuntimeError e)
    (λ _, set_attr "event_id" (VDict []) ;;
          name' ← get_attr "name";
          warn suppress_msgbx "No Event-ID" (no_event_id_warning name')).

Definition assign_sel_trials (name : string) (suppress_msgbx : bool) : M unit :=
  w ← get_world;
  try_except
    (sel_trials ← lookup_key (sel_event_id (pr w)) name;
     set_attr "sel_trials" (VList (VStr <$> sel_trials)) ;;
     sel_trials ← get_attr "sel_trials" ≫= as_list;
     if bool_decide (length sel_trials = 0%nat) then raise (RuntimeError name)
     else ret tt)
    (λ e, is_KeyError e || is_RuntimeError e)
    (λ _, set_attr "sel_trials" (VList []) ;;
          name' ← get_attr "name";
          warn suppress_msgbx "No Trials" (no_trials_warning name')).

(** The object [assign_fsmri] sets [self.fsmri] to: the object passed, if
    it has the name assigned to the MEEG, and a new one if not. *)
Definition assigned_fsmri (name : string) (fsmri : option (list (string * value)))
    (w : world) : list (string * value) :=
  match meeg_to_fsmri (pr w) !! name with
  | Some assigned =>
      match fsmri with
      | Some f =>
          match dict_get "name" f with
          | Some fname => if str_eq fname assigned then f else FSMRI_object assigned w
          | None => FSMRI_object assigned w
          end
      | None => FSMRI_object assigned w
      end
  | None => FSMRI_object "None" w
  end.

(** An assignment is missing, or empty. *)
Definition missing {A} (m : gmap string A) (name : string) : bool :=
  bool_decide (m !! name = None).

Definition missing_or_empty {A} (m : gmap string (list A)) (name : string) : bool :=
  bool_decide (default [] (m !! name) = []).

(** The world after the warnings of [MEEG.__init__]: one for each
    assignment that is missing, in the order of the blocks. *)
Definition MEEG_warned (name : string) (suppress_msgbx : bool) (w : world) : world :=
  warned (missing_or_empty (sel_event_id (pr w)) name) suppress_msgbx
    "No Trials" (no_trials_warning (VStr name))
    (warned (missing_or_empty (meeg_event_id (pr w)) name) suppress_msgbx
       "No Event-ID" (no_event_id_warning (VStr name))
       (warned (missing (meeg_bad_channels (pr w)) name) suppress_msgbx
          "No Bad Channels" (no_bad_channels_warning (VStr name))
          (warned (missing (meeg_to_fsmri (pr w)) name) suppress_msgbx
             "No MRI" (no_fsmri_warning (VStr name))
             (warned (missing (meeg_to_erm (pr w)) name) suppress_msgbx
                "No ERM" (no_erm_warning (VStr name)) w)))).

Definition MEEG_init (name : string) (fsmri : option (list (string * value)))
    (suppress_msgbx : bool) : M unit :=
  BaseLoading_init name ;;
  w ← get_world;
  set_attr "save_dir" (VStr (join (data_path (pr w)) [name])) ;;
  assign_erm name suppress_msgbx ;;
  assign_fsmri name fsmri suppress_msgbx ;;
  assign_bad_channels name suppress_msgbx ;;
  assign_event_id name suppress_msgbx ;;
  assign_sel_trials name suppress_msgbx ;;
  MEEG_load_attributes ;;
  MEEG_load_paths.

(** [MEEG(name, main_win, fsmri, suppress_msgbx)] *)
Definition MEEG (name : string) (fsmri : option (list (string * value)))
    (suppress_msgbx : bool) : M value :=
  new_object (MEEG_init name fsmri suppress_msgbx).

(** *** Load methods *)

(** [if self.attr is None: body] *)
Definition guarded (attr : string) (body : M unit) : M unit :=
  v ← get_attr attr;
  if is_none v then body else ret tt.

(** [if self.attr is None: self.attr = read] *)
Definition cached (attr : string) (read : M value) : M unit :=
  guarded attr (x ← read; set_attr attr x).

(** [if self.attr is None: self.attr = dict(); body] *)
Definition cached_dict (attr : string) (body : M unit) : M unit :=
  guarded attr (set_attr attr (VDict []) ;; body).

(** [self.attr[key] = v] *)
Definition set_item (attr key : string) (v : value) : M unit :=
  d ← get_attr attr ≫= as_dict;
  set_attr attr (VDict (dict_set key v d)).

(** [self.attr[key1][key2] = v] *)
Definition set_item2 (attr key1 key2 : string) (v : value) : M unit :=
  d ← get_attr attr ≫= as_dict;
  match dict_get key1 d with
  | None => raise (KeyError key1)
  | Some inner =>
      d2 ← as_dict inner;
      set_attr attr (VDict (dict_set key1 (VDict (dict_set key2 v d2)) d))
  end.

(** The strings among the items of a list. *)
Definition strings_of (l : list value) : list string :=
  omap (λ v, match v with VStr s => Some s | _ => None end) l.

(** What a [for] loop runs over. *)
Definition iterate (v : value) : M (list value) :=
  match v with
  | VList l => ret l
  | VDict d => ret (VStr <$> d.*1)
  | _ => raise TypeError
  end.

(** The text of a list of strings in an f-string. *)
Definition repr_list (l : list string) : string :=
  "[" +:+ String.concat ", " ((λ s, "'" +:+ s +:+ "'") <$> l) +:+ "]".

(** The selected channel types that the data has, and the channel types
    of the data that are picked with them. *)
Definition present_types (sel_ch_types existing_ch_types : list string)
    : list string :=
  filter (λ ct, ct ∈ existing_ch_types) sel_ch_types.

Definition picked_types (sel_ch_types existing_ch_types : list string)
    : list string :=
  filter (λ ct, ct ∈ sel_ch_types) existing_ch_types.

Definition pick_types_helper (data : value) : M value :=
  sel_ch_types ← self_p "ch_types" ≫= as_list;
  match data with
  | VData content existing_ch_types bads description =>
      let sel_ch_types := present_types (strings_of sel_ch_types) existing_ch_types in
      let data :=
        VData content (picked_types sel_ch_types existing_ch_types) bads description in
      print ("Picked Types: " +:+ repr_list sel_ch_types) ;;
      ret data
  | _ => raise (AttributeError "get_channel_types")
  end.

Definition _update_raw_info : M unit :=
  bad_channels ← get_attr "bad_channels";
  raw ← get_attr "_raw";
  match raw with
  | VData content types _ description =>
      set_attr "_raw" (VData content types bad_channels description) ;;
      name ← get_attr "name";
      raw ← get_attr "_raw";
      match raw with
      | VData content types bads _ => set_attr "_raw" (VData content types bads name)
      | _ => raise (AttributeError "info")
      end
  | _ => raise (AttributeError "info")
  end.

(** Reading the file whose path is the attribute [path_attr]. *)
Definition read_at (path_attr : string) : M value :=
  get_str path_attr ≫= read_file.

Definition load_info : M value :=
  cached "_info" (read_at "raw_path") ;;
  get_attr "_info".

Definition load_raw : M value :=
  cached "_raw" (read_at "raw_path") ;;
  raw ← get_attr "_raw";
  raw ← pick_types_helper raw;
  set_attr "_raw" raw ;;
  _update_raw_info ;;
  get_attr "_raw".

Definition load_filtered : M value :=
  cached "_raw_filtered" (read_at "raw_filtered_path") ;;
  raw ← get_attr "_raw_filtered";
  raw ← pick_types_helper raw;
  set_attr "_raw_filtered" raw ;;
  _update_raw_info ;;
  get_attr "_raw_filtered".

Definition load_erm : M value :=
  erm ← read_at "erm_path";
  pick_types_helper erm.

Definition load_erm_filtered : M value :=
  cached "_erm_filtered" (read_at "erm_filtered_path") ;;
  get_attr "_erm_filtered".

Definition load_events : M value :=
  cached "_events" (read_at "events_path") ;;
  get_attr "_events".

Definition load_epochs : M value :=
  cached "_epochs" (read_at "epochs_path") ;;
  epochs ← get_attr "_epochs";
  epochs ← pick_types_helper epochs;
  set_attr "_epochs" epochs ;;
  get_attr "_epochs".

Definition load_reject_log : M value :=
  cached "_reject_log" (read_at "reject_log_path") ;;
  get_attr "_reject_log".

Definition load_ica : M value :=
  cached "_ica" (read_at "ica_path") ;;
  get_attr "_ica".

Definition load_ica_epochs : M value :=
  cached "_ica_epochs" (read_at "ica_epochs_path") ;;
  get_attr "_ica_epochs".

(** [for idx, evoked in enumerate(self._evokeds):
       self._evokeds[idx] = self.pick_types_helper(evoked)] *)
Fixpoint pick_each (done todo : list value) : M unit :=
  match todo with
  | [] => ret tt
  | evoked :: todo' =>
      picked ← pick_types_helper evoked;
      set_attr "_evokeds" (VList (done ++ picked :: todo')) ;;
      pick_each (done ++ [picked]) todo'
  end.

Definition load_evokeds : M value :=
  cached "_evokeds" (read_at "evokeds_path") ;;
  evokeds ← get_attr "_evokeds" ≫= iterate;
  pick_each [] evokeds ;;
  get_attr "_evokeds".

Definition load_power_tfr : M value :=
  cached "_power_tfr" (read_at "power_tfr_path") ;;
  get_attr "_power_tfr".

Definition load_itc_tfr : M value :=
  cached "_itc_tfr" (read_at "itc_tfr_path") ;;
  get_attr "_itc_tfr".

Definition load_transformation : M value :=
  cached "_trans" (read_at "trans_path") ;;
  get_attr "_trans".

Definition load_forward : M value :=
  cached "_forward" (read_at "forward_path") ;;
  get_attr "_forward".

Definition load_noise_covariance : M value :=
  guarded "_noise_cov"
    (calm ← self_p "calm_noise_cov";
     if truthy calm then
       cov ← read_at "calm_cov_path";
       set_attr "_noise_cov" cov ;;
       print "Reading Noise-Covariance from 1-min Calm in raw"
     else
       erm ← get_attr "erm";
       from_epochs ← (if str_eq erm "None" then ret true
                      else v ← self_p "erm_noise_cov"; ret (is_False v));
       if from_epochs : bool then
         cov ← read_at "cov_path";
         set_attr "_noise_cov" cov ;;
         print "Reading Noise-Covariance from Epochs"
       else
         cov ← read_at "erm_cov_path";
         set_attr "_noise_cov" cov ;;
         print "Reading Noise-Covariance from Empty-Room-Data") ;;
  get_attr "_noise_cov".

Definition load_inverse_operator : M value :=
  cached "_inverse" (read_at "inverse_path") ;;
  get_attr "_inverse".

(** [for trial in self.<paths_attr>:
       self.<attr>[trial] = read(self.<paths_attr>[trial])] *)
Definition read_trials (attr paths_attr : string) : M unit :=
  paths ← get_attr paths_attr ≫= as_dict;
  for_each paths (λ kv,
    path ← as_str kv.2;
    stc ← read_file path;
    set_item attr kv.1 stc).

Definition load_source_estimates : M value :=
  cached_dict "_stcs" (read_trials "_stcs" "stc_paths") ;;
  get_attr "_stcs".

(** The method has no [return]. *)
Definition load_morphed_source_estimates : M value :=
  cached_dict "_morphed_stcs" (read_trials "_morphed_stcs" "morphed_stc_paths") ;;
  ret VNone.

(** [os.path.dirname] *)
Fixpoint dirname_go (s : string) : option string :=
  match s with
  | EmptyString => None
  | String c s' =>
      match dirname_go s' with
      | Some d => Some (String c d)
      | None => if decide (c = slash) then Some EmptyString else None
      end
  end.

Definition dirname (path : string) : string := default EmptyString (dirname_go path).

(** [listdir]: the names of the files and directories in a directory. *)
Definition listdir (dir : string) : M (list string) :=
  w ← get_world;
  if bool_decide (dir ∈ dirs w) then
    ret (path_name <$>
           filter (λ p, dirname p = dir) ((map_to_list (fs w)).*1 ++ dirs w))
  else raise (FileNotFoundError dir).

(** The trials the loops of the methods run over: [self.sel_trials]. *)
Definition sel_trials : M (list value) := get_attr "sel_trials" ≫= iterate.

Definition load_mixn_dipoles : M value :=
  cached_dict "_mixn_dips"
    (trials ← sel_trials;
     for_each trials (λ trial,
       save_dir ← get_str "save_dir";
       entries ← listdir (join save_dir ["mixn_dipoles"]);
       dip_list ← foldl (λ (acc : M (list value)) (idx : nat),
                     dip_list ← acc;
                     save_dir ← get_str "save_dir";
                     name ← get_attr "name";
                     preset ← get_attr "p_preset";
                     dip ← read_file
                       (join save_dir
                          ["mixn_dipoles";
                           fmt name +:+ "_" +:+ fmt trial +:+ "_" +:+ fmt preset
                           +:+ "-mixn-dip" +:+ pretty idx +:+ ".dip"]);
                     ret (dip_list ++ [dip]))
                   (ret []) (seq 0 (length entries));
       set_item "_mixn_dips" (fmt trial) (VList dip_list) ;;
       name ← get_attr "name";
       print (pretty (length entries + 1)%nat +:+ " dipoles read for "
              +:+ fmt name +:+ "-" +:+ fmt trial))) ;;
  get_attr "_mixn_dips".

(** [join(self.save_dir, <folder>..., f'{self.name}_{trial}_{self.p_preset}<suffix>')] *)
Definition trial_path (dir_attr : string) (folder : list string) (trial : value)
    (suffix : string) : M string :=
  save_dir ← get_str dir_attr;
  name ← get_attr "name";
  preset ← get_attr "p_preset";
  ret (join save_dir
         (folder ++ [fmt name +:+ "_" +:+ fmt trial +:+ "_" +:+ fmt preset +:+ suffix])).

Definition load_mixn_source_estimates : M value :=
  cached_dict "_mixn_stcs"
    (trials ← sel_trials;
     for_each trials (λ trial,
       mx_stc_path ← trial_path "save_dir" [] trial "-mixn";
       mx_stc ← read_file mx_stc_path;
       set_item "_mixn_stcs" (fmt trial) mx_stc)) ;;
  get_attr "_mixn_stcs".

Definition load_ecd : M value :=
  cached_dict "_ecd_dips"
    (trials ← sel_trials;
     for_each trials (λ trial,
       set_item "_ecd_dips" (fmt trial) (VDict []) ;;
       ecd_times ← self_p "ecd_times" ≫= as_dict;
       name ← get_str "name";
       dips ← match dict_get name ecd_times with
              | Some v => iterate v
              | None => raise (KeyError name)
              end;
       for_each dips (λ dip,
         ecd_dip_path ← trial_path "save_dir" ["ecd_dipoles"] trial
                          ("_" +:+ fmt dip +:+ "-ecd-dip.dip");
         d ← read_file ecd_dip_path;
         set_item2 "_ecd_dips" (fmt trial) (fmt dip) d))) ;;
  get_attr "_ecd_dips".

Definition load_ltc : M value :=
  cached_dict "_ltc"
    (trials ← sel_trials;
     for_each trials (λ trial,
       set_item "_ltc" (fmt trial) (VDict []) ;;
       labels ← self_p "target_labels" ≫= iterate;
       for_each labels (λ label,
         ltc_path ← trial_path "save_dir" ["label_time_course"] trial
                      ("_" +:+ fmt label +:+ ".npy");
         d ← read_file ltc_path;
         set_item2 "_ltc" (fmt trial) (fmt label) d))) ;;
  get_attr "_ltc".

Definition load_connectivity : M value :=
  cached_dict "_connectivity"
    (trials ← sel_trials;
     for_each trials (λ trial,
       set_item "_connectivity" (fmt trial) (VDict []) ;;
       con_methods ← self_p "con_methods" ≫= iterate;
       for_each con_methods (λ con_method,
         try_except
           (con_path ← trial_path "save_dir" [] trial
                         ("_" +:+ fmt con_method +:+ ".npy");
            d ← read_file con_path;
            set_item2 "_connectivity" (fmt trial) (fmt con_method) d)
           is_FileNotFoundError (λ _, ret tt)))) ;;
  get_attr "_connectivity".

(** FSMRI *)

Definition load_source_space : M value :=
  cached "_source_space" (read_at "source_space_path") ;;
  get_attr "_source_space".

Definition load_bem_model : M value :=
  cached "_bem_model" (read_at "bem_model_path") ;;
  get_attr "_bem_model".

Definition load_bem_solution : M value :=
  cached "_bem_solution" (read_at "bem_solution_path") ;;
  get_attr "_bem_solution".

Definition load_vol_source_space : M value :=
  cached "_vol_source_space" (read_at "vol_source_space_path") ;;
  get_attr "_vol_source_space".

Definition load_source_morph : M value :=
  cached "_source_morph"
    (try_except (read_at "source_morph_path") is_OSError
       (λ _, read_at "old_source_morph_path")) ;;
  get_attr "_source_morph".

(** [mne.read_labels_from_annot] reads the annotation of the parcellation
    for both hemispheres from the label folder of the subject. *)
Definition load_parc_labels : M value :=
  cached "_labels"
    (name ← get_attr "name";
     parc ← self_p "parcellation";
     subjects_dir ← get_str "subjects_dir";
     lh ← read_file (join subjects_dir [fmt name; "label"; "lh." +:+ fmt parc +:+ ".annot"]);
     rh ← read_file (join subjects_dir [fmt name; "label"; "rh." +:+ fmt parc +:+ ".annot"]);
     ret (VList [lh; rh])) ;;
  get_attr "_labels".

(** Group *)

Definition load_ga_evokeds : M value :=
  cached "_ga_evokeds" (read_at "ga_evokeds_path") ;;
  get_attr "_ga_evokeds".

Definition load_ga_tfr : M value :=
  cached_dict "_ga_tfr"
    (trials ← sel_trials;
     for_each trials (λ trial,
       tfr_method ← self_p "tfr_method";
       ga_path ← trial_path "ga_tfr_folder" [] trial
                   ("_" +:+ fmt tfr_method +:+ "-tfr.h5");
       tfrs ← read_file ga_path ≫= as_list;
       match tfrs with
       | power :: _ => set_item "_ga_tfr" (fmt trial) power
       | [] => raise IndexError
       end)) ;;
  get_attr "_ga_tfr".

Definition load_ga_source_estimate : M value :=
  cached_dict "_ga_stcs"
    (trials ← sel_trials;
     for_each trials (λ trial,
       ga_stc_path ← trial_path "ga_stc_folder" [] trial EmptyString;
       stc ← read_file ga_stc_path;
       set_item "_ga_stcs" (fmt trial) stc)) ;;
  get_attr "_ga_stcs".

Definition load_ga_ltc : M value :=
  cached_dict "_ga_ltc"
    (trials ← sel_trials;
     for_each trials (λ trial,
       set_item "_ga_ltc" (fmt trial) (VDict []) ;;
       labels ← self_p "target_labels" ≫= iterate;
       for_each labels (λ label,
         ga_ltc_path ← trial_path "ga_ltc_folder" [] trial
                         ("_" +:+ fmt label +:+ ".npy");
         try_except
           (d ← read_file ga_ltc_path;
            set_item2 "_ga_ltc" (fmt trial) (fmt label) d)
           is_FileNotFoundError
           (λ _, print (ga_ltc_path +:+ " not found"))))) ;;
  get_attr "_ga_ltc".

Definition load_ga_connect : M value :=
  cached_dict "_ga_connect"
    (trials ← sel_trials;
     for_each trials (λ trial,
       set_item "_ga_connect" (fmt trial) (VDict []) ;;
       con_methods ← self_p "con_methods" ≫= iterate;
       for_each con_methods (λ con_method,
         con_path ← trial_path "ga_con_folder" [] trial
                      ("_" +:+ fmt con_method +:+ ".npy");
         try_except
           (d ← read_file con_path;
            set_item2 "_ga_connect" (fmt trial) (fmt con_method) d)
           is_FileNotFoundError
           (λ _, print (con_path +:+ " not found"))))) ;;
  get_attr "_ga_connect".

(** *** The load methods of the three classes, by name *)

Inductive load_method :=
  | Load_info
  | Load_raw
  | Load_filtered
  | Load_erm
  | Load_erm_filtered
  | Load_events
  | Load_epochs
  | Load_reject_log
  | Load_ica
  | Load_ica_epochs
  | Load_evokeds
  | Load_power_tfr
  | Load_itc_tfr
  | Load_transformation
  | Load_forward
  | Load_noise_covariance
  | Load_inverse_operator
  | Load_source_estimates
  | Load_morphed_source_estimates
  | Load_mixn_dipoles
  | Load_mixn_source_estimates
  | Load_ecd
  | Load_ltc
  | Load_connectivity
  | Load_source_space
  | Load_bem_model
  | Load_bem_solution
  | Load_vol_source_space
  | Load_source_morph
  | Load_parc_labels
  | Load_ga_evokeds
  | Load_ga_tfr
  | Load_ga_source_estimate
  | Load_ga_ltc
  | Load_ga_connect.

Definition call (m : load_method) : M value :=
  match m with
  | Load_info => load_info
  | Load_raw => load_raw
  | Load_filtered => load_filtered
  | Load_erm => load_erm
  | Load_erm_filtered => load_erm_filtered
  | Load_events => load_events
  | Load_epochs => load_epochs
  | Load_reject_log => load_reject_log
  | Load_ica => load_ica
  | Load_ica_epochs => load_ica_epochs
  | Load_evokeds => load_evokeds
  | Load_power_tfr => load_power_tfr
  | Load_itc_tfr => load_itc_tfr
  | Load_transformation => load_transformation
  | Load_forward => load_forward
  | Load_noise_covariance => load_noise_covariance
  | Load_inverse_operator => load_inverse_operator
  | Load_source_estimates => load_source_estimates
  | Load_morphed_source_estimates => load_morphed_source_estimates
  | Load_mixn_dipoles => load_mixn_dipoles
  | Load_mixn_source_estimates => load_mixn_source_estimates
  | Load_ecd => load_ecd
  | Load_ltc => load_ltc
  | Load_connectivity => load_connectivity
  | Load_source_space => load_source_space
  | Load_bem_model => load_bem_model
  | Load_bem_solution => load_bem_solution
  | Load_vol_source_space => load_vol_source_space
  | Load_source_morph => load_source_morph
  | Load_parc_labels => load_parc_labels
  | Load_ga_evokeds => load_ga_evokeds
  | Load_ga_tfr => load_ga_tfr
  | Load_ga_source_estimate => load_ga_source_estimate
  | Load_ga_ltc => load_ga_ltc
  | Load_ga_connect => load_ga_connect
  end.

(** The state after [n] more calls of a method. *)
Fixpoint again {A} (n : nat) (m : M A) (st : state) : state :=
  match n with
  | O => st
  | S n => again n m (m st).2
  end.

(** *** Save methods *)

Section Saving.

(** The size of the file a library writes for a value. *)
Variable size_of : value → Z.

(** [getsize] *)
Definition getsize (path : string) : M Z :=
  w ← get_world;
  match fs w !! path with
  | Some v => ret (size_of v)
  | None => raise (FileNotFoundError path)
  end.

(** [self.pr.file_parameters[file_name] = dict()] *)
Definition new_file_parameters (file_name : string) : M unit :=
  modify_world (λ w,
    set_pr (set_file_parameters (<[file_name := ∅]> (file_parameters (pr w))) (pr w)) w).

(** [self.pr.file_parameters[file_name][key] = v] *)
Definition set_file_parameter (file_name key : string) (v : value) : M unit :=
  w ← get_world;
  entry ← lookup_key (file_parameters (pr w)) file_name;
  modify_world
    (set_pr (set_file_parameters
               (<[file_name := <[key := v]> entry]> (file_parameters (pr w))) (pr w))).

(** The state with other file parameters in the project. *)
Definition with_file_parameters (fps : gmap string (gmap string value))
    (st : state) : state :=
  set_wd (set_pr (set_file_parameters fps (pr (wd st))) (wd st)) st.

(** The five entries [save_file_params] writes before the parameters. *)
Definition file_metadata (function : string) (name : value) (path : string)
    (time size : Z) : gmap string value :=
  <["SIZE" := VInt size]> (<["TIME" := VTime time]> (<["PATH" := VStr path]>
    (<["NAME" := name]> (<["FUNCTION" := VStr function]> ∅)))).

(** The entry [save_file_params] leaves for a file: every parameter of the
    preset, and the five fields where no parameter has their name. *)
Definition entry_of (function : string) (name : value) (path : string)
    (time : Z) (content : value) (p entry : gmap string value) : Prop :=
  ∀ k, entry !! k
       = match p !! k with
         | Some v => Some v
         | None => file_metadata function name path time (size_of content) !! k
         end.

(** [inspect.stack()[2][3]]: the name of the function two frames above
    the current one. *)
Definition caller_of_caller : M string :=
  λ st, match stack st !! 2%nat with
        | Some f => (Ok f, st)
        | None => (Raise IndexError, st)
        end.

Definition save_file_params (path : string) : M unit :=
  in_frame "save_file_params"
    (let file_name := path_name path in
     new_file_parameters file_name ;;
     f ← caller_of_caller;
     set_file_parameter file_name "FUNCTION" (VStr f) ;;
     name ← get_attr "name";
     set_file_parameter file_name "NAME" name ;;
     set_file_parameter file_name "PATH" (VStr path) ;;
     w ← get_world;
     set_file_parameter file_name "TIME" (VTime (now w)) ;;
     size ← getsize path;
     set_file_parameter file_name "SIZE" (VInt size) ;;
     preset ← get_str "p_preset";
     w ← get_world;
     p ← lookup_key (parameters (pr w)) preset;
     for_each (map_to_list p).*1 (λ p_name,
       preset ← get_str "p_preset";
       w ← get_world;
       p ← lookup_key (parameters (pr w)) preset;
       v ← lookup_key p p_name;
       set_file_parameter file_name p_name v)).

(** [obj.save(self.<path_attr>); self.save_file_params(self.<path_attr>)] *)
Definition write_and_record (path_attr : string) (obj : value) : M unit :=
  path ← get_str path_attr;
  write_file path obj ;;
  path ← get_str path_attr;
  save_file_params path.

(** [self.<attr> = obj; obj.save(self.<path_attr>);
     self.save_file_params(self.<path_attr>)] *)
Definition save_to (attr path_attr : string) (obj : value) : M unit :=
  set_attr attr obj ;;
  write_and_record path_attr obj.

(** The raw object is the one [self._raw] refers to: it is saved with the
    info [_update_raw_info] has written. *)
Definition save_raw (raw : value) : M unit :=
  in_frame "save_raw"
    (set_attr "_raw" raw ;;
     _update_raw_info ;;
     raw ← get_attr "_raw";
     write_and_record "raw_path" raw).

Definition save_filtered (raw_filtered : value) : M unit :=
  in_frame "save_filtered"
    (set_attr "_raw_filtered" raw_filtered ;;
     _update_raw_info ;;
     save_storage ← get_setting "save_storage";
     if truthy save_storage then ret tt
     else
       write_and_record "raw_filtered_path" raw_filtered).

Definition save_erm_filtered (erm_filtered : value) : M unit :=
  in_frame "save_erm_filtered"
    (set_attr "_erm_filtered" erm_filtered ;;
     save_storage ← get_setting "save_storage";
     if truthy save_storage then ret tt
     else
       obj ← get_attr "_erm_filtered";
       write_and_record "erm_filtered_path" obj).

Definition save_events (events : value) : M unit :=
  in_frame "save_events" (save_to "_events" "events_path" events).

Definition save_epochs (epochs : value) : M unit :=
  in_frame "save_epochs" (save_to "_epochs" "epochs_path" epochs).

Definition save_reject_log (reject_log : value) : M unit :=
  in_frame "save_reject_log" (save_to "_reject_log" "reject_log_path" reject_log).

Definition save_ica (ica : value) : M unit :=
  in_frame "save_ica" (save_to "_ica" "ica_path" ica).

Definition save_ica_epochs (ica_epochs : value) : M unit :=
  in_frame "save_ica_epochs" (save_to "_ica_epochs" "ica_epochs_path" ica_epochs).

Definition save_evokeds (evokeds : value) : M unit :=
  in_frame "save_evokeds" (save_to "_evokeds" "evokeds_path" evokeds).

Definition save_power_tfr (powers : value) : M unit :=
  in_frame "save_power_tfr" (save_to "_power_tfr" "power_tfr_path" powers).

Definition save_itc_tfr (itcs : value) : M unit :=
  in_frame "save_itc_tfr" (save_to "_itc_tfr" "itc_tfr_path" itcs).

Definition save_forward (forward : value) : M unit :=
  in_frame "save_forward" (save_to "_forward" "forward_path" forward).

Definition save_noise_covariance (noise_cov : value) (cov_type : string) : M unit :=
  in_frame "save_noise_covariance"
    (set_attr "_noise_cov" noise_cov ;;
     if decide (cov_type = "calm") then write_and_record "calm_cov_path" noise_cov
     else if decide (cov_type = "epochs") then write_and_record "cov_path" noise_cov
     else if decide (cov_type = "erm") then write_and_record "erm_cov_path" noise_cov
     else ret tt).

Definition save_inverse_operator (inverse : value) : M unit :=
  in_frame "save_inverse_operator" (save_to "_inverse" "inverse_path" inverse).

(** [for trial in stcs:
       try: stcs[trial].save(self.<paths_attr>[trial])
            self.save_file_params(self.<paths_attr>[trial])
       except KeyError: raise RuntimeError(...)] *)
Definition save_trials (attr paths_attr what : string) (stcs : value) : M unit :=
  set_attr attr stcs ;;
  stcs ← as_dict stcs;
  for_each stcs (λ kv,
    try_except
      (paths ← get_attr paths_attr ≫= as_dict;
       path ← match dict_get kv.1 paths with
              | Some p => as_str p
              | None => raise (KeyError kv.1)
              end;
       write_file path kv.2 ;;
       paths ← get_attr paths_attr ≫= as_dict;
       path ← match dict_get kv.1 paths with
              | Some p => as_str p
              | None => raise (KeyError kv.1)
              end;
       save_file_params path)
      is_KeyError
      (λ _, paths ← get_attr paths_attr ≫= as_dict;
            raise (RuntimeError ("Selected Trials" +:+ repr_list paths.*1
                                 +:+ " don't seem to match " +:+ kv.1
                                 +:+ "in saved " +:+ what)))).

Definition save_source_estimates (stcs : value) : M unit :=
  in_frame "save_source_estimates"
    (save_trials "_stcs" "stc_paths" "source-estimate" stcs).

Definition save_morphed_source_estimates (morphed_stcs : value) : M unit :=
  in_frame "save_morphed_source_estimates"
    (save_trials "_morphed_stcs" "morphed_stc_paths" "morphed source-estimate"
       morphed_stcs).

(** FSMRI *)

Definition save_source_space (src : value) : M unit :=
  in_frame "save_source_space" (save_to "_source_space" "source_space_path" src).

Definition save_bem_model (bem_model : value) : M unit :=
  in_frame "save_bem_model" (save_to "_bem_model" "bem_model_path" bem_model).

Definition save_bem_solution (bem_solution : value) : M unit :=
  in_frame "save_bem_solution"
    (save_to "_bem_solution" "bem_solution_path" bem_solution).

Definition save_vol_source_space (vol_source_space : value) : M unit :=
  in_frame "save_vol_source_space"
    (save_to "_vol_source_space" "vol_source_space_path" vol_source_space).

Definition save_source_morph (source_morph : value) : M unit :=
  in_frame "save_source_morph"
    (save_to "_source_morph" "source_morph_path" source_morph).

(** Group *)

Definition save_ga_evokeds (ga_evokeds : value) : M unit :=
  in_frame "save_ga_evokeds" (save_to "_ga_evokeds" "ga_evokeds_path" ga_evokeds).

(** *** The save methods that write one file, by name *)

Inductive save_method :=
  | Save_raw
  | Save_events
  | Save_epochs
  | Save_reject_log
  | Save_ica
  | Save_ica_epochs
  | Save_evokeds
  | Save_power_tfr
  | Save_itc_tfr
  | Save_forward
  | Save_inverse_operator
  | Save_source_space
  | Save_bem_model
  | Save_bem_solution
  | Save_vol_source_space
  | Save_source_morph
  | Save_ga_evokeds.

Definition save (m : save_method) : value → M unit :=
  match m with
  | Save_raw => save_raw
  | Save_events => save_events
  | Save_epochs => save_epochs
  | Save_reject_log => save_reject_log
  | Save_ica => save_ica
  | Save_ica_epochs => save_ica_epochs
  | Save_evokeds => save_evokeds
  | Save_power_tfr => save_power_tfr
  | Save_itc_tfr => save_itc_tfr
  | Save_forward => save_forward
  | Save_inverse_operator => save_inverse_operator
  | Save_source_space => save_source_space
  | Save_bem_model => save_bem_model
  | Save_bem_solution => save_bem_solution
  | Save_vol_source_space => save_vol_source_space
  | Save_source_morph => save_source_morph
  | Save_ga_evokeds => save_ga_evokeds
  end.

(** The attribute with the path the method writes to and passes to
    [save_file_params]. *)
Definition path_attr (m : save_method) : string :=
  match m with
  | Save_raw => "raw_path"
  | Save_events => "events_path"
  | Save_epochs => "epochs_path"
  | Save_reject_log => "reject_log_path"
  | Save_ica => "ica_path"
  | Save_ica_epochs => "ica_epochs_path"
  | Save_evokeds => "evokeds_path"
  | Save_power_tfr => "power_tfr_path"
  | Save_itc_tfr => "itc_tfr_path"
  | Save_forward => "forward_path"
  | Save_inverse_operator => "inverse_path"
  | Save_source_space => "source_space_path"
  | Save_bem_model => "bem_model_path"
  | Save_bem_solution => "bem_solution_path"
  | Save_vol_source_space => "vol_source_space_path"
  | Save_source_morph => "source_morph_path"
  | Save_ga_evokeds => "ga_evokeds_path"
  end.

(** The attribute the method sets to the object it saves. *)
Definition attr_of (m : save_method) : string :=
  match m with
  | Save_raw => "_raw"
  | Save_events => "_events"
  | Save_epochs => "_epochs"
  | Save_reject_log => "_reject_log"
  | Save_ica => "_ica"
  | Save_ica_epochs => "_ica_epochs"
  | Save_evokeds => "_evokeds"
  | Save_power_tfr => "_power_tfr"
  | Save_itc_tfr => "_itc_tfr"
  | Save_forward => "_forward"
  | Save_inverse_operator => "_inverse"
  | Save_source_space => "_source_space"
  | Save_bem_model => "_bem_model"
  | Save_bem_solution => "_bem_solution"
  | Save_vol_source_space => "_vol_source_space"
  | Save_source_morph => "_source_morph"
  | Save_ga_evokeds => "_ga_evokeds"
  end.

(** The state after a file was opened for reading. *)
Definition opened (path : string) (st : state) : state :=
  set_wd (set_reads (reads (wd st) ++ [path]) (wd st)) st.

(** The load method of the attribute a save method sets. *)
Definition loader (m : save_method) : load_method :=
  match m with
  | Save_raw => Load_raw
  | Save_events => Load_events
  | Save_epochs => Load_epochs
  | Save_reject_log => Load_reject_log
  | Save_ica => Load_ica
  | Save_ica_epochs => Load_ica_epochs
  | Save_evokeds => Load_evokeds
  | Save_power_tfr => Load_power_tfr
  | Save_itc_tfr => Load_itc_tfr
  | Save_forward => Load_forward
  | Save_inverse_operator => Load_inverse_operator
  | Save_source_space => Load_source_space
  | Save_bem_model => Load_bem_model
  | Save_bem_solution => Load_bem_solution
  | Save_vol_source_space => Load_vol_source_space
  | Save_source_morph => Load_source_morph
  | Save_ga_evokeds => Load_ga_evokeds
  end.

(** The load methods that pick the channel types of what they return. *)
Definition picks (m : load_method) : bool :=
  match m with
  | Load_raw | Load_filtered | Load_erm | Load_epochs | Load_evokeds => true
  | _ => false
  end.

End Saving.

(** *** A small project to run the methods on *)

Definition demo_parameters : gmap string value :=
  <["highpass" := VInt 1]> (<["ch_types" := VList [VStr "grad"]]>
    (<["tfr_method" := VStr "morlet"]> (<["source_space_spacing" := VStr "oct6"]>
      (<["morph_to" := VStr "fsaverage"]> ∅)))).

(** A project with one preset, with these parameters; [sub2] has
    assignments, [sub1] has none. *)
Definition project_with (p : gmap string value) : project :=
  {| p_preset := "Default";
     parameters := {[ "Default" := p ]};
     data_path := "/data";
     erm_data_path := "/erm";
     figures_path := "/figures";
     save_dir_averages := "/averages";
     meeg_to_erm := {[ "sub2" := "erm1" ]};
     meeg_to_fsmri := {[ "sub2" := "fs1" ]};
     meeg_bad_channels := {[ "sub2" := ["MEG 001"] ]};
     meeg_event_id := {[ "sub2" := [("tone", 1%Z)] ]};
     sel_event_id := {[ "sub2" := ["tone"] ]};
     all_groups := {[ "all" := ["sub1"; "sub2"] ]};
     file_parameters := ∅ |}.

Definition demo_project : project := project_with demo_parameters.

Definition demo_main_win : main_win :=
  {| subjects_dir := "/subjects";
     settings := {[ "save_plots" := VBool true ]};
     default_settings :=
       <["img_format" := VStr ".png"]> (<["dpi" := VInt 300]>
         (<["save_storage" := VBool false]> ∅));
     qsettings := Some ∅ |}.

Definition demo_raw : value :=
  VData "measurement" ["grad"; "eog"] (VList []) VNone.

Definition demo_files : gmap string value :=
  <["/data/sub1/sub1-raw.fif" := demo_raw]>
    (<["/erm/erm1/erm1-raw.fif" := demo_raw]>
      (<["/data/sub2/sub2-raw.fif" := demo_raw]> ∅)).

Definition demo_world : world :=
  {| pr := demo_project; mw := demo_main_win; fs := demo_files; locked := [];
     dirs := []; now := 1000; reads := []; printed := []; boxes := [] |}.

(** The size of a file, for the examples: the length of its content. *)
Definition demo_size (v : value) : Z :=
  match v with
  | VData content _ _ _ => Z.of_nat (String.length content)
  | _ => 0
  end.

(** The state in a pipeline function [filter_raw], called by [run], of the
    MEEG object [name] built in a world. *)
Definition in_filter_raw (name : string) (w : world) : state :=
  (MEEG_init name None true (State [] ["filter_raw"; "run"] w)).2.

Definition demo_meeg : state := in_filter_raw "sub1" demo_world.

(** The same for a project whose preset has a parameter named [PATH]. *)
Definition demo_world_PATH : world :=
  set_pr (project_with (<["PATH" := VStr "elsewhere"]> demo_parameters)) demo_world.

Definition demo_meeg_PATH : state := in_filter_raw "sub1" demo_world_PATH.

End Loading.
(** ** Facts about the decimal rendering *)

Module FmtFacts.
Import Fmt.

Lemma pretty_N_char_digit x : is_digit (pretty_N_char x) = true.
Proof. unfold pretty_N_char. by repeat case_match. Qed.

Lemma pretty_N_go_digits x s :
  all_digits s = true → all_digits (pretty_N_go x s) = true.
Proof.
  revert s. induction (N.lt_wf_0 x) as [x _ IH]; intros s Hs.
  assert (x = 0 ∨ 0 < x)%N as [->|Hpos] by lia.
  - by rewrite pretty_N_go_0.
  - rewrite pretty_N_go_step by done. apply IH.
    + by apply N.div_lt.
    + simpl. by rewrite pretty_N_char_digit, Hs.
Qed.

Lemma pretty_nat_digits (n : nat) : all_digits (pretty n) = true.
Proof.
  unfold pretty, pretty_nat, pretty, pretty_N.
  case_decide; [done|]. by apply pretty_N_go_digits.
Qed.

(** Two digit strings followed by a colon agree as soon as the whole
    strings agree: the colon ends the digits. *)
Lemma digits_colon_inj d1 d2 r1 r2 :
  all_digits d1 = true → all_digits d2 = true →
  d1 +:+ String ":" r1 = d2 +:+ String ":" r2 → d1 = d2.
Proof.
  revert d2. induction d1 as [|a d1 IH]; intros [|b d2] H1 H2 Heq; simpl in *.
  - done.
  - injection Heq as <- _. by apply andb_prop in H2 as [? _].
  - injection Heq as -> _. by apply andb_prop in H1 as [? _].
  - injection Heq as -> Heq.
    apply andb_prop in H1 as [_ H1]. apply andb_prop in H2 as [_ H2].
    f_equal. by apply IH.
Qed.

End FmtFacts.

(** ** Facts about the run scheduler *)

Module RunDialogFacts.
Import RunDialog FmtFacts.

Section InitLists.

Variable ct : controller.

Lemma pending_lookup funcs f v : pending funcs !! f = Some v → v = 1%Z.
Proof.
  unfold pending.
  assert (∀ m : gmap string Z, (∀ g w, m !! g = Some w → w = 1%Z) →
    foldl (λ m x, <[x := 1%Z]> m) m funcs !! f = Some v → v = 1%Z) as H.
  { induction funcs as [|x funcs IH]; intros m Hm; simpl; [by apply Hm|].
    apply IH. intros g w. rewrite lookup_insert. case_decide; [congruence|by apply Hm]. }
  apply H. intros g w. by rewrite lookup_empty.
Qed.

Lemma pending_lookup_elem funcs f : f ∈ funcs → pending funcs !! f = Some 1%Z.
Proof.
  unfold pending.
  assert (∀ m : gmap string Z, f ∈ funcs ∨ m !! f = Some 1%Z →
    foldl (λ m x, <[x := 1%Z]> m) m funcs !! f = Some 1%Z) as H.
  { induction funcs as [|x funcs IH]; intros m Hm; simpl.
    - destruct Hm as [Hm|Hm]; [by apply elem_of_nil in Hm|done].
    - apply IH. destruct Hm as [Hm|Hm].
      + apply elem_of_cons in Hm as [->|Hm]; [right; apply lookup_insert_eq|by left].
      + right. rewrite lookup_insert. by case_decide. }
  intros Hf. apply H. by left.
Qed.

Lemma add_object_steps ty funcs st o :
  all_steps (add_object ty funcs st o) = all_steps st ++ map (pair o) funcs.
Proof.
  unfold add_object.
  set (st1 := set_all_objects _ st).
  change (all_steps st) with (all_steps st1). clearbody st1.
  revert st1. induction funcs as [|f funcs IH]; intros st1; simpl.
  - by rewrite app_nil_r.
  - rewrite IH. simpl. by rewrite <-app_assoc.
Qed.

Lemma add_object_objects ty funcs st o :
  all_objects (add_object ty funcs st o)
  = <[o := RunObject ty (pending funcs) 1]> (all_objects st).
Proof.
  unfold add_object.
  set (st1 := set_all_objects _ st).
  change (<[o:=_]> (all_objects st)) with (all_objects st1). clearbody st1.
  revert st1. induction funcs as [|f funcs IH]; intros st1; simpl; [done|].
  by rewrite IH.
Qed.

Lemma add_objects_steps ty objs funcs st :
  all_steps (add_objects ty objs funcs st) = all_steps st ++ steps_of objs funcs.
Proof.
  unfold add_objects, steps_of. case_decide as Hz.
  - clear Hz. revert st. induction objs as [|o objs IH]; intros st; simpl.
    + by rewrite app_nil_r.
    + by rewrite IH, add_object_steps, <-app_assoc.
  - assert (objs = [] ∨ funcs = []) as [->| ->].
    { destruct objs, funcs; simpl in *; auto; lia. }
    + simpl. by rewrite app_nil_r.
    + assert (flat_map (λ o : string, map (pair o) []) objs = @nil step) as ->.
      { clear Hz. induction objs as [|o objs IH]; simpl; [done|exact IH]. }
      by rewrite app_nil_r.
Qed.

Lemma add_object_ok ty funcs st o :
  table_ok st → table_ok (add_object ty funcs st o).
Proof.
  intros [Hp Hk]. split.
  - intros o' ro. rewrite add_object_objects, lookup_insert.
    case_decide; [|by apply Hp].
    intros [= <-]. simpl. split; [done|]. intros f v. apply pending_lookup.
  - intros s. rewrite add_object_steps, add_object_objects, lookup_insert.
    intros [Hs|Hs]%elem_of_app.
    + case_decide; [by eexists|by apply Hk].
    + apply list_elem_of_fmap in Hs as (f & -> & _). simpl.
      case_decide; [by eexists|done].
Qed.

Lemma add_objects_ok ty objs funcs st :
  table_ok st → table_ok (add_objects ty objs funcs st).
Proof.
  unfold add_objects. case_decide as Hz; [clear Hz|done]. revert st.
  induction objs as [|o objs IH]; intros st Hst; simpl; [done|].
  by apply IH, add_object_ok.
Qed.

Lemma init_attributes_ok st : table_ok (init_attributes st).
Proof.
  split.
  - intros o ro. simpl. by rewrite lookup_empty.
  - intros s. simpl. by intros ?%elem_of_nil.
Qed.

Lemma init_lists_steps st :
  all_steps (init_lists ct (init_attributes st))
  = steps_of (sel_fsmri ct) (sel_fsmri_funcs ct)
    ++ steps_of (sel_meeg ct) (sel_meeg_funcs ct)
    ++ steps_of (sel_groups ct) (sel_group_funcs ct)
    ++ steps_of [blank_name] (sel_other_funcs ct).
Proof.
  unfold init_lists. case_decide as Ho.
  - rewrite add_object_steps, !add_objects_steps. simpl.
    by rewrite app_nil_r, <-!app_assoc.
  - rewrite !add_objects_steps. simpl.
    assert (sel_other_funcs ct = []) as ->.
    { destruct (sel_other_funcs ct); [done|]. simpl in Ho. lia. }
    simpl. by rewrite <-!app_assoc, app_nil_r.
Qed.

Lemma init_lists_ok st : table_ok (init_lists ct (init_attributes st)).
Proof.
  unfold init_lists.
  pose proof (init_attributes_ok st) as H0.
  do 3 (eapply add_objects_ok in H0).
  case_decide; [by apply add_object_ok|done].
Qed.

Lemma elem_of_steps_of (s : step) objs funcs :
  s ∈ steps_of objs funcs ↔ s.1 ∈ objs ∧ s.2 ∈ funcs.
Proof.
  unfold steps_of. rewrite list_elem_of_In, in_flat_map. split.
  - intros (o & Ho & Hs). apply list_elem_of_In in Ho, Hs.
    apply list_elem_of_fmap in Hs as (g & -> & Hg). by split.
  - intros [Ho Hf]. exists s.1. split; [by apply list_elem_of_In|].
    apply list_elem_of_In, list_elem_of_fmap. exists s.2. by destruct s.
Qed.

Lemma add_objects_lookup_notin ty objs funcs st o :
  o ∉ objs →
  all_objects (add_objects ty objs funcs st) !! o = all_objects st !! o.
Proof.
  unfold add_objects. case_decide as Hz; [clear Hz|done]. revert st.
  induction objs as [|o' objs IH]; intros st Ho; simpl; [done|].
  apply not_elem_of_cons in Ho as [Hne Ho].
  by rewrite IH, add_object_objects, lookup_insert_ne.
Qed.

Lemma add_objects_lookup_in ty objs funcs st o :
  o ∈ objs → funcs ≠ [] →
  all_objects (add_objects ty objs funcs st) !! o
  = Some (RunObject ty (pending funcs) 1).
Proof.
  intros Ho Hf. unfold add_objects. case_decide as Hz.
  - clear Hz. revert st. induction objs as [|o' objs IH]; intros st; simpl.
    + by apply elem_of_nil in Ho.
    + destruct (decide (o ∈ objs)) as [Hin|Hnin]; [by apply IH|].
      apply elem_of_cons in Ho as [->|Ho]; [|done].
      pose proof (add_objects_lookup_notin ty objs funcs
                    (add_object ty funcs st o') o' Hnin) as Hl.
      unfold add_objects in Hl. case_decide as Hz.
      * by rewrite Hl, add_object_objects, lookup_insert_eq.
      * assert (objs = []) as ->.
        { destruct objs, funcs; simpl in *; try done; lia. }
        simpl. by rewrite add_object_objects, lookup_insert_eq.
  - destruct objs as [|a objs]; [by apply elem_of_nil in Ho|].
    destruct funcs; [done|]. simpl in Hz. lia.
Qed.

(** One block of [init_lists] keeps the steps queued so far pending when
    none of them is for an object of the block, and queues pending steps. *)
Lemma add_objects_pending ty objs funcs st :
  (∀ s, s ∈ all_steps st → step_pending st s ∧ s.1 ∉ objs) →
  ∀ s, s ∈ all_steps (add_objects ty objs funcs st) →
       step_pending (add_objects ty objs funcs st) s.
Proof.
  intros Hold s. rewrite add_objects_steps. intros [Hs|Hs]%elem_of_app.
  - destruct (Hold s Hs) as [(ro & Hro & Hst & Hf) Hn]. exists ro.
    by rewrite add_objects_lookup_notin.
  - apply elem_of_steps_of in Hs as [Ho Hf].
    exists (RunObject ty (pending funcs) 1). split; [|split; [done|]].
    + apply add_objects_lookup_in; [done|]. intros ->. by apply elem_of_nil in Hf.
    + simpl. by apply pending_lookup_elem.
Qed.

Lemma init_lists_pending st :
  distinct_names ct →
  ∀ s, s ∈ all_steps (init_lists ct (init_attributes st)) →
       step_pending (init_lists ct (init_attributes st)) s.
Proof.
  intros (Hf & Hm & Hg). unfold init_lists.
  set (st1 := add_objects FSMRI (sel_fsmri ct) (sel_fsmri_funcs ct) (init_attributes st)).
  set (st2 := add_objects MEEG (sel_meeg ct) (sel_meeg_funcs ct) st1).
  set (st3 := add_objects Group (sel_groups ct) (sel_group_funcs ct) st2).
  assert (∀ s, s ∈ all_steps st1 → step_pending st1 s ∧ s.1 ∈ sel_fsmri ct) as H1.
  { intros s Hs. split.
    - revert s Hs. apply add_objects_pending. simpl. by intros s ?%elem_of_nil.
    - unfold st1 in Hs. rewrite add_objects_steps in Hs. simpl in Hs.
      by apply elem_of_steps_of in Hs as [? _]. }
  assert (∀ s, s ∈ all_steps st2 →
    step_pending st2 s ∧ (s.1 ∈ sel_fsmri ct ∨ s.1 ∈ sel_meeg ct)) as H2.
  { intros s Hs. split.
    - revert s Hs. apply add_objects_pending. intros s Hs.
      destruct (H1 s Hs) as [Hp Ho]. split; [done|]. by apply Hf.
    - unfold st2 in Hs. rewrite add_objects_steps in Hs.
      apply elem_of_app in Hs as [Hs|Hs]; [left; by apply H1|].
      right. by apply elem_of_steps_of in Hs as [? _]. }
  assert (∀ s, s ∈ all_steps st3 →
    step_pending st3 s ∧ s.1 ≠ blank_name) as H3.
  { intros s Hs. split.
    - revert s Hs. apply add_objects_pending. intros s Hs.
      destruct (H2 s Hs) as [Hp [Ho|Ho]]; (split; [done|]); [by apply Hf|by apply Hm].
    - unfold st3 in Hs. rewrite add_objects_steps in Hs.
      apply elem_of_app in Hs as [Hs|Hs].
      + destruct (H2 s Hs) as [_ [Ho|Ho]]; [by apply Hf|by apply Hm].
      + apply elem_of_steps_of in Hs as [Ho _]. by apply Hg. }
  case_decide as Ho; [|intros s Hs; by apply H3].
  intros s. rewrite add_object_steps. intros [Hs|Hs]%elem_of_app.
  - destruct (H3 s Hs) as [(ro & Hro & Hst & Hfn) Hn]. exists ro.
    by rewrite add_object_objects, lookup_insert_ne.
  - apply list_elem_of_fmap in Hs as (g & -> & Hgs). simpl.
    exists (RunObject Other (pending (sel_other_funcs ct)) 1).
    rewrite add_object_objects, lookup_insert_eq. split; [done|]. split; [done|].
    simpl. by apply pending_lookup_elem.
Qed.

End InitLists.

(** *** The slots of the scheduler, step by step *)

Section Slots.

Variable ct : controller.
Variable func_from_def : nat → string → loaded → outcome.

Lemma load_object_all_steps n ty st : all_steps (load_object ct n ty st) = all_steps st.
Proof. unfold load_object. by repeat case_match. Qed.

Lemma load_object_all_objects n ty st : all_objects (load_object ct n ty st) = all_objects st.
Proof. unfold load_object. by repeat case_match. Qed.

Lemma load_object_current_step n ty st : current_step (load_object ct n ty st) = current_step st.
Proof. unfold load_object. by repeat case_match. Qed.

Lemma load_object_current_func n ty st : current_func (load_object ct n ty st) = current_func st.
Proof. unfold load_object. by repeat case_match. Qed.

Lemma load_object_errors n ty st : errors (load_object ct n ty st) = errors st.
Proof. unfold load_object. by repeat case_match. Qed.

Lemma load_object_error_count n ty st : error_count (load_object ct n ty st) = error_count st.
Proof. unfold load_object. by repeat case_match. Qed.

Lemma load_object_prog_count n ty st : prog_count (load_object ct n ty st) = prog_count st.
Proof. unfold load_object. by repeat case_match. Qed.

Lemma load_object_paused n ty st : paused (load_object ct n ty st) = paused st.
Proof. unfold load_object. by repeat case_match. Qed.

Lemma load_object_continue_bt n ty st : continue_bt (load_object ct n ty st) = continue_bt st.
Proof. unfold load_object. by repeat case_match. Qed.

Lemma load_object_pause_bt n ty st : pause_bt (load_object ct n ty st) = pause_bt st.
Proof. unfold load_object. by repeat case_match. Qed.

Lemma load_object_restart_bt n ty st : restart_bt (load_object ct n ty st) = restart_bt st.
Proof. unfold load_object. by repeat case_match. Qed.

Lemma load_object_close_bt n ty st : close_bt (load_object ct n ty st) = close_bt st.
Proof. unfold load_object. by repeat case_match. Qed.

Lemma load_object_pgbar n ty st : pgbar (load_object ct n ty st) = pgbar st.
Proof. unfold load_object. by repeat case_match. Qed.

Lemma load_object_pool n ty st : pool (load_object ct n ty st) = pool st.
Proof. unfold load_object. by repeat case_match. Qed.

Lemma load_object_log n ty st : log (load_object ct n ty st) = log st.
Proof. unfold load_object. by repeat case_match. Qed.

Lemma load_object_crash n ty st : crash (load_object ct n ty st) = crash st.
Proof. unfold load_object. by repeat case_match. Qed.

Lemma load_object_current n ty st :
  ∃ o, current_object (load_object ct n ty st) = Some o ∧ name o = n.
Proof.
  unfold load_object, MEEG_init.
  destruct (current_object st) as [o|] eqn:Ho.
  - case_bool_decide as Hn.
    + repeat case_match; simpl; eauto.
    + exists o. split; [done|]. by destruct (decide (name o = n)).
  - repeat case_match; simpl; eauto.
Qed.

Lemma mark_current_items_eq v st o f ro :
  current_object st = Some o → current_func st = Some f →
  all_objects st !! name o = Some ro →
  mark_current_items v st
  = set_all_objects
      (<[name o := RunObject (type ro) (<[f := v]> (functions ro)) v]> (all_objects st)) st.
Proof. intros Ho Hf Hro. unfold mark_current_items. by rewrite Ho, Hf, Hro. Qed.

(** [start_thread] on a queue with a first step. *)
Lemma run_queue_cons (s : step) q' st ro :
  all_objects st !! s.1 = Some ro → crash st = None →
  ∃ o, current_object (entered ct s q' ro st) = Some o ∧ name o = s.1 ∧
    run_queue ct func_from_def (s :: q') st
    = if blocking ct s.2 then
        match func_from_def (prog_count st) s.2 o with
        | Raised e =>
            thread_error_with (run_queue ct func_from_def q') e
              (add_log (Ret s (Raised e)) (add_log (Call s true) (entered ct s q' ro st)))
        | Returned =>
            thread_finished_with (run_queue ct func_from_def q')
              (add_log (Ret s Returned) (add_log (Call s true) (entered ct s q' ro st)))
        end
      else set_pool (pool st ++ [s]) (add_log (Call s false) (entered ct s q' ro st)).
Proof.
  intros Hro Hc.
  remember (set_current_step (Some s) (set_all_steps q'
              (set_buttons false true false false (set_paused false st)))) as st2 eqn:E2.
  assert (all_objects st2 = all_objects st ∧ crash st2 = crash st
          ∧ prog_count st2 = prog_count st ∧ pool st2 = pool st) as (E3 & E4 & E5 & E6).
  { by subst st2. }
  destruct (load_object_current s.1 (type ro) st2) as (o & Ho & Hn).
  exists o. split; [|split; [done|]].
  { cbv beta zeta delta [entered]. rewrite <-E2. simpl. exact Ho. }
  cbn [run_queue]. rewrite <-E2, E3, Hro.
  erewrite (mark_current_items_eq 2 _ o s.2 ro); cbn -[load_object];
    [|exact Ho|done|by rewrite load_object_all_objects, Hn, E3].
  unfold and_then. cbn -[load_object]. rewrite load_object_crash, E4, Hc.
  rewrite Ho, Hn, load_object_all_objects, load_object_prog_count, load_object_pool.
  rewrite E3, E5, E6. cbv beta zeta delta [entered]. rewrite <-E2.
  cbn -[load_object]. rewrite load_object_all_objects, E3. reflexivity.
Qed.

(** The fields of the state [start_thread] leaves when it hands over to
    the function of the step. *)
Lemma entered_errors s q' ro st : errors (entered ct s q' ro st) = errors st.
Proof. unfold entered. cbn -[load_object]. rewrite load_object_errors. reflexivity. Qed.

Lemma entered_error_count s q' ro st : error_count (entered ct s q' ro st) = error_count st.
Proof. unfold entered. cbn -[load_object]. rewrite load_object_error_count. reflexivity. Qed.

Lemma entered_prog_count s q' ro st : prog_count (entered ct s q' ro st) = prog_count st.
Proof. unfold entered. cbn -[load_object]. rewrite load_object_prog_count. reflexivity. Qed.

Lemma entered_pool s q' ro st : pool (entered ct s q' ro st) = pool st.
Proof. unfold entered. cbn -[load_object]. rewrite load_object_pool. reflexivity. Qed.

Lemma entered_log s q' ro st : log (entered ct s q' ro st) = log st.
Proof. unfold entered. cbn -[load_object]. rewrite load_object_log. reflexivity. Qed.

Lemma entered_crash s q' ro st : crash (entered ct s q' ro st) = crash st.
Proof. unfold entered. cbn -[load_object]. rewrite load_object_crash. reflexivity. Qed.

Lemma entered_pgbar s q' ro st : pgbar (entered ct s q' ro st) = pgbar st.
Proof. unfold entered. cbn -[load_object]. rewrite load_object_pgbar. reflexivity. Qed.

Lemma entered_all_steps s q' ro st : all_steps (entered ct s q' ro st) = q'.
Proof. unfold entered. cbn -[load_object]. rewrite load_object_all_steps. reflexivity. Qed.

Lemma entered_all_objects s q' ro st :
  all_objects (entered ct s q' ro st)
  = <[s.1 := RunObject (type ro) (<[s.2 := 2%Z]> (functions ro)) 2]> (all_objects st).
Proof. unfold entered. cbn -[load_object]. rewrite load_object_all_objects. reflexivity. Qed.

Lemma entered_current_func s q' ro st :
  current_func (entered ct s q' ro st) = Some s.2.
Proof. done. Qed.

Lemma entered_paused s q' ro st : paused (entered ct s q' ro st) = false.
Proof. unfold entered. cbn -[load_object]. rewrite load_object_paused. reflexivity. Qed.

Lemma entered_buttons s q' ro st :
  continue_bt (entered ct s q' ro st) = false ∧
  pause_bt (entered ct s q' ro st) = true ∧
  restart_bt (entered ct s q' ro st) = false.
Proof.
  unfold entered. cbn -[load_object].
  rewrite load_object_continue_bt, load_object_pause_bt, load_object_restart_bt.
  repeat split; reflexivity.
Qed.

Lemma statuses_ok_insert m n ro f v :
  statuses_ok m → m !! n = Some ro → status_ok v →
  statuses_ok (<[n := RunObject (type ro) (<[f := v]> (functions ro)) v]> m).
Proof.
  intros Hm Hn Hv o ro'. rewrite lookup_insert. case_decide as E; [|by apply Hm].
  intros [= <-]. simpl. split; [done|]. intros g w. rewrite lookup_insert.
  case_decide; [by intros [= <-]|]. by apply (Hm n ro Hn).
Qed.

Lemma keys_ok_insert q (m : gmap string run_object) n x :
  keys_ok q m → keys_ok q (<[n := x]> m).
Proof.
  intros Hk s Hs. rewrite lookup_insert. case_decide; [by eexists|by apply Hk].
Qed.

Lemma keys_ok_tail s q (m : gmap string run_object) :
  keys_ok (s :: q) m → keys_ok q m.
Proof. intros Hk s' Hs. apply Hk. by right. Qed.

Lemma all_pending_statuses m : all_pending m → statuses_ok m.
Proof.
  intros Hm o ro Ho. destruct (Hm o ro Ho) as [Hs Hf]. split.
  - right; by left.
  - intros f v Hv. right; left. by apply (Hf f).
Qed.

Lemma thread_finished_with_eq k st o f ro :
  current_object st = Some o → current_func st = Some f →
  all_objects st !! name o = Some ro → crash st = None →
  thread_finished_with k st
  = if paused st
    then set_buttons true false true true
           (add_html "<b><big>Paused</big></b><br>" (finished o f ro st))
    else k (finished o f ro st).
Proof.
  intros Ho Hf Hro Hc. unfold thread_finished_with.
  erewrite (mark_current_items_eq 0 _ o f ro); [|done..].
  unfold and_then. simpl. rewrite Hc. by destruct (paused st).
Qed.

Lemma thread_error_with_eq k err st o f :
  current_object st = Some o → current_func st = Some f →
  thread_error_with k err st = thread_finished_with k (recorded o f err st).
Proof. intros Ho Hf. unfold thread_error_with. by rewrite Ho, Hf. Qed.

Lemma sequential_from_app r l l' :
  sequential_from r (l ++ l') = sequential_from r l ≫= λ r', sequential_from r' l'.
Proof.
  revert r. induction l as [|e l IH]; intros r; simpl; [done|].
  destruct e, r; simpl; try done. by case_decide.
Qed.

Lemma calls_app l l' : calls (l ++ l') = calls l ++ calls l'.
Proof. apply omap_app. Qed.

(** *** start_thread keeps the run in order *)

Opaque entered.

Lemma ready_finished o f ro st :
  ready ct st → all_objects st !! name o = Some ro →
  ready ct (finished o f ro st).
Proof.
  intros [Hc Hp Hk Hcur Hs He Hl Hf] Hro. split; simpl; try done.
  - by apply keys_ok_insert.
  - intros o' Ho'. rewrite lookup_insert. case_decide; [by eexists|by apply Hcur].
  - apply statuses_ok_insert; [done..|by left].
Qed.

Lemma errors_ok_recorded o f err st : errors_ok st → errors_ok (recorded o f err st).
Proof.
  intros He k e i. simpl. rewrite lookup_insert. case_decide as E.
  - intros [= <- <-]. split; [lia|]. by exists (name o), f.
  - intros Hk. destruct (He k e i Hk) as [Hi Hform]. split; [lia|done].
Qed.

Lemma ready_recorded o f err st : ready ct st → ready ct (recorded o f err st).
Proof.
  intros [Hc Hp Hk Hcur Hs He Hl Hf]. split; simpl; try done.
  by apply errors_ok_recorded.
Qed.

Lemma ready_entered_ret (s : step) q' ro st out :
  ready ct st → all_steps st = s :: q' → all_objects st !! s.1 = Some ro →
  (∀ o, current_object (entered ct s q' ro st) = Some o → name o = s.1) →
  ready ct (add_log (Ret s out) (add_log (Call s true) (entered ct s q' ro st))).
Proof.
  intros [Hc Hp Hk Hcur Hs He Hl Hf] Hq Hro Hname. split; simpl.
  - by rewrite entered_crash.
  - by rewrite entered_pool.
  - rewrite entered_all_steps, entered_all_objects.
    apply keys_ok_insert. rewrite Hq in Hk. by eapply keys_ok_tail.
  - intros o Ho. rewrite entered_all_objects, (Hname o Ho), lookup_insert_eq.
    by eexists.
  - rewrite entered_all_objects. apply statuses_ok_insert; [done..|by right; right].
  - intros k e i. unfold errors_ok in He. simpl.
    rewrite entered_errors, entered_error_count. apply He.
  - rewrite entered_log, <-app_assoc, sequential_from_app, Hl. simpl.
    by case_decide.
  - destruct Hf as (pre & dn & Hcalls & Hdn).
    exists pre, (dn ++ [s]). rewrite entered_log, entered_all_steps.
    rewrite !calls_app, Hcalls. simpl. rewrite app_nil_r, <-!app_assoc. simpl.
    split; [done|]. by rewrite <-Hdn, Hq.
Qed.

Lemma inv_pooled (s : step) q' ro st :
  ready ct st → all_steps st = s :: q' → all_objects st !! s.1 = Some ro →
  (∃ o, current_object (entered ct s q' ro st) = Some o ∧ name o = s.1) →
  inv ct (set_pool (pool st ++ [s]) (add_log (Call s false) (entered ct s q' ro st))).
Proof.
  intros [Hc Hp Hk Hcur Hs He Hl Hf] Hq Hro (o & Ho & Hname).
  rewrite Hp. split; simpl.
  - by rewrite entered_crash.
  - rewrite entered_all_steps, entered_all_objects.
    apply keys_ok_insert. rewrite Hq in Hk. by eapply keys_ok_tail.
  - intros o'. rewrite Ho. intros [= <-].
    rewrite entered_all_objects, Hname, lookup_insert_eq. by eexists.
  - rewrite entered_all_objects. apply statuses_ok_insert; [done..|by right; right].
  - intros k e i. unfold errors_ok in He. simpl.
    rewrite entered_errors, entered_error_count. apply He.
  - by rewrite entered_log, sequential_from_app, Hl.
  - lia.
  - intros s' [= <-]. destruct (entered_buttons s q' ro st) as (Hb1 & Hb2 & Hb3).
    split; [by exists o|]. simpl.
    by rewrite entered_current_func, Hb1, Hb2, Hb3.
  - done.
  - destruct Hf as (pre & dn & Hcalls & Hdn).
    exists pre, (dn ++ [s]). rewrite entered_log, entered_all_steps.
    rewrite calls_app, Hcalls. simpl. rewrite <-!app_assoc. simpl.
    split; [done|]. by rewrite <-Hdn, Hq.
Qed.

Lemma run_queue_inv q st :
  all_steps st = q → ready ct st → inv ct (run_queue ct func_from_def q st).
Proof.
  revert st. induction q as [|s q' IH]; intros st Hq Hr.
  - destruct Hr as [Hc Hp Hk Hcur Hs He Hl Hf]. split; simpl; try done.
    + by rewrite Hp.
    + rewrite Hp. simpl. lia.
    + by rewrite Hp.
  - assert (is_Some (all_objects st !! s.1)) as [ro Hro].
    { apply (ready_keys _ _ Hr). rewrite Hq. by left. }
    destruct (run_queue_cons s q' st ro Hro (ready_crash _ _ Hr))
      as (o & Ho & Hn & ->).
    assert (∀ o', current_object (entered ct s q' ro st) = Some o' → name o' = s.1)
      as Hname.
    { intros o'. rewrite Ho. by intros [= <-]. }
    destruct (blocking ct s.2); [|apply inv_pooled; eauto].
    set (ro2 := RunObject (type ro) (<[s.2 := 2%Z]> (functions ro)) 2).
    destruct (func_from_def (prog_count st) s.2 o) as [|e].
    + pose proof (ready_entered_ret s q' ro st Returned Hr Hq Hro Hname) as Hr'.
      rewrite (thread_finished_with_eq _ _ o s.2 ro2); simpl;
        [|done|done|by rewrite entered_all_objects, Hn, lookup_insert_eq
         |by rewrite entered_crash; apply Hr].
      rewrite entered_paused. apply IH.
      * simpl. apply entered_all_steps.
      * apply ready_finished; [done|]. simpl.
        by rewrite entered_all_objects, Hn, lookup_insert_eq.
    + pose proof (ready_entered_ret s q' ro st (Raised e) Hr Hq Hro Hname) as Hr'.
      rewrite (thread_error_with_eq _ _ _ o s.2); simpl; [|done..].
      rewrite (thread_finished_with_eq _ _ o s.2 ro2); simpl;
        [|done|done|by rewrite entered_all_objects, Hn, lookup_insert_eq
         |by rewrite entered_crash; apply Hr].
      rewrite entered_paused. apply IH.
      * simpl. apply entered_all_steps.
      * apply ready_finished; [by apply ready_recorded|]. simpl.
        by rewrite entered_all_objects, Hn, lookup_insert_eq.
Qed.

Lemma start_thread_inv st : ready ct st → inv ct (start_thread ct func_from_def st).
Proof. intros Hr. by apply run_queue_inv. Qed.

(** *** What a call of start_thread dispatches *)

(** [start_thread] calls the function of the first step of the queue, if
    there is one, and then only steps behind it, in the order of the queue;
    what it did not call is still queued. *)
Lemma run_queue_calls q st :
  all_steps st = q → ready ct st →
  ∃ more,
    calls (log (run_queue ct func_from_def q st)) = calls (log st) ++ more ∧
    more ++ all_steps (run_queue ct func_from_def q st) = q ∧
    match q with [] => more = [] | s :: _ => ∃ m, more = s :: m end.
Proof.
  revert st. induction q as [|s q' IH]; intros st Hq Hr.
  - exists []. simpl. by rewrite app_nil_r.
  - assert (is_Some (all_objects st !! s.1)) as [ro Hro].
    { apply (ready_keys _ _ Hr). rewrite Hq. by left. }
    destruct (run_queue_cons s q' st ro Hro (ready_crash _ _ Hr))
      as (o & Ho & Hn & ->).
    assert (∀ o', current_object (entered ct s q' ro st) = Some o' → name o' = s.1)
      as Hname.
    { intros o'. rewrite Ho. by intros [= <-]. }
    destruct (blocking ct s.2).
    2:{ exists [s]. simpl. rewrite entered_log, entered_all_steps, calls_app.
        simpl. split; [done|]. split; [done|]. by exists []. }
    set (ro2 := RunObject (type ro) (<[s.2 := 2%Z]> (functions ro)) 2).
    assert (∀ st1,
      ready ct st1 → all_steps st1 = q' →
      calls (log st1) = calls (log st) ++ [s] →
      ∃ more,
        calls (log (run_queue ct func_from_def q' st1)) = calls (log st) ++ more ∧
        more ++ all_steps (run_queue ct func_from_def q' st1) = s :: q' ∧
        ∃ m, more = s :: m) as Hgo.
    { intros st1 Hr1 Hq1 Hc1.
      destruct (IH st1 Hq1 Hr1) as (more & Hm1 & Hm2 & _).
      exists (s :: more). rewrite Hm1, Hc1, <-app_assoc. simpl.
      split; [done|]. split; [by rewrite Hm2|by exists more]. }
    assert (∀ out,
      calls (log (add_log (Ret s out) (add_log (Call s true) (entered ct s q' ro st))))
      = calls (log st) ++ [s]) as Hlog.
    { intros out. simpl. rewrite entered_log, <-app_assoc, calls_app. simpl. done. }
    destruct (func_from_def (prog_count st) s.2 o) as [|e].
    + pose proof (ready_entered_ret s q' ro st Returned Hr Hq Hro Hname) as Hr'.
      rewrite (thread_finished_with_eq _ _ o s.2 ro2); simpl;
        [|done|done|by rewrite entered_all_objects, Hn, lookup_insert_eq
         |by rewrite entered_crash; apply Hr].
      rewrite entered_paused. apply Hgo.
      * apply ready_finished; [done|]. simpl.
        by rewrite entered_all_objects, Hn, lookup_insert_eq.
      * simpl. apply entered_all_steps.
      * apply (Hlog Returned).
    + pose proof (ready_entered_ret s q' ro st (Raised e) Hr Hq Hro Hname) as Hr'.
      rewrite (thread_error_with_eq _ _ _ o s.2); simpl; [|done..].
      rewrite (thread_finished_with_eq _ _ o s.2 ro2); simpl;
        [|done|done|by rewrite entered_all_objects, Hn, lookup_insert_eq
         |by rewrite entered_crash; apply Hr].
      rewrite entered_paused. apply Hgo.
      * apply ready_finished; [by apply ready_recorded|]. simpl.
        by rewrite entered_all_objects, Hn, lookup_insert_eq.
      * simpl. apply entered_all_steps.
      * apply (Hlog (Raised e)).
Qed.

Lemma start_thread_calls st :
  ready ct st →
  ∃ more,
    calls (log (start_thread ct func_from_def st)) = calls (log st) ++ more ∧
    more ++ all_steps (start_thread ct func_from_def st) = all_steps st ∧
    match all_steps st with [] => more = [] | s :: _ => ∃ m, more = s :: m end.
Proof. intros Hr. by apply run_queue_calls. Qed.

(** The slots call [start_thread] on the queue they leave. *)
Lemma mark_current_items_all_steps v st :
  all_steps (mark_current_items v st) = all_steps st.
Proof. unfold mark_current_items. by repeat case_match. Qed.

Lemma thread_finished_with_ext k1 k2 st :
  (∀ st', all_steps st' = all_steps st → k1 st' = k2 st') →
  thread_finished_with k1 st = thread_finished_with k2 st.
Proof.
  intros Hk. unfold thread_finished_with, and_then.
  destruct (crash (mark_current_items 0 _)); [done|].
  destruct (negb _); [|done]. apply Hk. by rewrite mark_current_items_all_steps.
Qed.

Lemma thread_error_with_ext k1 k2 err st :
  (∀ st', all_steps st' = all_steps st → k1 st' = k2 st') →
  thread_error_with k1 err st = thread_error_with k2 err st.
Proof.
  intros Hk. unfold thread_error_with. repeat case_match; try done.
  by apply thread_finished_with_ext.
Qed.

(** *** The events keep the run in order *)

Lemma add_object_proj {A} (p : state → A) ty funcs st o :
  (∀ v st, p (set_all_steps v st) = p st) →
  (∀ v st, p (set_all_objects v st) = p st) →
  p (add_object ty funcs st o) = p st.
Proof.
  intros H1 H2. unfold add_object.
  rewrite <-(H2 (<[o := RunObject ty (pending funcs) 1]> (all_objects st)) st).
  generalize (set_all_objects (<[o := RunObject ty (pending funcs) 1]> (all_objects st)) st).
  induction funcs as [|g funcs IH]; intros st1; simpl; [done|].
  by rewrite IH, H1.
Qed.

Lemma add_objects_proj {A} (p : state → A) ty objs funcs st :
  (∀ v st, p (set_all_steps v st) = p st) →
  (∀ v st, p (set_all_objects v st) = p st) →
  p (add_objects ty objs funcs st) = p st.
Proof.
  intros H1 H2. unfold add_objects. case_decide as Hz; [clear Hz|done].
  revert st. induction objs as [|o objs IH]; intros st; simpl; [done|].
  by rewrite IH, add_object_proj.
Qed.

Lemma init_lists_proj {A} (p : state → A) st :
  (∀ v st, p (set_all_steps v st) = p st) →
  (∀ v st, p (set_all_objects v st) = p st) →
  p (init_lists ct st) = p st.
Proof.
  intros H1 H2. unfold init_lists.
  case_decide; rewrite ?add_object_proj, !add_objects_proj; done.
Qed.

Lemma ready_fresh st :
  crash st = None → pool st = [] → sequential_from None (log st) = Some None →
  ready ct (init_lists ct (init_attributes st)).
Proof.
  intros Hc Hp Hl.
  destruct (init_lists_ok ct st) as [Hpend Hkeys].
  split.
  - by rewrite (init_lists_proj crash).
  - by rewrite (init_lists_proj pool).
  - exact Hkeys.
  - intros o. by rewrite (init_lists_proj current_object).
  - by apply all_pending_statuses.
  - intros k e i. rewrite (init_lists_proj errors); [|done..]. simpl.
    by rewrite lookup_empty.
  - by rewrite (init_lists_proj log).
  - exists (calls (log st)), []. rewrite (init_lists_proj log); [|done..].
    simpl. split; [by rewrite app_nil_r|].
    unfold queue0. by rewrite !init_lists_steps.
Qed.

Lemma ready_display v w st : ready ct st → ready ct (set_pgbar v (set_console w st)).
Proof. by intros []. Qed.

Lemma init_inv : inv ct (init ct func_from_def).
Proof. apply start_thread_inv, ready_fresh; done. Qed.

Lemma restart_inv st :
  inv ct st → pool st = [] → inv ct (restart ct func_from_def st).
Proof.
  intros Hi Hp. unfold restart. apply start_thread_inv, ready_display, ready_fresh.
  - apply Hi.
  - done.
  - destruct Hi as [_ _ _ _ _ Hl _ _ _ _]. by rewrite Hp in Hl.
Qed.

Lemma inv_ready st : inv ct st → pool st = [] → ready ct st.
Proof.
  intros [Hc Hk Hcur Hs He Hl Hlen Hrun Hrest Hf] Hp. split; try done.
  by rewrite Hp in Hl.
Qed.

Lemma inv_pool_lookup st i s :
  inv ct st → pool st !! i = Some s → i = 0 ∧ pool st = [s].
Proof.
  intros Hi Hs. pose proof (inv_pool _ _ Hi) as Hlen.
  destruct (pool st) as [|s1 [|s2 l]]; simpl in *; [done| |lia].
  destruct i; simpl in Hs; [|done]. by injection Hs as ->.
Qed.

(** The state in which the slot of a worker's signal starts. *)
Lemma ready_returned st s out :
  inv ct st → pool st = [s] →
  ready ct (add_log (Ret s out) (set_pool [] st)).
Proof.
  intros [Hc Hk Hcur Hs He Hl Hlen Hrun Hrest Hf] Hp. split; simpl; try done.
  - rewrite sequential_from_app, Hl, Hp. simpl. by case_decide.
  - destruct Hf as (pre & dn & Hcalls & Hdn). exists pre, dn.
    rewrite calls_app. simpl. by rewrite app_nil_r.
Qed.

(** [thread_finished] in a state [start_thread] can be called in:
    the step is marked finished, and the run rests when it is paused and
    goes on with [start_thread] when it is not. *)
Lemma thread_finished_inv st o f :
  ready ct st → current_object st = Some o → current_func st = Some f →
  inv ct (thread_finished ct func_from_def st).
Proof.
  intros Hr Ho Hf.
  destruct (ready_current _ _ Hr o Ho) as [ro Hro].
  unfold thread_finished.
  rewrite (thread_finished_with_eq _ _ o f ro Ho Hf Hro (ready_crash _ _ Hr)).
  pose proof (ready_finished o f ro st Hr Hro) as Hr'.
  destruct (paused st) eqn:Hpa.
  - destruct Hr' as [Hc Hp Hk Hcur Hs He Hl Hfi]. split; simpl in *; try done.
    + by rewrite Hp.
    + rewrite Hp. simpl. lia.
    + by rewrite Hp.
    + intros _. unfold resting. simpl. by rewrite Hpa.
  - by apply start_thread_inv.
Qed.

Lemma thread_error_inv st o f err :
  ready ct st → current_object st = Some o → current_func st = Some f →
  inv ct (thread_error ct func_from_def err st).
Proof.
  intros Hr Ho Hf. unfold thread_error.
  rewrite (thread_error_with_eq _ _ _ o f Ho Hf).
  apply (thread_finished_inv _ o f); [by apply ready_recorded|done..].
Qed.

Lemma handle_inv e st st' :
  inv ct st → handle ct func_from_def e st = Some st' → inv ct st'.
Proof.
  intros Hi. destruct e as [i out| | |]; cbn [handle].
  - destruct (pool st !! i) as [s|] eqn:Hs; [|done].
    destruct (inv_pool_lookup st i s Hi Hs) as [-> Hp].
    destruct (inv_run _ _ Hi s Hp) as ((o & Ho & Hn) & Hf & _).
    assert (delete 0 (pool st) = []) as ->. { by rewrite Hp. }
    pose proof (ready_returned st s out Hi Hp) as Hr.
    destruct out as [|err]; intros Heq; apply (inj Some) in Heq; subst st'.
    + by apply (thread_finished_inv _ o s.2).
    + by apply (thread_error_inv _ o s.2 err).
  - destruct (pause_bt st) eqn:Hb; [|done]. intros [= <-].
    destruct Hi as [Hc Hk Hcur Hs He Hl Hlen Hrun Hrest Hf].
    split; simpl; try done.
    intros Hp. destruct (Hrest Hp) as [Hpb _]. congruence.
  - destruct (continue_bt st) eqn:Hb; [|done]. intros [= <-].
    apply start_thread_inv, inv_ready; [done|].
    pose proof (inv_pool _ _ Hi) as Hlen. pose proof (inv_run _ _ Hi) as Hrun.
    destruct (pool st) as [|s [|s2 l]]; simpl in *; [done| |lia].
    destruct (Hrun s eq_refl) as (_ & _ & Hcb & _). congruence.
  - destruct (restart_bt st) eqn:Hb; [|done]. intros [= <-].
    apply restart_inv; [done|].
    pose proof (inv_pool _ _ Hi) as Hlen. pose proof (inv_run _ _ Hi) as Hrun.
    destruct (pool st) as [|s [|s2 l]]; simpl in *; [done| |lia].
    destruct (Hrun s eq_refl) as (_ & _ & _ & Hrb & _). congruence.
Qed.

Lemma handle_all_inv es st st' :
  inv ct st → handle_all ct func_from_def es st = Some st' → inv ct st'.
Proof.
  revert st. induction es as [|e es IH]; intros st Hi; simpl.
  - by intros [= <-].
  - destruct (handle ct func_from_def e st) as [st1|] eqn:He; [|done].
    apply IH. by eapply handle_inv.
Qed.

Lemma reachable_inv st : reachable ct func_from_def st → inv ct st.
Proof. intros [es Hes]. eapply handle_all_inv; [apply init_inv|done]. Qed.

(** *** What an event adds to the calls *)

Lemma error_cause_index_inj i j o f o' f' :
  error_cause i o f = error_cause j o' f' → i = j.
Proof.
  unfold error_cause. intros Heq.
  apply (inj (pretty : nat → string)).
  eapply (digits_colon_inj _ _ (String " " (o +:+ " <- " +:+ f))
            (String " " (o' +:+ " <- " +:+ f'))); [apply pretty_nat_digits..|].
  exact Heq.
Qed.

(** The key the next error is stored under is not in [errors] yet. *)
Lemma error_cause_fresh st o f :
  errors_ok st → errors st !! error_cause (error_count st) o f = None.
Proof.
  intros He. destruct (errors st !! _) as [[e i]|] eqn:Hk; [|done].
  destruct (He _ _ _ Hk) as (Hi & o' & f' & Heq).
  apply error_cause_index_inj in Heq. lia.
Qed.

(** Handling an event calls the functions of a front part of the queue, in
    the order of the queue, and leaves the rest queued; a restart starts
    over with the queue of [init_lists]. *)
Lemma handle_calls e st st' :
  inv ct st → handle ct func_from_def e st = Some st' →
  ∃ more,
    calls (log st') = calls (log st) ++ more ∧
    more ++ all_steps st'
    = match e with ClickRestart => queue0 ct | _ => all_steps st end.
Proof.
  intros Hi. destruct e as [i out| | |]; cbn [handle].
  - destruct (pool st !! i) as [s|] eqn:Hs; [|done].
    destruct (inv_pool_lookup st i s Hi Hs) as [-> Hp].
    destruct (inv_run _ _ Hi s Hp) as ((o & Ho & Hn) & Hf & _).
    assert (delete 0 (pool st) = []) as ->. { by rewrite Hp. }
    pose proof (ready_returned st s out Hi Hp) as Hr.
    set (st1 := add_log (Ret s out) (set_pool [] st)) in *.
    assert (calls (log st1) = calls (log st)) as Hc1.
    { unfold st1. simpl. rewrite calls_app. simpl. by rewrite app_nil_r. }
    assert (∀ st2, ready ct st2 → current_object st2 = Some o →
              current_func st2 = Some s.2 →
              calls (log st2) = calls (log st) → all_steps st2 = all_steps st →
              ∃ more,
                calls (log (thread_finished ct func_from_def st2))
                = calls (log st) ++ more ∧
                more ++ all_steps (thread_finished ct func_from_def st2)
                = all_steps st) as Hgo.
    { intros st2 Hr2 Ho2 Hf2 Hc2 Hq2.
      destruct (ready_current _ _ Hr2 o Ho2) as [ro Hro].
      unfold thread_finished.
      rewrite (thread_finished_with_eq _ _ o s.2 ro Ho2 Hf2 Hro (ready_crash _ _ Hr2)).
      destruct (paused st2).
      - exists []. simpl. by rewrite app_nil_r, Hc2, Hq2.
      - destruct (start_thread_calls (finished o s.2 ro st2)
                    (ready_finished o s.2 ro st2 Hr2 Hro)) as (more & H1 & H2 & _).
        exists more. simpl in H1, H2. by rewrite H1, H2, Hc2, Hq2. }
    destruct out as [|err]; intros Heq; apply (inj Some) in Heq; subst st'.
    + by apply Hgo.
    + unfold thread_error. rewrite (thread_error_with_eq _ err st1 o s.2 Ho Hf).
      apply Hgo; [by apply ready_recorded|done..].
  - destruct (pause_bt st); [|done]. intros Heq; apply (inj Some) in Heq; subst st'.
    exists []. simpl. by rewrite app_nil_r.
  - destruct (continue_bt st) eqn:Hb; [|done].
    intros Heq; apply (inj Some) in Heq; subst st'.
    assert (pool st = []) as Hp.
    { pose proof (inv_pool _ _ Hi) as Hlen. pose proof (inv_run _ _ Hi) as Hrun.
      destruct (pool st) as [|s [|s2 l]]; simpl in *; [done| |lia].
      destruct (Hrun s eq_refl) as (_ & _ & Hcb & _). congruence. }
    destruct (start_thread_calls st (inv_ready st Hi Hp)) as (more & H1 & H2 & _).
    by exists more.
  - destruct (restart_bt st) eqn:Hb; [|done].
    intros Heq; apply (inj Some) in Heq; subst st'.
    assert (pool st = []) as Hp.
    { pose proof (inv_pool _ _ Hi) as Hlen. pose proof (inv_run _ _ Hi) as Hrun.
      destruct (pool st) as [|s [|s2 l]]; simpl in *; [done| |lia].
      destruct (Hrun s eq_refl) as (_ & _ & _ & Hrb & _). congruence. }
    unfold restart.
    set (st1 := set_pgbar 0 (set_console [] (init_lists ct (init_attributes st)))).
    assert (ready ct st1) as Hr1.
    { apply ready_display, ready_fresh; [apply Hi|done|].
      destruct Hi as [_ _ _ _ _ Hl _ _ _ _]. by rewrite Hp in Hl. }
    destruct (start_thread_calls st1 Hr1) as (more & H1 & H2 & _).
    exists more. split.
    + rewrite H1. unfold st1. simpl. by rewrite (init_lists_proj log).
    + rewrite H2. unfold st1, queue0. simpl. by rewrite !init_lists_steps.
Qed.

(** *** The slots of a worker's signals *)

Lemma handle_worker st (s : step) out :
  pool st = [s] →
  handle ct func_from_def (WorkerDone 0 out) st
  = Some match out with
         | Returned =>
             thread_finished ct func_from_def (add_log (Ret s out) (set_pool [] st))
         | Raised err =>
             thread_error ct func_from_def err (add_log (Ret s out) (set_pool [] st))
         end.
Proof. intros Hp. cbn [handle]. rewrite Hp. by destruct out. Qed.

(** [thread_finished] marks the step and its object as finished (0); then
    the run rests if a pause was requested, and goes on with the next step
    if not. *)
Lemma thread_finished_eq st o f :
  ready ct st → current_object st = Some o → current_func st = Some f →
  ∃ ro,
    all_objects st !! name o = Some ro ∧
    func_status (finished o f ro st) (name o) f = Some 0%Z ∧
    object_status (finished o f ro st) (name o) = Some 0%Z ∧
    ready ct (finished o f ro st) ∧
    thread_finished ct func_from_def st
    = if paused st then rest (finished o f ro st)
      else start_thread ct func_from_def (finished o f ro st).
Proof.
  intros Hr Ho Hf. destruct (ready_current _ _ Hr o Ho) as [ro Hro].
  exists ro. split; [done|]. split; [|split; [|split]].
  - unfold func_status. simpl. rewrite lookup_insert_eq. simpl.
    by rewrite lookup_insert_eq.
  - unfold object_status. simpl. by rewrite lookup_insert_eq.
  - by apply ready_finished.
  - unfold thread_finished.
    by rewrite (thread_finished_with_eq _ _ o f ro Ho Hf Hro (ready_crash _ _ Hr)).
Qed.

(** Whatever [start_thread] does next, the run is neither stopped nor are
    steps lost: what was called and what is queued make up the queue. *)
Lemma thread_finished_calls st o f :
  ready ct st → current_object st = Some o → current_func st = Some f →
  ∃ more,
    calls (log (thread_finished ct func_from_def st)) = calls (log st) ++ more ∧
    more ++ all_steps (thread_finished ct func_from_def st) = all_steps st ∧
    crash (thread_finished ct func_from_def st) = None ∧
    if paused st
    then more = [] ∧
         pool (thread_finished ct func_from_def st) = [] ∧
         continue_bt (thread_finished ct func_from_def st) = true ∧
         func_status (thread_finished ct func_from_def st) (name o) f = Some 0%Z ∧
         object_status (thread_finished ct func_from_def st) (name o) = Some 0%Z
    else match all_steps st with
         | [] => more = []
         | s2 :: _ => ∃ m, more = s2 :: m
         end.
Proof.
  intros Hr Ho Hf.
  pose proof (inv_crash _ _ (thread_finished_inv st o f Hr Ho Hf)) as Hcrash.
  destruct (thread_finished_eq st o f Hr Ho Hf) as (ro & Hro & Hfs & Hos & Hr' & Heq).
  rewrite Heq in *. destruct (paused st).
  - exists []. simpl. rewrite app_nil_r. repeat split; try done. apply Hr.
  - destruct (start_thread_calls (finished o f ro st) Hr') as (more & H1 & H2 & H3).
    exists more. simpl in H1, H2, H3. by rewrite H1, H2.
Qed.

(** What [start_thread] goes on to do keeps the errors recorded so far. *)
Lemma run_queue_errors q st :
  all_steps st = q → ready ct st →
  errors st ⊆ errors (run_queue ct func_from_def q st) ∧
  (error_count st ≤ error_count (run_queue ct func_from_def q st))%nat.
Proof.
  revert st. induction q as [|s q' IH]; intros st Hq Hr.
  - done.
  - assert (is_Some (all_objects st !! s.1)) as [ro Hro].
    { apply (ready_keys _ _ Hr). rewrite Hq. by left. }
    destruct (run_queue_cons s q' st ro Hro (ready_crash _ _ Hr))
      as (o & Ho & Hn & ->).
    assert (∀ o', current_object (entered ct s q' ro st) = Some o' → name o' = s.1)
      as Hname.
    { intros o'. rewrite Ho. by intros [= <-]. }
    destruct (blocking ct s.2).
    2:{ simpl. by rewrite entered_errors, entered_error_count. }
    set (ro2 := RunObject (type ro) (<[s.2 := 2%Z]> (functions ro)) 2).
    destruct (func_from_def (prog_count st) s.2 o) as [|e].
    + pose proof (ready_entered_ret s q' ro st Returned Hr Hq Hro Hname) as Hr'.
      rewrite (thread_finished_with_eq _ _ o s.2 ro2); simpl;
        [|done|done|by rewrite entered_all_objects, Hn, lookup_insert_eq
         |by rewrite entered_crash; apply Hr].
      rewrite entered_paused.
      match goal with |- context [run_queue _ _ q' ?x] =>
        destruct (IH x) as [H1 H2] end.
      * simpl. apply entered_all_steps.
      * apply ready_finished; [done|]. simpl.
        by rewrite entered_all_objects, Hn, lookup_insert_eq.
      * simpl in H1, H2. by rewrite entered_errors in H1; rewrite entered_error_count in H2.
    + pose proof (ready_entered_ret s q' ro st (Raised e) Hr Hq Hro Hname) as Hr'.
      rewrite (thread_error_with_eq _ _ _ o s.2); simpl; [|done..].
      rewrite (thread_finished_with_eq _ _ o s.2 ro2); simpl;
        [|done|done|by rewrite entered_all_objects, Hn, lookup_insert_eq
         |by rewrite entered_crash; apply Hr].
      rewrite entered_paused.
      match goal with |- context [run_queue _ _ q' ?x] =>
        destruct (IH x) as [H1 H2] end.
      * simpl. apply entered_all_steps.
      * apply ready_finished; [by apply ready_recorded|]. simpl.
        by rewrite entered_all_objects, Hn, lookup_insert_eq.
      * simpl in H1, H2. rewrite entered_errors in H1.
        rewrite entered_error_count in H1, H2. split; [|lia].
        etrans; [|exact H1]. apply insert_subseteq.
        rewrite <-(entered_errors s q' ro st), <-(entered_error_count s q' ro st).
        apply (error_cause_fresh (add_log (Ret s (Raised e))
                 (add_log (Call s true) (entered ct s q' ro st)))), Hr'.
Qed.

Lemma thread_finished_errors st o f :
  ready ct st → current_object st = Some o → current_func st = Some f →
  errors st ⊆ errors (thread_finished ct func_from_def st) ∧
  (error_count st ≤ error_count (thread_finished ct func_from_def st))%nat.
Proof.
  intros Hr Ho Hf.
  destruct (thread_finished_eq st o f Hr Ho Hf) as (ro & Hro & _ & _ & Hr' & ->).
  destruct (paused st); [done|].
  by apply (run_queue_errors _ (finished o f ro st)).
Qed.

End Slots.

End RunDialogFacts.

(** ** The scheduler of the run dialog: what the specification says of it *)

Module RunDialogSpec.
Import RunDialog RunDialogFacts.

(** C1 (as amended). The queue that [init_lists] builds from the selection
    (in [__init__] and in [restart]) is the steps of the selected FSMRI with
    the selected FSMRI functions, then those of the selected MEEG, then
    those of the selected groups, then one step per selected other function
    under the blank object name. Every object a step names has an entry in
    [all_objects]; every entry and every function of every entry has
    status 1 (pending); and when no name is selected under two target
    classes, every queued (object, function) pair has status 1. *)
Theorem init_lists_cross_product (ct : controller) (st0 : state) :
  let st := init_lists ct (init_attributes st0) in
  all_steps st
  = steps_of (sel_fsmri ct) (sel_fsmri_funcs ct)
    ++ steps_of (sel_meeg ct) (sel_meeg_funcs ct)
    ++ steps_of (sel_groups ct) (sel_group_funcs ct)
    ++ steps_of [blank_name] (sel_other_funcs ct)
  ∧ (∀ s, s ∈ all_steps st → is_Some (all_objects st !! s.1))
  ∧ all_pending (all_objects st)
  ∧ (distinct_names ct → ∀ s, s ∈ all_steps st → step_pending st s).
Proof.
  intros st. subst st. split; [apply init_lists_steps|].
  destruct (init_lists_ok ct st0) as [Hp Hk].
  split; [done|]. split; [done|]. apply init_lists_pending.
Qed.

(** C1 as stated fails when a FSMRI and a MEEG of the same name are
    selected: the table is keyed by name alone, the entry of the MEEG
    replaces that of the FSMRI, and the queued pair of the FSMRI and its
    function has no status at all. *)
Lemma init_lists_shared_name_unmarked :
  let st := init_lists shared_ct (init_attributes blank) in
  ("sub1", "prepare_bem") ∈ all_steps st
  ∧ func_status st "sub1" "prepare_bem" = None
  ∧ ¬ step_pending st ("sub1", "prepare_bem").
Proof.
  split; [|split].
  - vm_compute. by left.
  - reflexivity.
  - intros (ro & Hro & _ & Hf). vm_compute in Hro.
    injection Hro as <-. vm_compute in Hf. discriminate.
Qed.




(** C3 (as amended). At every point of a run every status of the table,
    of an object or of a function, is one of the three values the code
    writes: 0 (finished), 1 (pending), 2 (running). There is no status for
    an error: when the function of the running step raises, the step and
    its object are marked 0, and the table is the one the run has when
    the function returns. *)
Theorem statuses_three_valued
    (ct : controller) (func_from_def : nat → string → loaded → outcome)
    (st : state) :
  reachable ct func_from_def st →
  statuses_ok (all_objects st) ∧
  ∀ s err, pool st = [s] →
    ∃ o ro,
      current_object st = Some o ∧ name o = s.1 ∧
      all_objects st !! s.1 = Some ro ∧
      let st_err := finished o s.2 ro
        (recorded o s.2 err (add_log (Ret s (Raised err)) (set_pool [] st))) in
      let st_ok := finished o s.2 ro (add_log (Ret s Returned) (set_pool [] st)) in
      handle ct func_from_def (WorkerDone 0 (Raised err)) st
      = Some (if paused st then rest st_err else start_thread ct func_from_def st_err) ∧
      handle ct func_from_def (WorkerDone 0 Returned) st
      = Some (if paused st then rest st_ok else start_thread ct func_from_def st_ok) ∧
      func_status st_err s.1 s.2 = Some 0%Z ∧
      object_status st_err s.1 = Some 0%Z ∧
      all_objects st_err = all_objects st_ok.
Proof.
  intros Hre. pose proof (reachable_inv _ _ _ Hre) as Hi.
  split; [apply Hi|]. intros s err Hp.
  destruct (inv_run _ _ Hi s Hp) as ((o & Ho & Hn) & Hf & _).
  pose proof (ready_returned ct st s (Raised err) Hi Hp) as Hr1.
  pose proof (ready_returned ct st s Returned Hi Hp) as Hr2.
  apply (ready_recorded ct o s.2 err) in Hr1.
  destruct (thread_finished_eq ct func_from_def _ o s.2 Hr1 Ho Hf)
    as (ro & Hro & Hfs & Hos & _ & Heq1).
  destruct (thread_finished_eq ct func_from_def _ o s.2 Hr2 Ho Hf)
    as (ro' & Hro' & _ & _ & _ & Heq2).
  simpl in Hro, Hro'. rewrite Hro in Hro'. injection Hro' as <-.
  exists o, ro. rewrite <-Hn. split; [done|]. split; [done|]. split; [done|].
  cbv zeta. split; [|split; [|done]].
  - rewrite (handle_worker _ _ _ s _ Hp). unfold thread_error.
    rewrite (thread_error_with_eq _ err (add_log (Ret s (Raised err)) (set_pool [] st))
               o s.2 Ho Hf).
    f_equal. exact Heq1.
  - rewrite (handle_worker _ _ _ s _ Hp). f_equal. exact Heq2.
Qed.

Lemma statuses_three_valued_witness :
  reachable demo_ct demo_run (init demo_ct demo_run)
  ∧ statuses_ok (all_objects (init demo_ct demo_run)).
Proof.
  assert (reachable demo_ct demo_run (init demo_ct demo_run)) as Hre.
  { exists []. reflexivity. }
  split; [exact Hre|].
  exact (proj1 (statuses_three_valued demo_ct demo_run _ Hre)).
Defined.

(** C3 as stated fails: the step whose function raised has the same status
    as the step whose function returned, 0, and so has its object. *)
Lemma error_status_is_done_status :
  ∃ st_err st_ok,
    handle demo_ct demo_run (WorkerDone 0 (Raised "boom")) (init demo_ct demo_run)
    = Some st_err
    ∧ handle demo_ct demo_run (WorkerDone 0 Returned) (init demo_ct demo_run)
      = Some st_ok
    ∧ func_status st_err "fs1" "prepare_bem" = Some 0%Z
    ∧ func_status st_ok "fs1" "prepare_bem" = Some 0%Z
    ∧ object_status st_err "fs1" = Some 0%Z
    ∧ object_status st_ok "fs1" = Some 0%Z
    ∧ all_objects st_err = all_objects st_ok.
Proof.
  eexists _, _. split; [reflexivity|]. split; [reflexivity|].
  repeat split; vm_compute; reflexivity.
Qed.







End RunDialogSpec.

(** ** Argument resolution: facts *)

Module ArgsFacts.
Import Args.

Lemma remove_filter (x : string) (l : list string) :
  NoDup l →
  (if decide (x ∈ l) then remove x l else l) = filter (λ a, a ≠ x) l.
Proof.
  induction l as [|y l IH]; intros Hnd; [by case_decide|].
  apply NoDup_cons in Hnd as [Hy Hnd]. specialize (IH Hnd).
  simpl. destruct (decide (y = x)) as [->|Hne].
  - rewrite decide_True by left. rewrite filter_cons_False by (intros H; by apply H).
    rewrite decide_False in IH by done. done.
  - rewrite filter_cons_True by done.
    destruct (decide (x ∈ l)) as [Hin|Hnin].
    + rewrite decide_True by (by right). by f_equal.
    + rewrite decide_False by (intros [?|?]%elem_of_cons; congruence). by f_equal.
Qed.

Lemma arg_names_of_spec (params : list string) :
  NoDup params → arg_names_of params = spec_names params.
Proof.
  intros Hnd. unfold arg_names_of, spec_names.
  rewrite (remove_filter "args" params Hnd).
  rewrite (remove_filter "kwargs"); [|by apply NoDup_filter].
  rewrite list_filter_filter. apply list_filter_iff. intros a. tauto.
Qed.

Section Facts.

Context {V : Type}.
Variable QS : gmap string V.
Variable obj : object V.
Variable c : controller V.
Variable preset : gmap string V.
Hypothesis Hct : ct obj = Some c.
Hypothesis Hpreset : parameters (pr obj) !! p_preset (pr obj) = Some preset.

Lemma spec_aliases_other (a : string) :
  a ≠ "ct" → a ≠ "controller" → a ≠ "pr" → a ≠ "project" →
  a ≠ "meeg" → a ≠ "fsmri" → a ≠ "group" →
  (spec_aliases : gmap string (arg V)) !! a = None.
Proof.
  intros. unfold spec_aliases. simpl.
  by rewrite !lookup_insert_ne, lookup_empty.
Qed.

(** The chain of [elif] takes the first source that has the name. *)
Lemma lookup_arg_spec (a : string) :
  lookup_arg QS obj a
  = match spec_first (spec_sources QS c preset obj) a with
    | Some v => Ok v
    | None => Raise (not_found a)
    end.
Proof.
  unfold lookup_arg. rewrite Hct, Hpreset.
  repeat case_decide; subst; try reflexivity.
  simpl. rewrite spec_aliases_other by done.
  rewrite !lookup_fmap.
  destruct (vars (pr obj) !! a); [done|].
  destruct (preset !! a); [done|].
  destruct (settings c !! a); [done|].
  by destruct (QS !! a).
Qed.

Lemma bind_args_spec (l : list string) (kw : gmap string (arg V)) :
  match bind_args QS obj l kw with
  | Ok kw' =>
      (∀ a, a ∈ l → is_Some (spec_first (spec_sources QS c preset obj) a)) ∧
      ∀ k, kw' !! k = if decide (k ∈ l)
                      then spec_first (spec_sources QS c preset obj) k
                      else kw !! k
  | Raise e =>
      ∃ a, a ∈ l ∧ spec_first (spec_sources QS c preset obj) a = None ∧
           e = not_found a
  end.
Proof.
  revert kw. induction l as [|a l IH]; intros kw.
  - simpl. split; [by intros a ?%elem_of_nil|done].
  - cbn [bind_args]. rewrite lookup_arg_spec.
    destruct (spec_first (spec_sources QS c preset obj) a) as [v|] eqn:Ha.
    + specialize (IH (<[a := v]> kw)).
      destruct (bind_args QS obj l (<[a := v]> kw)) as [kw'|e].
      * destruct IH as [Hall Hkw]. split.
        { intros b [->|Hb]%elem_of_cons; [by rewrite Ha|by apply Hall]. }
        intros k. rewrite Hkw. destruct (decide (k ∈ l)) as [Hk|Hk].
        { by rewrite decide_True by (by right). }
        destruct (decide (k = a)) as [->|Hne].
        { rewrite decide_True by left. by rewrite lookup_insert_eq. }
        rewrite decide_False by (intros [?|?]%elem_of_cons; congruence).
        by rewrite lookup_insert_ne.
      * destruct IH as (b & Hb & Hnone & ->). exists b. split; [by right|done].
    + exists a. split; [by left|done].
Qed.

End Facts.

End ArgsFacts.

(** ** Argument resolution: what the specification says of it *)

Module ArgsSpec.
Import Args ArgsFacts.



End ArgsSpec.

(** ** The loading classes: facts *)

Module LoadingFacts.
Import Loading.

(** *** Running method bodies *)

Lemma bind_eq {A B} (m : M A) (k : A → M B) st :
  (m ≫= k) st
  = match m st with
    | (Ok a, st') => k a st'
    | (Raise e, st') => (Raise e, st')
    end.
Proof. reflexivity. Qed.

Lemma bind_run {A B} (m : M A) (k : A → M B) st a st' :
  m st = (Ok a, st') → (m ≫= k) st = k a st'.
Proof. intros H. by rewrite bind_eq, H. Qed.

Lemma bind_eval {A B} (m : M A) (k : A → M B) st r1 r :
  m st = r1 →
  match r1 with
  | (Ok a, st') => k a st'
  | (Raise e, st') => (Raise e, st')
  end = r →
  (m ≫= k) st = r.
Proof. intros <- <-. apply bind_eq. Qed.

Lemma try_eval {A} (m : M A) (catches : exc → bool) (h : exc → M A) st r1 r :
  m st = r1 →
  match r1 with
  | (Raise e, st') => if catches e then h e st' else (Raise e, st')
  | r => r
  end = r →
  try_except m catches h st = r.
Proof. intros <- <-. unfold try_except. by destruct (m st) as [[?|?] ?]. Qed.

Lemma in_frame_eval {A} name (body : M A) st r1 r :
  body (set_stack (name :: stack st) st) = r1 →
  (r1.1, set_stack (stack st) r1.2) = r →
  in_frame name body st = r.
Proof. intros <- <-. unfold in_frame. by destruct (body _). Qed.

Lemma new_object_eval (init : M unit) st r1 r :
  init (set_self [] st) = r1 →
  match r1 with
  | (Ok _, st') => (Ok (VObj (self st')), set_self (self st) st')
  | (Raise e, st') => (Raise e, set_self (self st) st')
  end = r →
  new_object init st = r.
Proof. intros <- <-. reflexivity. Qed.

Lemma lookup_key_Some {A} (m : gmap string A) k a st :
  m !! k = Some a → lookup_key m k st = (Ok a, st).
Proof. intros H. unfold lookup_key. by rewrite H. Qed.

Lemma lookup_key_None {A} (m : gmap string A) k st :
  m !! k = None → lookup_key m k st = (Raise (KeyError k), st).
Proof. intros H. unfold lookup_key. by rewrite H. Qed.

Lemma get_setting_eq setting st :
  get_setting setting st
  = (match setting_of (mw (wd st)) setting with
     | Some v => Ok v
     | None => Raise (KeyError setting)
     end, st).
Proof.
  unfold get_setting, setting_of, try_except, lookup_key. rewrite bind_eq. cbn.
  destruct (settings (mw (wd st)) !! setting); [done|]. cbn.
  by destruct (default_settings (mw (wd st)) !! setting).
Qed.

Lemma dict_get_set k v d : dict_get k (dict_set k v d) = Some v.
Proof.
  induction d as [|[k' v'] d IH]; cbn.
  - by rewrite String.eqb_refl.
  - destruct (String.eqb k' k) eqn:E; cbn.
    + by rewrite String.eqb_refl.
    + by rewrite E.
Qed.

Lemma dict_get_set_ne k k' v d :
  k ≠ k' → dict_get k (dict_set k' v d) = dict_get k d.
Proof.
  intros Hne. induction d as [|[k2 v2] d IH]; cbn.
  - destruct (String.eqb k' k) eqn:E; [|done].
    apply String.eqb_eq in E. congruence.
  - destruct (String.eqb k2 k') eqn:E; cbn.
    + apply String.eqb_eq in E as ->.
      destruct (String.eqb k' k) eqn:E2; [|done].
      apply String.eqb_eq in E2. congruence.
    + by rewrite IH.
Qed.

Lemma dict_set_set k v v' d : dict_set k v (dict_set k v' d) = dict_set k v d.
Proof.
  induction d as [|[k2 v2] d IH]; cbn.
  - by rewrite String.eqb_refl.
  - destruct (String.eqb k2 k) eqn:E; cbn.
    + by rewrite String.eqb_refl.
    + by rewrite E, IH.
Qed.

Lemma add_output_nil w : add_output [] [] w = w.
Proof. unfold add_output. cbn. by rewrite !app_nil_r. Qed.

Lemma add_output_add_output l1 b1 l2 b2 w :
  add_output l2 b2 (add_output l1 b1 w) = add_output (l1 ++ l2) (b1 ++ b2) w.
Proof. unfold add_output. cbn. by rewrite !app_assoc. Qed.

Lemma warn_eq suppress title warning slf stk w :
  warn suppress title warning (State slf stk w)
  = (Ok tt, State slf stk (warned true suppress title warning w)).
Proof.
  unfold warn, print, warning_box, modify_world, warned, add_output.
  destruct suppress; cbn; [|done]. by rewrite app_nil_r.
Qed.

Lemma warned_false suppress title warning w :
  warned false suppress title warning w = w.
Proof. apply add_output_nil. Qed.

Lemma pr_warned b s t x w : pr (warned b s t x w) = pr w.
Proof. reflexivity. Qed.
Lemma mw_warned b s t x w : mw (warned b s t x w) = mw w.
Proof. reflexivity. Qed.
Lemma fs_warned b s t x w : fs (warned b s t x w) = fs w.
Proof. reflexivity. Qed.
Lemma reads_warned b s t x w : reads (warned b s t x w) = reads w.
Proof. reflexivity. Qed.

#[local] Arguments warned : simpl never.
#[local] Arguments join : simpl never.
#[local] Arguments fmt : simpl never.
#[local] Arguments String.append : simpl never.
#[local] Arguments path_name : simpl never.
#[local] Arguments pretty : simpl never.

(** Running a method body on a state, one statement at a time: the goal
    is [m st = ?r], and [?r] becomes what [m] returns or raises and the
    state it leaves. Lookups in the project are resolved with the
    hypotheses at hand. *)
Ltac head_of t :=
  lazymatch t with
  | ?f _ => head_of f
  | _ => t
  end.

Ltac meval_with custom :=
  lazymatch goal with
  | |- (?m ≫= ?k) ?st = _ =>
      eapply (bind_eval m k st);
      [meval_with custom | cbv beta iota; meval_with custom]
  | |- try_except ?m ?c ?h ?st = _ =>
      eapply (try_eval m c h st);
      [meval_with custom
      |cbn [is_KeyError is_RuntimeError is_OSError is_FileNotFoundError orb];
       cbv beta iota; meval_with custom]
  | |- new_object ?i ?st = _ =>
      eapply (new_object_eval i st);
      [cbn [set_self self stack wd]; meval_with custom | cbn; reflexivity]
  | |- in_frame ?n ?b ?st = _ =>
      eapply (in_frame_eval n b st);
      [cbn [stack set_stack]; meval_with custom | cbn; reflexivity]
  | |- lookup_key ?m ?k ?st = _ =>
      cbn; rewrite ?pr_warned, ?mw_warned;
      first [ erewrite lookup_key_Some by eassumption
            | erewrite lookup_key_None by eassumption ];
      reflexivity
  | |- get_setting ?s ?st = _ =>
      rewrite (get_setting_eq s st); cbn; rewrite ?mw_warned;
      match goal with H : setting_of _ s = _ |- _ => rewrite H end;
      reflexivity
  | |- warn ?s ?t ?x ?st = _ => rewrite (warn_eq s t x); reflexivity
  | |- set_attr ?a ?v ?st = _ =>
      unfold set_attr, set_self;
      lazy beta iota zeta delta [dict_set String.eqb Ascii.eqb Bool.eqb self stack wd];
      reflexivity
  | |- get_attr ?a (State ?slf ?stk ?w) = _ =>
      unfold get_attr;
      lazy beta iota zeta delta [dict_get String.eqb Ascii.eqb Bool.eqb self stack wd];
      first [ reflexivity
            | rewrite ?dict_get_set, ?dict_get_set_ne by done;
              match goal with H : dict_get _ _ = _ |- _ => rewrite H end;
              reflexivity ]
  | |- (_, _) = _ => reflexivity
  | |- ?lhs = _ =>
      first
        [ solve [custom]
        | let h := head_of lhs in
          first [ progress (unfold h; unfold set_self, set_wd, set_stack; cbn)
                | progress (unfold set_self, set_wd, set_stack; cbn)
                | progress (rewrite ?pr_warned, ?mw_warned; cbn)
                | progress (rewrite ?dict_get_set, ?dict_get_set_ne by done; cbn)
                | progress (rewrite ?bool_decide_true, ?bool_decide_false by done; cbn)
                | match goal with H : _ = _ |- _ => progress (rewrite H; cbn) end ];
          meval_with custom ]
  end.

Ltac meval := meval_with fail.

(** *** Construction *)

Lemma str_eq_true v s : str_eq v s = true → v = VStr s.
Proof.
  destruct v; try done. cbn. intros H. by apply bool_decide_eq_true in H as ->.
Qed.

Section Construction.

(** The world a constructor is called in, up to what was printed and
    shown, and what the constructors need of it: the current preset has
    parameters, among them those that name files, the settings the base
    class reads have values, and the main window has QSettings. *)
Variable w : world.
Variable p : gmap string value.
Variable qs : gmap string value.
Variables save_plots img_format dpi spacing morph_to tfr_method : value.
Hypothesis Hp : parameters (pr w) !! p_preset (pr w) = Some p.
Hypothesis Hsave_plots : setting_of (mw w) "save_plots" = Some save_plots.
Hypothesis Himg_format : setting_of (mw w) "img_format" = Some img_format.
Hypothesis Hdpi : setting_of (mw w) "dpi" = Some dpi.
Hypothesis Hspacing : p !! "source_space_spacing" = Some spacing.
Hypothesis Hmorph_to : p !! "morph_to" = Some morph_to.
Hypothesis Htfr_method : p !! "tfr_method" = Some tfr_method.
Hypothesis Hqs : qsettings (mw w) = Some qs.

(** [FSMRI(name, main_win)] returns an object and leaves the state as it
    is: nothing is read, written or printed. *)
Lemma FSMRI_eq name slf stk w' :
  pr w' = pr w → mw w' = mw w →
  FSMRI name (State slf stk w')
  = (Ok (VObj (FSMRI_object name w)), State slf stk w').
Proof.
  intros Hpr Hmw. unfold FSMRI_object.
  evar (r : (result value * state)%type).
  assert (FSMRI name (State [] [] w) = r) as Hr by (subst r; meval).
  rewrite Hr. subst r. cbn.
  destruct w' as [pr' mw' ? ? ? ? ? ? ?]. cbn in Hpr, Hmw. subst pr' mw'.
  etrans; [meval|]. reflexivity.
Qed.

Lemma FSMRI_object_name name :
  dict_get "name" (FSMRI_object name w) = Some (VStr name).
Proof.
  unfold FSMRI_object.
  evar (r : (result value * state)%type).
  assert (FSMRI name (State [] [] w) = r) as Hr by (subst r; meval).
  rewrite Hr. reflexivity.
Qed.

Lemma assign_erm_eq name suppress slf stk w' nm :
  pr w' = pr w → dict_get "name" slf = Some nm →
  assign_erm name suppress (State slf stk w')
  = (Ok tt,
     State (dict_set "erm" (VStr (default "None" (meeg_to_erm (pr w) !! name))) slf)
       stk
       (warned (missing (meeg_to_erm (pr w)) name) suppress "No ERM"
          (no_erm_warning nm) w')).
Proof.
  intros Hpr Hn. unfold missing.
  destruct w' as [pr' ? ? ? ? ? ? ? ?]. cbn in Hpr. subst pr'.
  destruct (meeg_to_erm (pr w) !! name) as [erm|] eqn:E; cbn.
  - rewrite warned_false. meval.
  - meval.
Qed.

Lemma assign_bad_channels_eq name suppress slf stk w' nm :
  pr w' = pr w → dict_get "name" slf = Some nm →
  assign_bad_channels name suppress (State slf stk w')
  = (Ok tt,
     State (dict_set "bad_channels"
              (VList (VStr <$> default [] (meeg_bad_channels (pr w) !! name))) slf)
       stk
       (warned (missing (meeg_bad_channels (pr w)) name) suppress
          "No Bad Channels" (no_bad_channels_warning nm) w')).
Proof.
  intros Hpr Hn. unfold missing.
  destruct w' as [pr' ? ? ? ? ? ? ? ?]. cbn in Hpr. subst pr'.
  destruct (meeg_bad_channels (pr w) !! name) as [bads|] eqn:E; cbn.
  - rewrite warned_false. meval.
  - meval.
Qed.

Lemma assign_event_id_eq name suppress slf stk w' nm :
  pr w' = pr w → dict_get "name" slf = Some nm →
  assign_event_id name suppress (State slf stk w')
  = (Ok tt,
     State (dict_set "event_id"
              (VDict (prod_map id VInt <$> default [] (meeg_event_id (pr w) !! name)))
              slf)
       stk
       (warned (missing_or_empty (meeg_event_id (pr w)) name) suppress
          "No Event-ID" (no_event_id_warning nm) w')).
Proof.
  intros Hpr Hn. unfold missing_or_empty.
  destruct w' as [pr' ? ? ? ? ? ? ? ?]. cbn in Hpr. subst pr'.
  destruct (meeg_event_id (pr w) !! name) as [[|x l]|] eqn:E; cbn.
  - etrans; [meval|]. by rewrite dict_set_set.
  - rewrite warned_false. meval.
  - meval.
Qed.

Lemma assign_sel_trials_eq name suppress slf stk w' nm :
  pr w' = pr w → dict_get "name" slf = Some nm →
  assign_sel_trials name suppress (State slf stk w')
  = (Ok tt,
     State (dict_set "sel_trials"
              (VList (VStr <$> default [] (sel_event_id (pr w) !! name))) slf)
       stk
       (warned (missing_or_empty (sel_event_id (pr w)) name) suppress
          "No Trials" (no_trials_warning nm) w')).
Proof.
  intros Hpr Hn. unfold missing_or_empty.
  destruct w' as [pr' ? ? ? ? ? ? ? ?]. cbn in Hpr. subst pr'.
  destruct (sel_event_id (pr w) !! name) as [[|x l]|] eqn:E; cbn.
  - etrans; [meval|]. by rewrite dict_set_set.
  - rewrite warned_false. meval.
  - meval.
Qed.

Lemma assign_fsmri_eq name fsmri suppress slf stk w' nm :
  pr w' = pr w → mw w' = mw w → dict_get "name" slf = Some nm →
  (∀ f, fsmri = Some f → is_Some (dict_get "name" f)) →
  assign_fsmri name fsmri suppress (State slf stk w')
  = (Ok tt,
     State (dict_set "fsmri" (VObj (assigned_fsmri name fsmri w)) slf) stk
       (warned (missing (meeg_to_fsmri (pr w)) name) suppress "No MRI"
          (no_fsmri_warning nm) w')).
Proof.
  intros Hpr Hmw Hn Hf. unfold missing, assigned_fsmri.
  destruct w' as [pr' mw' ? ? ? ? ? ? ?]. cbn in Hpr, Hmw. subst pr' mw'.
  destruct (meeg_to_fsmri (pr w) !! name) as [a|] eqn:E;
    (destruct fsmri as [f0|];
     [destruct (Hf f0 eq_refl) as [fname Hfn]; rewrite ?Hfn;
      try destruct (str_eq fname a) eqn:Heq|]); cbn;
    rewrite ?warned_false;
    meval_with ltac:(rewrite FSMRI_eq by reflexivity; reflexivity).
Qed.

Lemma assigned_fsmri_name name fsmri :
  (∀ f, fsmri = Some f → is_Some (dict_get "name" f)) →
  dict_get "name" (assigned_fsmri name fsmri w)
  = Some (VStr (default "None" (meeg_to_fsmri (pr w) !! name))).
Proof.
  intros Hf. unfold assigned_fsmri.
  destruct (meeg_to_fsmri (pr w) !! name) as [a|]; cbn;
    [|apply FSMRI_object_name].
  destruct fsmri as [f0|]; [|apply FSMRI_object_name].
  destruct (Hf f0 eq_refl) as [fname Hfn]. rewrite Hfn.
  destruct (str_eq fname a) eqn:Heq; [|apply FSMRI_object_name].
  by apply str_eq_true in Heq as ->.
Qed.

Ltac blocks :=
  first
    [ erewrite assign_erm_eq by reflexivity
    | erewrite assign_fsmri_eq by (reflexivity || assumption)
    | erewrite assign_bad_channels_eq by reflexivity
    | erewrite assign_event_id_eq by reflexivity
    | erewrite assign_sel_trials_eq by reflexivity
    | rewrite FSMRI_eq by reflexivity ];
  reflexivity.

(** [MEEG.__init__] on a new object: it returns, with the attributes of
    the assignments or their defaults, in the world after the warnings. *)
Lemma MEEG_init_eq name fsmri suppress stk w' :
  pr w' = pr w → mw w' = mw w →
  (∀ f, fsmri = Some f → is_Some (dict_get "name" f)) →
  ∃ slf,
    MEEG_init name fsmri suppress (State [] stk w')
    = (Ok tt, State slf stk (MEEG_warned name suppress w'))
    ∧ dict_get "name" slf = Some (VStr name)
    ∧ dict_get "erm" slf
      = Some (VStr (default "None" (meeg_to_erm (pr w) !! name)))
    ∧ dict_get "fsmri" slf = Some (VObj (assigned_fsmri name fsmri w))
    ∧ dict_get "bad_channels" slf
      = Some (VList (VStr <$> default [] (meeg_bad_channels (pr w) !! name)))
    ∧ dict_get "event_id" slf
      = Some (VDict (prod_map id VInt <$> default [] (meeg_event_id (pr w) !! name)))
    ∧ dict_get "sel_trials" slf
      = Some (VList (VStr <$> default [] (sel_event_id (pr w) !! name))).
Proof.
  intros Hpr Hmw Hf.
  destruct w' as [pr' mw' ? ? ? ? ? ? ?]. cbn in Hpr, Hmw. subst pr' mw'.
  pose proof (assigned_fsmri_name name fsmri Hf) as Hfname.
  unfold MEEG_warned.
  eexists. split.
  - meval_with blocks.
  - cbn. repeat split; reflexivity.
Qed.

Lemma MEEG_init_ok name fsmri suppress stk w' :
  pr w' = pr w → mw w' = mw w →
  (∀ f, fsmri = Some f → is_Some (dict_get "name" f)) →
  ∃ slf w'',
    MEEG_init name fsmri suppress (State [] stk w') = (Ok tt, State slf stk w'')
    ∧ dict_get "name" slf = Some (VStr name)
    ∧ dict_get "erm" slf
      = Some (VStr (default "None" (meeg_to_erm (pr w) !! name)))
    ∧ dict_get "fsmri" slf = Some (VObj (assigned_fsmri name fsmri w))
    ∧ dict_get "bad_channels" slf
      = Some (VList (VStr <$> default [] (meeg_bad_channels (pr w) !! name)))
    ∧ dict_get "event_id" slf
      = Some (VDict (prod_map id VInt <$> default [] (meeg_event_id (pr w) !! name)))
    ∧ dict_get "sel_trials" slf
      = Some (VList (VStr <$> default [] (sel_event_id (pr w) !! name))).
Proof.
  intros Hpr Hmw Hf.
  destruct (MEEG_init_eq name fsmri suppress stk w' Hpr Hmw Hf) as (slf & H).
  by exists slf, (MEEG_warned name suppress w').
Qed.

End Construction.
End LoadingFacts.

(** ** The load methods: facts *)

Module CachingFacts.
Import Loading LoadingFacts.

(** *** What a statement that returned has done *)

Lemma bind_inv {A B} (m : M A) (k : A → M B) st b st' :
  (m ≫= k) st = (Ok b, st') →
  ∃ a st1, m st = (Ok a, st1) ∧ k a st1 = (Ok b, st').
Proof.
  rewrite bind_eq. destruct (m st) as [[a|e] st1]; [|done].
  intros H. by exists a, st1.
Qed.

Lemma get_attr_inv attr st v st' :
  get_attr attr st = (Ok v, st') → dict_get attr (self st) = Some v ∧ st' = st.
Proof.
  unfold get_attr. destruct (dict_get attr (self st)); [|done].
  by intros [= -> ->].
Qed.

Lemma get_attr_run attr st v :
  dict_get attr (self st) = Some v → get_attr attr st = (Ok v, st).
Proof. intros H. unfold get_attr. by rewrite H. Qed.

Lemma set_attr_inv attr v st x st' :
  set_attr attr v st = (Ok x, st') → st' = set_self (dict_set attr v (self st)) st.
Proof. by intros [= _ <-]. Qed.

Lemma as_str_inv v st s st' : as_str v st = (Ok s, st') → v = VStr s ∧ st' = st.
Proof. destruct v; try done. by intros [= -> ->]. Qed.

Lemma as_list_inv v st l st' : as_list v st = (Ok l, st') → v = VList l ∧ st' = st.
Proof. destruct v; try done. by intros [= -> ->]. Qed.

Lemma as_dict_inv v st d st' : as_dict v st = (Ok d, st') → v = VDict d ∧ st' = st.
Proof. destruct v; try done. by intros [= -> ->]. Qed.

Lemma lookup_key_inv {A} (m : gmap string A) k st a st' :
  lookup_key m k st = (Ok a, st') → m !! k = Some a ∧ st' = st.
Proof. unfold lookup_key. destruct (m !! k); [|done]. by intros [= -> ->]. Qed.

Lemma self_p_inv key st v st' :
  self_p key st = (Ok v, st') →
  st' = st ∧
  ∃ preset p, dict_get "p_preset" (self st) = Some (VStr preset) ∧
              parameters (pr (wd st)) !! preset = Some p ∧ p !! key = Some v.
Proof.
  unfold self_p. intros H.
  apply bind_inv in H as (preset & s1 & H1 & H).
  apply bind_inv in H1 as (x & s0 & H0 & H1).
  apply get_attr_inv in H0 as [Hx ->]. apply as_str_inv in H1 as [-> ->].
  apply bind_inv in H as (w & s2 & H2 & H). injection H2 as <- <-.
  apply bind_inv in H as (p & s3 & H3 & H).
  apply lookup_key_inv in H3 as [Hp ->]. apply lookup_key_inv in H as [Hv ->].
  split; [done|]. by exists preset, p.
Qed.

Lemma self_p_run key st preset p v :
  dict_get "p_preset" (self st) = Some (VStr preset) →
  parameters (pr (wd st)) !! preset = Some p → p !! key = Some v →
  self_p key st = (Ok v, st).
Proof.
  intros Hx Hp Hv. unfold self_p.
  rewrite bind_eq, bind_eq, (get_attr_run _ _ _ Hx). cbn.
  rewrite bind_eq. cbn. rewrite bind_eq, (lookup_key_Some _ _ _ _ Hp).
  by apply lookup_key_Some.
Qed.

Ltac step H := rewrite !bind_eq, H; cbv beta iota.

(** *** Loading through the cache *)

(** When a method that ends with [return self.attr] has returned an
    object, the attribute holds it, and the method returns it again
    without running the guarded body. *)
Lemma guarded_again attr body st v st1 :
  (guarded attr body ;; get_attr attr) st = (Ok v, st1) →
  is_none v = false →
  (guarded attr body ;; get_attr attr) st1 = (Ok v, st1).
Proof.
  intros H Hv. apply bind_inv in H as ([] & s1 & _ & H).
  apply get_attr_inv in H as [Hattr ->].
  unfold guarded. rewrite !bind_eq, (get_attr_run _ _ _ Hattr), Hv. cbn.
  by apply get_attr_run.
Qed.

Lemma dict_set_same k v d : dict_get k d = Some v → dict_set k v d = d.
Proof.
  induction d as [|[k' v'] d IH]; cbn; [done|].
  destruct (String.eqb k' k) eqn:E.
  - apply String.eqb_eq in E as ->. by intros [= ->].
  - intros H. by rewrite IH.
Qed.

Lemma filter_ext_in {A} (P Q : A → Prop) `{∀ x, Decision (P x)}
    `{∀ x, Decision (Q x)} (l : list A) :
  (∀ x, x ∈ l → P x ↔ Q x) → filter P l = filter Q l.
Proof.
  induction l as [|x l IH]; intros Hext; [done|].
  assert (filter P l = filter Q l) as IH'.
  { apply IH. intros y Hy. apply Hext. by right. }
  destruct (decide (P x)) as [HP|HP].
  - rewrite !filter_cons_True; [by f_equal|by apply Hext; [left|]|done].
  - rewrite !filter_cons_False; [done| |done].
    intros HQ. apply HP, Hext; [by left|done].
Qed.

(** Picking the channel types a second time changes nothing. *)
Lemma present_types_picked sel existing :
  present_types sel (picked_types (present_types sel existing) existing)
  = present_types sel existing.
Proof.
  unfold present_types, picked_types. apply filter_ext_in. intros x Hx.
  rewrite !list_elem_of_filter. tauto.
Qed.

Lemma picked_types_idemp sel existing :
  picked_types sel (picked_types sel existing) = picked_types sel existing.
Proof.
  unfold picked_types. rewrite list_filter_filter.
  apply list_filter_iff. intros x. tauto.
Qed.

Lemma print_eq line st : print line st = (Ok tt, say line st).
Proof. reflexivity. Qed.

(** [pick_types_helper]: what it needs, returns and does. *)
Lemma pick_types_helper_inv data st v st' :
  pick_types_helper data st = (Ok v, st') →
  ∃ sel content existing bads description,
    self_p "ch_types" st = (Ok (VList sel), st) ∧
    data = VData content existing bads description ∧
    v = VData content
          (picked_types (present_types (strings_of sel) existing) existing)
          bads description ∧
    st' = say ("Picked Types: "
               +:+ repr_list (present_types (strings_of sel) existing)) st.
Proof.
  unfold pick_types_helper. intros H.
  apply bind_inv in H as (sel & s1 & H1 & H).
  apply bind_inv in H1 as (x & s0 & H0 & H1).
  pose proof H0 as H0'. apply self_p_inv in H0' as [-> _].
  apply as_list_inv in H1 as [-> ->].
  destruct data as [| | | | |content existing bads description| | |]; try done.
  apply bind_inv in H as ([] & s2 & H2 & H).
  rewrite print_eq in H2. injection H2 as <-. injection H as <- <-.
  by exists sel, content, existing, bads, description.
Qed.

Lemma pick_types_helper_run sel content existing bads description st :
  self_p "ch_types" st = (Ok (VList sel), st) →
  pick_types_helper (VData content existing bads description) st
  = (Ok (VData content
           (picked_types (present_types (strings_of sel) existing) existing)
           bads description),
     say ("Picked Types: "
          +:+ repr_list (present_types (strings_of sel) existing)) st).
Proof.
  intros H. unfold pick_types_helper. rewrite bind_eq, bind_eq, H. reflexivity.
Qed.

(** [self.p] is the same after a line was printed or an attribute other
    than the preset was set. *)
Lemma self_p_say key line st v :
  self_p key st = (Ok v, st) → self_p key (say line st) = (Ok v, say line st).
Proof.
  intros H. apply self_p_inv in H as (_ & preset & p & H1 & H2 & H3).
  by apply (self_p_run _ _ preset p).
Qed.

Lemma self_p_set_attr key attr x st v :
  attr ≠ "p_preset" →
  self_p key st = (Ok v, st) →
  self_p key (set_self (dict_set attr x (self st)) st)
  = (Ok v, set_self (dict_set attr x (self st)) st).
Proof.
  intros Hne H. apply self_p_inv in H as (_ & preset & p & H1 & H2 & H3).
  apply (self_p_run _ _ preset p); [|done..].
  cbn. by rewrite dict_get_set_ne.
Qed.

(** Picking what was picked returns it, whatever its info. *)
Lemma pick_types_helper_again data st content types bads description st' st2
    bads' description' :
  pick_types_helper data st = (Ok (VData content types bads description), st') →
  (∀ sel, self_p "ch_types" st = (Ok sel, st) →
          self_p "ch_types" st2 = (Ok sel, st2)) →
  ∃ line,
    pick_types_helper (VData content types bads' description') st2
    = (Ok (VData content types bads' description'), say line st2).
Proof.
  intros H Hp.
  apply pick_types_helper_inv in H
    as (sel & content0 & existing & bads0 & description0 & Hsel & -> & Hv & ->).
  injection Hv as -> -> -> ->.
  eexists. rewrite (pick_types_helper_run sel) by by apply Hp.
  by rewrite present_types_picked, picked_types_idemp.
Qed.

(** [_update_raw_info]: what it needs and does. *)
Lemma _update_raw_info_inv st x st' :
  _update_raw_info st = (Ok x, st') →
  ∃ content types bads0 description0 bads description,
    dict_get "_raw" (self st) = Some (VData content types bads0 description0) ∧
    dict_get "bad_channels" (self st) = Some bads ∧
    dict_get "name" (self st) = Some description ∧
    st' = set_self (dict_set "_raw" (VData content types bads description) (self st)) st.
Proof.
  unfold _update_raw_info. intros H.
  apply bind_inv in H as (bads & s1 & H1 & H). apply get_attr_inv in H1 as [Hb ->].
  apply bind_inv in H as (raw & s1 & H1 & H). apply get_attr_inv in H1 as [Hr ->].
  destruct raw as [| | | | |content types bads0 description0| | |]; try done.
  apply bind_inv in H as ([] & s1 & H1 & H). apply set_attr_inv in H1 as ->.
  apply bind_inv in H as (name & s1 & H1 & H). apply get_attr_inv in H1 as [Hn ->].
  cbn in Hn. rewrite dict_get_set_ne in Hn by done.
  apply bind_inv in H as (raw & s1 & H1 & H). apply get_attr_inv in H1 as [Hr' ->].
  cbn in Hr'. rewrite dict_get_set in Hr'. injection Hr' as <-.
  apply set_attr_inv in H as ->. cbn. rewrite dict_set_set.
  by exists content, types, bads0, description0, bads, name.
Qed.

Lemma _update_raw_info_run st content types bads0 description0 bads description :
  dict_get "_raw" (self st) = Some (VData content types bads0 description0) →
  dict_get "bad_channels" (self st) = Some bads →
  dict_get "name" (self st) = Some description →
  _update_raw_info st
  = (Ok tt,
     set_self (dict_set "_raw" (VData content types bads description) (self st)) st).
Proof.
  intros Hr Hb Hn. unfold _update_raw_info.
  rewrite bind_eq, (get_attr_run _ _ _ Hb). cbn.
  rewrite bind_eq, (get_attr_run _ _ _ Hr). cbn.
  rewrite bind_eq. cbn. rewrite bind_eq. unfold get_attr at 1. cbn.
  rewrite dict_get_set_ne, Hn by done. cbn.
  rewrite bind_eq. unfold get_attr at 1. cbn. rewrite dict_get_set. cbn.
  unfold set_attr. cbn. by rewrite dict_set_set.
Qed.

Lemma says_snoc lines line st : says (lines ++ [line]) st = say line (says lines st).
Proof. unfold says. by rewrite foldl_app. Qed.

Lemma says_cons line lines st : says (line :: lines) st = says lines (say line st).
Proof. reflexivity. Qed.

Lemma self_says lines st : self (says lines st) = self st.
Proof.
  revert st. induction lines as [|l lines IH]; intros st; [done|].
  by rewrite says_cons, IH.
Qed.

Lemma reads_says lines st : reads (wd (says lines st)) = reads (wd st).
Proof.
  revert st. induction lines as [|l lines IH]; intros st; [done|].
  by rewrite says_cons, IH.
Qed.

Lemma fs_says lines st : fs (wd (says lines st)) = fs (wd st).
Proof.
  revert st. induction lines as [|l lines IH]; intros st; [done|].
  by rewrite says_cons, IH.
Qed.

Lemma pr_says lines st : pr (wd (says lines st)) = pr (wd st).
Proof.
  revert st. induction lines as [|l lines IH]; intros st; [done|].
  by rewrite says_cons, IH.
Qed.

Lemma set_self_same st : set_self (self st) st = st.
Proof. reflexivity. Qed.

(** [load_raw] a second time. *)
Lemma load_raw_again st v st1 :
  load_raw st = (Ok v, st1) →
  ∃ lines, load_raw st1 = (Ok v, says lines st1).
Proof.
  intros H. unfold load_raw in H.
  apply bind_inv in H as ([] & sA & _ & H).
  apply bind_inv in H as (raw0 & s & H1 & H). apply get_attr_inv in H1 as [Hraw0 ->].
  apply bind_inv in H as (raw1 & s1 & Hpick & H).
  pose proof Hpick as Hpick'.
  apply pick_types_helper_inv in Hpick'
    as (sel & content & existing & bads0 & description0 & Hsel & _ & -> & ->).
  apply bind_inv in H as ([] & s & H1 & H). apply set_attr_inv in H1 as ->.
  apply bind_inv in H as ([] & s & H1 & H).
  apply _update_raw_info_inv in H1
    as (content' & types' & b0 & d0 & bads & description & Hr & Hb & Hn & ->).
  cbn in Hr, Hb, Hn. rewrite dict_get_set in Hr. injection Hr as <- <- <- <-.
  rewrite dict_get_set_ne in Hb, Hn by done.
  apply get_attr_inv in H as [Hv ->]. cbn in Hv.
  rewrite dict_get_set in Hv. injection Hv as <-.
  match goal with |- ∃ _, load_raw ?s = (Ok ?x, _) => set (st1 := s); set (v := x) end.
  assert (dict_get "_raw" (self st1) = Some v) as Hraw by apply dict_get_set.
  assert (dict_get "bad_channels" (self st1) = Some bads) as Hb1.
  { cbn. by rewrite !dict_get_set_ne. }
  assert (dict_get "name" (self st1) = Some description) as Hn1.
  { cbn. by rewrite !dict_get_set_ne. }
  destruct (pick_types_helper_again _ _ _ _ _ _ _ st1 bads description Hpick)
    as [line Hagain].
  { intros sel0 Hsel0. subst st1.
    apply (self_p_set_attr _ "_raw"); [done|].
    apply (self_p_set_attr _ "_raw"); [done|]. by apply self_p_say. }
  exists [line]. clearbody st1. subst v. unfold load_raw.
  eapply bind_eval.
  { unfold cached, guarded.
    eapply bind_eval; [apply (get_attr_run _ _ _ Hraw)|]. reflexivity. }
  cbv beta iota.
  eapply bind_eval; [apply (get_attr_run _ _ _ Hraw)|cbv beta iota].
  eapply bind_eval; [apply Hagain|cbv beta iota].
  eapply bind_eval; [reflexivity|cbv beta iota].
  eapply bind_eval.
  { eapply _update_raw_info_run; cbn.
    - by rewrite dict_get_set.
    - rewrite dict_get_set_ne by done. exact Hb1.
    - rewrite dict_get_set_ne by done. exact Hn1. }
  cbv beta iota. cbn. rewrite !dict_set_set, (dict_set_same "_raw") by done.
  by apply get_attr_run.
Qed.

(** [load_filtered] a second time. *)
Lemma load_filtered_again st v st1 :
  load_filtered st = (Ok v, st1) →
  ∃ lines, load_filtered st1 = (Ok v, says lines st1).
Proof.
  intros H. unfold load_filtered in H.
  apply bind_inv in H as ([] & sA & _ & H).
  apply bind_inv in H as (raw0 & s & H1 & H). apply get_attr_inv in H1 as [Hraw0 ->].
  apply bind_inv in H as (raw1 & s1 & Hpick & H).
  pose proof Hpick as Hpick'.
  apply pick_types_helper_inv in Hpick'
    as (sel & content & existing & bads0 & description0 & Hsel & _ & -> & ->).
  apply bind_inv in H as ([] & s & H1 & H). apply set_attr_inv in H1 as ->.
  apply bind_inv in H as ([] & s & H1 & H).
  apply _update_raw_info_inv in H1
    as (content' & types' & b0 & d0 & bads & description & Hr & Hb & Hn & ->).
  cbn in Hr, Hb, Hn. rewrite dict_get_set_ne in Hr, Hb, Hn by done.
  apply get_attr_inv in H as [Hv ->]. cbn in Hv.
  rewrite dict_get_set_ne, dict_get_set in Hv by done. injection Hv as <-.
  match goal with |- ∃ _, load_filtered ?s = _ => set (st1 := s) end.
  assert (dict_get "_raw_filtered" (self st1)
          = Some (VData content
                    (picked_types (present_types (strings_of sel) existing) existing)
                    bads0 description0)) as Hrf.
  { cbn. by rewrite dict_get_set_ne, dict_get_set. }
  assert (dict_get "_raw" (self st1) = Some (VData content' types' bads description))
    as Hraw by apply dict_get_set.
  assert (dict_get "bad_channels" (self st1) = Some bads) as Hb1.
  { cbn. by rewrite !dict_get_set_ne. }
  assert (dict_get "name" (self st1) = Some description) as Hn1.
  { cbn. by rewrite !dict_get_set_ne. }
  destruct (pick_types_helper_again _ _ _ _ _ _ _ st1 bads0 description0 Hpick)
    as [line Hagain].
  { intros sel0 Hsel0. subst st1.
    apply (self_p_set_attr _ "_raw"); [done|].
    apply (self_p_set_attr _ "_raw_filtered"); [done|]. by apply self_p_say. }
  exists [line]. clearbody st1. unfold load_filtered.
  eapply bind_eval.
  { unfold cached, guarded.
    eapply bind_eval; [apply (get_attr_run _ _ _ Hrf)|]. reflexivity. }
  cbv beta iota.
  eapply bind_eval; [apply (get_attr_run _ _ _ Hrf)|cbv beta iota].
  eapply bind_eval; [apply Hagain|cbv beta iota].
  eapply bind_eval; [reflexivity|cbv beta iota].
  eapply bind_eval.
  { eapply _update_raw_info_run; cbn.
    - rewrite dict_get_set_ne by done. exact Hraw.
    - rewrite dict_get_set_ne by done. exact Hb1.
    - rewrite dict_get_set_ne by done. exact Hn1. }
  cbv beta iota. cbn.
  rewrite (dict_set_same "_raw_filtered") by done.
  rewrite (dict_set_same "_raw") by done.
  by apply get_attr_run.
Qed.

(** [load_epochs] a second time. *)
Lemma load_epochs_again st v st1 :
  load_epochs st = (Ok v, st1) →
  ∃ lines, load_epochs st1 = (Ok v, says lines st1).
Proof.
  intros H. unfold load_epochs in H.
  apply bind_inv in H as ([] & sA & _ & H).
  apply bind_inv in H as (raw0 & s & H1 & H). apply get_attr_inv in H1 as [Hraw0 ->].
  apply bind_inv in H as (raw1 & s1 & Hpick & H).
  pose proof Hpick as Hpick'.
  apply pick_types_helper_inv in Hpick'
    as (sel & content & existing & bads0 & description0 & Hsel & _ & -> & ->).
  apply bind_inv in H as ([] & s & H1 & H). apply set_attr_inv in H1 as ->.
  apply get_attr_inv in H as [Hv ->]. cbn in Hv.
  rewrite dict_get_set in Hv. injection Hv as <-.
  match goal with |- ∃ _, load_epochs ?s = _ => set (st1 := s) end.
  assert (dict_get "_epochs" (self st1)
          = Some (VData content
                    (picked_types (present_types (strings_of sel) existing) existing)
                    bads0 description0)) as He by apply dict_get_set.
  destruct (pick_types_helper_again _ _ _ _ _ _ _ st1 bads0 description0 Hpick)
    as [line Hagain].
  { intros sel0 Hsel0. subst st1.
    apply (self_p_set_attr _ "_epochs"); [done|]. by apply self_p_say. }
  exists [line]. clearbody st1. unfold load_epochs.
  eapply bind_eval.
  { unfold cached, guarded.
    eapply bind_eval; [apply (get_attr_run _ _ _ He)|]. reflexivity. }
  cbv beta iota.
  eapply bind_eval; [apply (get_attr_run _ _ _ He)|cbv beta iota].
  eapply bind_eval; [apply Hagain|cbv beta iota].
  eapply bind_eval; [reflexivity|cbv beta iota].
  cbn. rewrite (dict_set_same "_epochs") by done.
  by apply get_attr_run.
Qed.

Lemma says_set_self lines x st :
  says lines (set_self x st) = set_self x (says lines st).
Proof.
  revert st. induction lines as [|l lines IH]; intros st; [done|].
  rewrite !says_cons. apply (IH (say l st)).
Qed.

Lemma self_p_says key lines st v :
  self_p key st = (Ok v, st) → self_p key (says lines st) = (Ok v, says lines st).
Proof.
  revert st. induction lines as [|l lines IH]; intros st H; [done|].
  rewrite says_cons. by apply IH, self_p_say.
Qed.

Lemma iterate_inv v st l st' :
  iterate v st = (Ok l, st') →
  st' = st ∧ (v = VList l ∨ ∃ d, v = VDict d ∧ l = VStr <$> d.*1).
Proof.
  destruct v; try done; intros [= <- <-]; (split; [done|]); [by left|].
  right. by eexists.
Qed.

(** The loop of [load_evokeds]: when it returns, the attribute is the list
    of the picked items; run on such a list, it picks the same. *)
Lemma pick_each_inv todo : ∀ done st x st',
  pick_each done todo st = (Ok x, st') →
  (todo = [] ∧ st' = st) ∨
  ∃ sel todo' lines,
    self_p "ch_types" st = (Ok (VList sel), st) ∧
    Forall (λ y, ∃ content existing bads description,
              y = VData content
                    (picked_types (present_types (strings_of sel) existing) existing)
                    bads description) todo' ∧
    st' = set_self (dict_set "_evokeds" (VList (done ++ todo')) (self st))
            (says lines st).
Proof.
  induction todo as [|y todo IH]; intros done st x st' H.
  { left. by injection H as <-. }
  right. cbn [pick_each] in H.
  apply bind_inv in H as (picked & s1 & Hpick & H).
  apply pick_types_helper_inv in Hpick
    as (sel & content & existing & bads & description & Hsel & -> & Hpicked & Hs1).
  remember ("Picked Types: " +:+ repr_list (present_types (strings_of sel) existing))
    as line eqn:Hline.
  clear Hline. subst s1.
  apply bind_inv in H as ([] & s & H1 & H). apply set_attr_inv in H1 as ->.
  apply IH in H as [[-> ->]|(sel' & todo' & lines & Hsel' & Hall & ->)].
  - exists sel, [picked], [line]. split; [done|]. split; [|reflexivity].
    constructor; [|done]. subst picked. by eexists _, _, _, _.
  - assert (sel' = sel) as ->.
    { rewrite (self_p_set_attr _ "_evokeds" _ (say line st) (VList sel)) in Hsel';
        [|done|by apply self_p_say].
      by injection Hsel' as ->. }
    exists sel, (picked :: todo'), (line :: lines). split; [done|]. split.
    { constructor; [|done]. subst picked. by eexists _, _, _, _. }
    rewrite says_cons, <-app_assoc, says_set_self.
    unfold set_self at 1 3. cbn [self stack wd set_self].
    by rewrite dict_set_set.
Qed.


Lemma pick_each_again sel todo : ∀ done st,
  self_p "ch_types" st = (Ok (VList sel), st) →
  Forall (λ y, ∃ content existing bads description,
            y = VData content
                  (picked_types (present_types (strings_of sel) existing) existing)
                  bads description) todo →
  dict_get "_evokeds" (self st) = Some (VList (done ++ todo)) →
  ∃ lines, pick_each done todo st = (Ok tt, says lines st).
Proof.
  induction todo as [|y todo IH]; intros done st Hsel Hall Hattr.
  { by exists []. }
  apply Forall_cons in Hall as [(content & existing & bads & description & ->) Hall].
  destruct (IH (done ++ [VData content
                  (picked_types (present_types (strings_of sel) existing) existing)
                  bads description])
              (say ("Picked Types: "
                    +:+ repr_list
                          (present_types (strings_of sel)
                             (picked_types (present_types (strings_of sel) existing)
                                existing))) st))
    as [lines Hlines]; [by apply self_p_say|done|by rewrite <-app_assoc|].
  eexists (_ :: lines). cbn [pick_each].
  eapply bind_eval; [by apply (pick_types_helper_run sel)|cbv beta iota].
  rewrite present_types_picked, picked_types_idemp in *.
  rewrite bind_eq. unfold set_attr, set_self. cbv beta iota.
  cbn [self stack wd say set_wd].
  rewrite (dict_set_same "_evokeds") by done.
  exact Hlines.
Qed.

(** [load_evokeds] a second time. *)
Lemma load_evokeds_again st v st1 :
  load_evokeds st = (Ok v, st1) →
  ∃ lines, load_evokeds st1 = (Ok v, says lines st1).
Proof.
  intros H. unfold load_evokeds in H.
  apply bind_inv in H as ([] & sA & _ & H).
  apply bind_inv in H as (evokeds & s & H1 & H).
  apply bind_inv in H1 as (ev0 & s0 & H0 & H1).
  apply get_attr_inv in H0 as [Hev0 ->]. pose proof H1 as Hiter.
  apply iterate_inv in H1 as [-> Hshape].
  apply bind_inv in H as ([] & s & Heach & H).
  apply get_attr_inv in H as [Hv ->].
  apply pick_each_inv in Heach as [[-> ->]|(sel & todo' & lines & Hsel & Hall & ->)].
  - exists []. rewrite Hev0 in Hv. injection Hv as <-. unfold load_evokeds.
    assert (is_none ev0 = false) as Hnone.
    { by destruct Hshape as [->|(d & -> & _)]. }
    eapply bind_eval.
    { unfold cached, guarded.
      eapply bind_eval; [apply (get_attr_run _ _ _ Hev0)|].
      cbv beta iota. by rewrite Hnone. }
    cbv beta iota.
    eapply bind_eval.
    { eapply bind_eval; [apply (get_attr_run _ _ _ Hev0)|]. exact Hiter. }
    cbv beta iota.
    eapply bind_eval; [reflexivity|cbv beta iota]. by apply get_attr_run.
  - cbn in Hv. rewrite dict_get_set in Hv. injection Hv as <-.
    rewrite <-(self_says lines sA).
    match goal with |- ∃ _, load_evokeds ?s = _ => set (st1 := s) end.
    assert (dict_get "_evokeds" (self st1) = Some (VList todo')) as Hattr
      by apply dict_get_set.
    destruct (pick_each_again sel todo' [] st1) as [lines' Hagain]; [|done|done|].
    { subst st1. apply (self_p_set_attr _ "_evokeds"); [done|].
      by apply self_p_says. }
    exists lines'. clearbody st1. unfold load_evokeds.
    eapply bind_eval.
    { unfold cached, guarded.
      eapply bind_eval; [apply (get_attr_run _ _ _ Hattr)|]. reflexivity. }
    cbv beta iota.
    eapply bind_eval.
    { eapply bind_eval; [apply (get_attr_run _ _ _ Hattr)|]. reflexivity. }
    cbv beta iota.
    eapply bind_eval; [exact Hagain|cbv beta iota].
    apply get_attr_run. by rewrite self_says.
Qed.

(** Every load method but [load_erm]: once it has returned an object, it
    returns the same object again, and does nothing but print. *)
Lemma call_again m st v st1 :
  m ≠ Load_erm →
  call m st = (Ok v, st1) → is_none v = false →
  ∃ lines, call m st1 = (Ok v, says lines st1).
Proof.
  intros Hm H Hv.
  destruct m; try done; cbn [call] in *;
    try exact (load_raw_again _ _ _ H);
    try exact (load_filtered_again _ _ _ H);
    try exact (load_epochs_again _ _ _ H);
    try exact (load_evokeds_again _ _ _ H);
    try (exists []; exact (guarded_again _ _ _ _ _ H Hv)).
  unfold load_morphed_source_estimates in H.
  apply bind_inv in H as ([] & s & _ & H). cbv beta iota delta [ret] in H.
  injection H as <- <-. done.
Qed.

Lemma says_app l1 l2 st : says l2 (says l1 st) = says (l1 ++ l2) st.
Proof. unfold says. by rewrite foldl_app. Qed.

(** And so for every later call. *)
Lemma call_again_times m v n : ∀ st st1,
  m ≠ Load_erm →
  call m st = (Ok v, st1) → is_none v = false →
  ∃ lines lines',
    again n (call m) st1 = says lines st1 ∧
    call m (again n (call m) st1) = (Ok v, says lines' st1).
Proof.
  induction n as [|n IH]; intros st st1 Hm H Hv.
  - destruct (call_again m st v st1 Hm H Hv) as [lines Hagain].
    by exists [], lines.
  - destruct (call_again m st v st1 Hm H Hv) as [l Hagain].
    destruct (IH st1 (says l st1) Hm Hagain Hv) as (lines & lines' & Hn & Hcall).
    exists (l ++ lines), (l ++ lines').
    cbn [again]. rewrite Hagain. cbn [snd].
    split; [by rewrite Hn, says_app|by rewrite Hcall, says_app].
Qed.

End CachingFacts.

(** ** The save methods: facts *)

Module SavingFacts.
Import Loading LoadingFacts CachingFacts.

Section Saving.

Variable size_of : value → Z.

Lemma in_frame_inv {A} name (body : M A) st x st' :
  in_frame name body st = (Ok x, st') →
  ∃ s1, body (set_stack (name :: stack st) st) = (Ok x, s1) ∧
        st' = set_stack (stack st) s1.
Proof.
  unfold in_frame. destruct (body _) as [r s1]. intros [= -> <-]. by exists s1.
Qed.

Lemma set_file_parameter_run file_name key v fps entry st :
  set_file_parameter file_name key v
    (with_file_parameters (<[file_name := entry]> fps) st)
  = (Ok tt, with_file_parameters (<[file_name := <[key := v]> entry]> fps) st).
Proof.
  unfold set_file_parameter. rewrite bind_eq. cbn.
  rewrite bind_eq, (lookup_key_Some _ _ entry) by apply lookup_insert_eq.
  unfold modify_world, with_file_parameters. cbn.
  by rewrite insert_insert_eq.
Qed.

Lemma new_file_parameters_run file_name st :
  new_file_parameters file_name st
  = (Ok tt, with_file_parameters
              (<[file_name := ∅]> (file_parameters (pr (wd st)))) st).
Proof. reflexivity. Qed.

(** The loop over the parameters of the preset writes each of them. *)
Lemma record_parameters file_name preset p fps st keys : ∀ entry,
  dict_get "p_preset" (self st) = Some (VStr preset) →
  parameters (pr (wd st)) !! preset = Some p →
  (∀ k, k ∈ keys → is_Some (p !! k)) →
  ∃ entry',
    for_each keys (λ p_name,
      preset ← get_str "p_preset";
      w ← get_world;
      p ← lookup_key (parameters (pr w)) preset;
      v ← lookup_key p p_name;
      set_file_parameter file_name p_name v)
      (with_file_parameters (<[file_name := entry]> fps) st)
    = (Ok tt, with_file_parameters (<[file_name := entry']> fps) st)
    ∧ ∀ k, entry' !! k = if decide (k ∈ keys) then p !! k else entry !! k.
Proof.
  induction keys as [|key keys IH]; intros entry Hpreset Hp Hkeys.
  { exists entry. split; [done|]. intros k. by rewrite decide_False by apply not_elem_of_nil. }
  destruct (Hkeys key) as [v Hv]; [by left|].
  destruct (IH (<[key := v]> entry) Hpreset Hp) as (entry' & Hrun & Hentry').
  { intros k Hk. apply Hkeys. by right. }
  exists entry'. split.
  - cbn [for_each]. eapply bind_eval.
    { eapply bind_eval.
      { unfold get_str. eapply bind_eval; [by apply get_attr_run|]. reflexivity. }
      cbv beta iota.
      eapply bind_eval; [reflexivity|cbv beta iota].
      eapply bind_eval; [by apply lookup_key_Some|cbv beta iota].
      eapply bind_eval; [by apply lookup_key_Some|cbv beta iota].
      apply set_file_parameter_run. }
    cbv beta iota. exact Hrun.
  - intros k. rewrite Hentry'. destruct (decide (k ∈ keys)) as [Hin|Hnin].
    + by rewrite decide_True by by right.
    + destruct (decide (k = key)) as [->|Hne].
      * rewrite decide_True by left. by rewrite lookup_insert_eq.
      * rewrite decide_False by (intros [?|?]%elem_of_cons; done).
        by rewrite lookup_insert_ne.
Qed.

Lemma elem_of_keys (p : gmap string value) k :
  k ∈ (map_to_list p).*1 ↔ is_Some (p !! k).
Proof.
  rewrite list_elem_of_fmap. split.
  - intros ([k' v] & -> & Hkv). apply elem_of_map_to_list in Hkv. by exists v.
  - intros [v Hv]. exists (k, v). split; [done|]. by apply elem_of_map_to_list.
Qed.

(** [save_file_params] returns when the caller has a caller, the object has
    a name and a preset with parameters, and the file exists; the entry it
    leaves under the name of the file has every parameter of the preset,
    and the five fields where no parameter has their name. *)
Lemma save_file_params_run path st f name content preset p :
  stack st !! 1%nat = Some f →
  dict_get "name" (self st) = Some name →
  fs (wd st) !! path = Some content →
  dict_get "p_preset" (self st) = Some (VStr preset) →
  parameters (pr (wd st)) !! preset = Some p →
  ∃ entry,
    save_file_params size_of path st
    = (Ok tt,
       with_file_parameters
         (<[path_name path := entry]> (file_parameters (pr (wd st)))) st)
    ∧ ∀ k, entry !! k
           = match p !! k with
             | Some v => Some v
             | None => file_metadata f name path (now (wd st)) (size_of content) !! k
             end.
Proof.
  intros Hf Hname Hfile Hpreset Hp.
  set (st0 := set_stack ("save_file_params" :: stack st) st).
  destruct (record_parameters (path_name path) preset p
              (file_parameters (pr (wd st))) st0 (map_to_list p).*1
              (file_metadata f name path (now (wd st)) (size_of content)))
    as (entry & Hrun & Hentry); [done|done|by intros k ?%elem_of_keys|].
  exists entry. split.
  - unfold save_file_params. eapply in_frame_eval.
    { subst st0.
      eapply bind_eval; [apply new_file_parameters_run|cbv beta iota].
      eapply bind_eval.
      { assert (("save_file_params" :: stack st) !! 2%nat = Some f) as Hf2 by exact Hf.
        unfold caller_of_caller.
        cbn [stack with_file_parameters set_wd set_stack]. rewrite Hf2.
        reflexivity. }
      cbv beta iota.
      eapply bind_eval; [apply set_file_parameter_run|cbv beta iota].
      eapply bind_eval; [by apply get_attr_run|cbv beta iota].
      eapply bind_eval; [apply set_file_parameter_run|cbv beta iota].
      eapply bind_eval; [apply set_file_parameter_run|cbv beta iota].
      eapply bind_eval; [reflexivity|cbv beta iota].
      eapply bind_eval; [apply set_file_parameter_run|cbv beta iota].
      eapply bind_eval.
      { unfold getsize. eapply bind_eval; [reflexivity|cbv beta iota].
        cbn. rewrite Hfile. reflexivity. }
      cbv beta iota.
      eapply bind_eval; [apply set_file_parameter_run|cbv beta iota].
      eapply bind_eval.
      { unfold get_str. eapply bind_eval; [by apply get_attr_run|]. reflexivity. }
      cbv beta iota.
      eapply bind_eval; [reflexivity|cbv beta iota].
      eapply bind_eval; [by apply lookup_key_Some|cbv beta iota].
      exact Hrun. }
    reflexivity.
  - intros k. rewrite Hentry. destruct (p !! k) as [v|] eqn:Hk.
    + by rewrite decide_True by (apply elem_of_keys; by rewrite Hk).
    + rewrite decide_False; [done|]. rewrite elem_of_keys, Hk. by intros [].
Qed.

(** What [save_file_params] needs to return. *)
Lemma save_file_params_inv path st x st' :
  save_file_params size_of path st = (Ok x, st') →
  ∃ f name content preset p,
    stack st !! 1%nat = Some f ∧
    dict_get "name" (self st) = Some name ∧
    fs (wd st) !! path = Some content ∧
    dict_get "p_preset" (self st) = Some (VStr preset) ∧
    parameters (pr (wd st)) !! preset = Some p.
Proof.
  unfold save_file_params. intros H.
  apply in_frame_inv in H as (s1 & H & _).
  set (st0 := set_stack ("save_file_params" :: stack st) st) in H.
  apply bind_inv in H as ([] & s & H1 & H).
  rewrite new_file_parameters_run in H1. injection H1 as <-.
  apply bind_inv in H as (f & s & H1 & H).
  unfold caller_of_caller in H1.
  cbn [stack with_file_parameters set_wd set_stack] in H1.
  change (stack st0 !! 2%nat) with (stack st !! 1%nat) in H1.
  destruct (stack st !! 1%nat) as [f'|] eqn:Hf; cbv beta iota in H1; [|done].
  injection H1 as -> <-.
  apply bind_inv in H as ([] & s & H1 & H).
  rewrite set_file_parameter_run in H1. injection H1 as <-.
  apply bind_inv in H as (name & s & H1 & H). apply get_attr_inv in H1 as [Hname ->].
  apply bind_inv in H as ([] & s & H1 & H).
  rewrite set_file_parameter_run in H1. injection H1 as <-.
  apply bind_inv in H as ([] & s & H1 & H).
  rewrite set_file_parameter_run in H1. injection H1 as <-.
  apply bind_inv in H as (w & s & H1 & H). injection H1 as <- <-.
  apply bind_inv in H as ([] & s & H1 & H).
  rewrite set_file_parameter_run in H1. injection H1 as <-.
  apply bind_inv in H as (size & s & H1 & H).
  unfold getsize in H1. apply bind_inv in H1 as (w & s0 & H0 & H1).
  injection H0 as <- <-. cbn in H1.
  destruct (fs (wd st) !! path) as [content|] eqn:Hfile; cbv beta iota in H1; [|done].
  injection H1 as <- <-.
  apply bind_inv in H as ([] & s & H1 & H).
  rewrite set_file_parameter_run in H1. injection H1 as <-.
  apply bind_inv in H as (preset & s & H1 & H).
  unfold get_str in H1. apply bind_inv in H1 as (v & s0 & H0 & H1).
  apply get_attr_inv in H0 as [Hpreset ->]. apply as_str_inv in H1 as [-> ->].
  apply bind_inv in H as (w & s & H1 & H). injection H1 as <- <-.
  apply bind_inv in H as (p & s & H1 & H). apply lookup_key_inv in H1 as [Hp ->].
  by exists f, name, content, preset, p.
Qed.

Lemma write_file_inv path v st x st' :
  write_file path v st = (Ok x, st') → (path ∉ locked (wd st)) ∧ st' = wrote path v st.
Proof.
  unfold write_file. intros H. apply bind_inv in H as (w & s & H1 & H).
  injection H1 as <- <-. destruct (bool_decide (path ∈ locked (wd st))) eqn:E; [done|].
  apply bool_decide_eq_false in E. by injection H as <-.
Qed.

Lemma write_file_run path v st :
  path ∉ locked (wd st) → write_file path v st = (Ok tt, wrote path v st).
Proof.
  intros Hl. unfold write_file. rewrite bind_eq. cbn.
  by rewrite bool_decide_false.
Qed.

(** [save_file_params], when it returns, has left the entry of the file. *)
Lemma save_file_params_ok path st x st' :
  save_file_params size_of path st = (Ok x, st') →
  ∃ f name content preset p entry,
    stack st !! 1%nat = Some f ∧
    dict_get "name" (self st) = Some name ∧
    fs (wd st) !! path = Some content ∧
    dict_get "p_preset" (self st) = Some (VStr preset) ∧
    parameters (pr (wd st)) !! preset = Some p ∧
    st' = with_file_parameters
            (<[path_name path := entry]> (file_parameters (pr (wd st)))) st ∧
    entry_of size_of f name path (now (wd st)) content p entry.
Proof.
  intros H.
  destruct (save_file_params_inv _ _ _ _ H)
    as (f & name & content & preset & p & Hf & Hname & Hfile & Hpreset & Hp).
  destruct (save_file_params_run path st f name content preset p)
    as (entry & Hrun & Hentry); try done.
  exists f, name, content, preset, p, entry.
  rewrite Hrun in H. by injection H as <-.
Qed.

Lemma get_str_inv a st s st' :
  get_str a st = (Ok s, st') → dict_get a (self st) = Some (VStr s) ∧ st' = st.
Proof.
  unfold get_str. intros H. apply bind_inv in H as (v & s0 & H0 & H1).
  apply get_attr_inv in H0 as [Ha ->]. apply as_str_inv in H1 as [-> ->]. done.
Qed.

Lemma get_str_run a st s :
  dict_get a (self st) = Some (VStr s) → get_str a st = (Ok s, st).
Proof.
  intros Ha. unfold get_str. eapply bind_eval; [by apply get_attr_run|]. reflexivity.
Qed.

(** A file written and recorded: the path is the one of the attribute, the
    file has the object, and the entry is the one of [save_file_params]
    with the size of the object. *)
Lemma write_and_record_inv path_attr obj st x st' :
  write_and_record size_of path_attr obj st = (Ok x, st') →
  ∃ path f name preset p entry,
    dict_get path_attr (self st) = Some (VStr path) ∧
    (path ∉ locked (wd st)) ∧
    stack st !! 1%nat = Some f ∧
    dict_get "name" (self st) = Some name ∧
    dict_get "p_preset" (self st) = Some (VStr preset) ∧
    parameters (pr (wd st)) !! preset = Some p ∧
    st' = with_file_parameters
            (<[path_name path := entry]> (file_parameters (pr (wd st))))
            (wrote path obj st) ∧
    entry_of size_of f name path (now (wd st)) obj p entry.
Proof.
  unfold write_and_record. intros H.
  apply bind_inv in H as (path & s & H1 & H). apply get_str_inv in H1 as [Hpath ->].
  apply bind_inv in H as ([] & s & H1 & H). apply write_file_inv in H1 as [Hl ->].
  apply bind_inv in H as (path' & s & H1 & H). apply get_str_inv in H1 as [Hpath' ->].
  change (self (wrote path obj st)) with (self st) in Hpath'.
  rewrite Hpath in Hpath'. injection Hpath' as <-.
  apply save_file_params_ok in H
    as (f & name & content & preset & p & entry & Hf & Hn & Hc & Hpr & Hp & -> & He).
  change (fs (wd (wrote path obj st))) with (<[path := obj]> (fs (wd st))) in Hc.
  rewrite lookup_insert_eq in Hc. injection Hc as <-.
  by exists path, f, name, preset, p, entry.
Qed.

Lemma write_and_record_run path_attr obj st path f name preset p :
  dict_get path_attr (self st) = Some (VStr path) →
  path ∉ locked (wd st) →
  stack st !! 1%nat = Some f →
  dict_get "name" (self st) = Some name →
  dict_get "p_preset" (self st) = Some (VStr preset) →
  parameters (pr (wd st)) !! preset = Some p →
  ∃ entry,
    write_and_record size_of path_attr obj st
    = (Ok tt, with_file_parameters
                (<[path_name path := entry]> (file_parameters (pr (wd st))))
                (wrote path obj st)) ∧
    entry_of size_of f name path (now (wd st)) obj p entry.
Proof.
  intros Hpath Hl Hf Hn Hpr Hp.
  destruct (save_file_params_run path (wrote path obj st) f name obj preset p)
    as (entry & Hrun & Hentry); try done.
  { change (fs (wd (wrote path obj st))) with (<[path := obj]> (fs (wd st))).
    apply lookup_insert_eq. }
  exists entry. split; [|exact Hentry].
  unfold write_and_record.
  eapply bind_eval; [by apply get_str_run|cbv beta iota].
  eapply bind_eval; [by apply write_file_run|cbv beta iota].
  eapply bind_eval; [by apply get_str_run|cbv beta iota].
  exact Hrun.
Qed.

(** [save_raw], when it returns: the object passed is a raw object, it was
    given the bad channels and the name of the MEEG object, written to the
    raw path, and recorded for the caller of [save_raw]. *)
Lemma save_raw_inv raw st x st' :
  save_raw size_of raw st = (Ok x, st') →
  ∃ content types bads0 description0 bads name path f preset p entry,
    raw = VData content types bads0 description0 ∧
    dict_get "bad_channels" (self st) = Some bads ∧
    dict_get "name" (self st) = Some name ∧
    dict_get "raw_path" (self st) = Some (VStr path) ∧
    (path ∉ locked (wd st)) ∧
    stack st !! 0%nat = Some f ∧
    dict_get "p_preset" (self st) = Some (VStr preset) ∧
    parameters (pr (wd st)) !! preset = Some p ∧
    st' = with_file_parameters
            (<[path_name path := entry]> (file_parameters (pr (wd st))))
            (wrote path (VData content types bads name)
               (set_self (dict_set "_raw" (VData content types bads name) (self st))
                  st)) ∧
    entry_of size_of f name path (now (wd st)) (VData content types bads name) p entry.
Proof.
  unfold save_raw. intros H.
  apply in_frame_inv in H as (s1 & H & ->).
  apply bind_inv in H as ([] & s & H1 & H). apply set_attr_inv in H1 as ->.
  apply bind_inv in H as ([] & s & H1 & H).
  apply _update_raw_info_inv in H1
    as (content & types & b0 & d0 & bads & name & Hr & Hb & Hn & ->).
  cbn in Hr, Hb, Hn. rewrite dict_get_set in Hr. injection Hr as ->.
  rewrite dict_get_set_ne in Hb, Hn by done.
  apply bind_inv in H as (raw' & s & H1 & H). apply get_attr_inv in H1 as [Hv ->].
  cbn in Hv. rewrite dict_get_set in Hv. injection Hv as <-.
  apply write_and_record_inv in H
    as (path & f & name' & preset & p & entry & Hpath & Hl & Hf & Hn' & Hpr & Hp & -> & He).
  cbn in Hpath, Hn', Hpr. rewrite dict_set_set in Hpath, Hn', Hpr.
  rewrite dict_get_set_ne in Hpath, Hn', Hpr by done.
  rewrite Hn in Hn'. injection Hn' as <-.
  exists content, types, b0, d0, bads, name, path, f, preset, p, entry.
  repeat split; try done.
  cbn. by rewrite dict_set_set.
Qed.

(** A method that sets an attribute, writes the object and records the
    file, when it returns. *)
Lemma save_to_inv method attr pattr obj st x st' :
  attr ≠ pattr → attr ≠ "name" → attr ≠ "p_preset" →
  in_frame method (save_to size_of attr pattr obj) st = (Ok x, st') →
  ∃ name path f preset p entry,
    dict_get "name" (self st) = Some name ∧
    dict_get pattr (self st) = Some (VStr path) ∧
    (path ∉ locked (wd st)) ∧
    stack st !! 0%nat = Some f ∧
    dict_get "p_preset" (self st) = Some (VStr preset) ∧
    parameters (pr (wd st)) !! preset = Some p ∧
    st' = with_file_parameters
            (<[path_name path := entry]> (file_parameters (pr (wd st))))
            (wrote path obj (set_self (dict_set attr obj (self st)) st)) ∧
    entry_of size_of f name path (now (wd st)) obj p entry.
Proof.
  intros Ha1 Ha2 Ha3 H.
  apply in_frame_inv in H as (s1 & H & ->). unfold save_to in H.
  apply bind_inv in H as ([] & s & H1 & H). apply set_attr_inv in H1 as ->.
  apply write_and_record_inv in H
    as (path & f & name & preset & p & entry & Hpath & Hl & Hf & Hn & Hpr & Hp & -> & He).
  cbn in Hpath, Hn, Hpr.
  rewrite dict_get_set_ne in Hpath, Hn, Hpr by done.
  by exists name, path, f, preset, p, entry.
Qed.

(** Every save method that writes one file, when it returns: the file
    under the path of the object has what was saved, and the entry of the
    file has the parameters of the preset of the object and, where no
    parameter has their name, the five fields, the function being the
    caller of the method. *)
Lemma save_inv m obj st x st' :
  save size_of m obj st = (Ok x, st') →
  ∃ name path f preset p saved entry,
    dict_get "name" (self st) = Some name ∧
    dict_get (path_attr m) (self st) = Some (VStr path) ∧
    (path ∉ locked (wd st)) ∧
    stack st !! 0%nat = Some f ∧
    dict_get "p_preset" (self st) = Some (VStr preset) ∧
    parameters (pr (wd st)) !! preset = Some p ∧
    fs (wd st') = <[path := saved]> (fs (wd st)) ∧
    file_parameters (pr (wd st'))
    = <[path_name path := entry]> (file_parameters (pr (wd st))) ∧
    entry_of size_of f name path (now (wd st)) saved p entry.
Proof.
  intros H.
  assert (m = Save_raw ∨
          ∃ method attr, attr ≠ path_attr m ∧ attr ≠ "name" ∧ attr ≠ "p_preset" ∧
            save size_of m obj = in_frame method (save_to size_of attr (path_attr m) obj))
    as [->|(method & attr & Ha1 & Ha2 & Ha3 & Hm)].
  { destruct m; [by left|..]; right; eexists _, _;
      (split; [|split; [|split; [|reflexivity]]]); done. }
  - apply save_raw_inv in H
      as (content & types & b0 & d0 & bads & name & path & f & preset & p & entry
          & -> & Hb & Hn & Hpath & Hl & Hf & Hpr & Hp & -> & He).
    by exists name, path, f, preset, p, (VData content types bads name), entry.
  - rewrite Hm in H. apply save_to_inv in H
      as (name & path & f & preset & p & entry
          & Hn & Hpath & Hl & Hf & Hpr & Hp & -> & He); try done.
    by exists name, path, f, preset, p, obj, entry.
Qed.

End Saving.
End SavingFacts.

(** ** The loading classes: what the specification says of them *)

Module LoadingSpec.
Import Loading LoadingFacts CachingFacts SavingFacts.









End LoadingSpec.
